(** * Ship dashboard: label polling, store refresh and completion patch

    Shallow embedding of the order dashboard pages
    ([GenesisShipDashboard] in both page variants): the listing refresh
    [fetchGenesisOrders], the bounded polling loop [pollForLabels] and the
    store update performed by [shipNow] once polling has finished.

    Conventions.
    - JavaScript strings are modelled as [string]; [undefined]/[null] for an
      optional field is [None].  A string is truthy iff it is not empty.
    - The lookup [Map] is a finite map [gmap string (option string)]:
      [None] is a missing key, [Some None] is [null]/[undefined],
      [Some (Some l)] is a label.  The poll result is a plain object
      ([Record<string, string | null>]): its own properties are such a
      finite map, and it has a prototype, [Object.prototype] until an
      assignment to [__proto__] detaches it.  Reading a key that is no own
      property finds what [Object.prototype] has under that name.
    - The case mappings, [Date] and the division of numbers are host
      functions.  They are computed here where the language fixes the
      answer on the model's data (ASCII strings, complete timestamps,
      safe integers) and are otherwise parameters, gathered in [Engine].
    - [maxAttempts] and [pollIntervalMs] are natural numbers, as at every
      call site (2, 15, 20 attempts; 2000 or 3000 ms).
    - [fetch] is an oracle: the outcome of the request issued at a given
      poll attempt.  Everything the code writes to the console and every
      timer it awaits is recorded in an event log. *)

From Stdlib Require Import ZArith Ascii String List Permutation Lia.
From stdpp Require Import gmap strings list fin_maps sorting.

Set Warnings "-clear-no-such-hyp".
Local Open Scope string_scope.

(** ** Orders as they arrive from the listing endpoint *)

Record RawOrder := mkRawOrder {
  order_id : string;
  name : option string;
  phone_number : option string;
  city : option string;
  bookId : option string;
  bookStyle : option string;
  coverPdf : option string;
  interiorPdf : option string;
  printer : option string;
  label_url : option string;
  print_sent_at : option string;
  zip : option string
}.

(** Truthiness of a string and of an optional string ([if (lbl)]). *)
Definition truthy (s : string) : bool :=
  match s with EmptyString => false | String _ _ => true end.

Definition truthyOpt (o : option string) : bool :=
  match o with Some s => truthy s | None => false end.

(** [x || ""] on an optional string. *)
Definition orEmpty (o : option string) : string :=
  match o with Some s => s | None => "" end.

(** ** The listing collaborator *)

(** What [json.items] may hold. *)
Inductive Items :=
| ItemsMissing                                  (* undefined or null *)
| ItemsArray (data : list (option RawOrder))    (* an array; entries may be null *)
| ItemsString (text : string)                   (* iterable, but no array *)
| ItemsNotIterable.                             (* a number, a plain object, ... *)

(** The decoded body. *)
Inductive Json :=
| JsonNull
| JsonArray (data : list (option RawOrder))
| JsonObject (items : Items) (total : option Z).

Record Response := mkResponse {
  ok : bool;
  status : Z;
  body : option Json        (* None: res.json() rejects *)
}.

Inductive FetchOutcome :=
| FetchRejects
| FetchResolves (res : Response).

Inductive Exn := NetworkError | SyntaxError | TypeError.

(** [Array.isArray(json) ? json : (json.items as RawOrder[]) ?? []]; reading
    [items] off [null] raises. *)
Definition listingData (json : Json) : Exn + Items :=
  match json with
  | JsonNull => inl TypeError
  | JsonArray data => inr (ItemsArray data)
  | JsonObject ItemsMissing _ => inr (ItemsArray [])
  | JsonObject it _ => inr it
  end.

(** ** pollForLabels *)

Inductive Event :=
| EvFetch (attempt : nat)
| EvWarn (status : Z)
| EvError (e : Exn)
| EvSleep (ms : nat).

(** The prototype of the [result] object. *)
Inductive Proto := ObjectPrototype | NullPrototype.

(** [result] holds the own properties of the object, [proto] its
    prototype. *)
Record PollState := mkPollState {
  result : gmap string (option string);
  proto : Proto;
  log : list Event
}.

(** State and exceptions: the [result] object is mutated in place, so a
    computation that raises still hands back the state it reached. *)
Definition Poll (A : Type) : Type := PollState -> (Exn + A) * PollState.

Definition ret {A} (a : A) : Poll A := fun st => (inr a, st).
Definition throw {A} (e : Exn) : Poll A := fun st => (inl e, st).
Definition bind {A B} (m : Poll A) (k : A -> Poll B) : Poll B :=
  fun st => match m st with
            | (inr a, st') => k a st'
            | (inl e, st') => (inl e, st')
            end.
Definition tryCatch {A} (m : Poll A) (h : Exn -> Poll A) : Poll A :=
  fun st => match m st with
            | (inr a, st') => (inr a, st')
            | (inl e, st') => h e st'
            end.
Definition lift {A} (x : Exn + A) : Poll A := fun st => (x, st).

Notation "'perform' x <- m ;; k" := (bind m (fun x => k))
  (at level 10, x name, m at level 99, k at level 200, only parsing).
Notation "m ;;; k" := (bind m (fun _ => k))
  (at level 100, k at level 200, right associativity, only parsing).

Definition emit (e : Event) : Poll unit :=
  fun st => (inr tt, {| result := result st; proto := proto st;
                        log := log st ++ [e] |}).

(** An assignment to the key [__proto__] of an object that has no own
    property of that name and still has [Object.prototype] as its prototype
    runs the setter it inherits from there. *)
Definition viaSetter (r : gmap string (option string)) (p : Proto)
    (id : string) : bool :=
  String.eqb id "__proto__"
  && match p with ObjectPrototype => true | NullPrototype => false end
  && match r !! id with Some _ => false | None => true end.

(** [result[id] = v].  The inherited setter makes [null] the prototype of
    the object and ignores a text; in either case no own property is
    written.  Every other assignment writes an own property. *)
Definition setResult (id : string) (v : option string) : Poll unit :=
  fun st =>
    (inr tt,
     if viaSetter (result st) (proto st) id
     then {| result := result st;
             proto := match v with
                      | None => NullPrototype
                      | Some _ => proto st
                      end;
             log := log st |}
     else {| result := <[id := v]> (result st); proto := proto st;
             log := log st |}).

(** [for (const id of orderIds) result[id] = null]. *)
Fixpoint initResult (orderIds : list string) : Poll unit :=
  match orderIds with
  | [] => ret tt
  | id :: rest => setResult id None ;;; initResult rest
  end.

(** The lookup built from one listing: entries that are null or have a falsy
    [order_id] are skipped, a later entry overrides an earlier one. *)
Fixpoint buildMap (data : list (option RawOrder))
    (map : gmap string (option string)) : gmap string (option string) :=
  match data with
  | [] => map
  | d :: rest =>
      match d with
      | Some o =>
          if truthy (order_id o)
          then buildMap rest (<[order_id o := label_url o]> map)
          else buildMap rest map
      | None => buildMap rest map
      end
  end.

Definition lookupOf (it : Items) : Exn + gmap string (option string) :=
  match it with
  | ItemsArray data => inr (buildMap data ∅)
  | ItemsMissing => inr ∅
  | ItemsString _ => inr ∅    (* its characters have no [order_id] *)
  | ItemsNotIterable => inl TypeError
  end.

(** [map.get(id)]: a missing key and a stored [undefined] read the same. *)
Definition mapGet (map : gmap string (option string)) (id : string)
    : option string :=
  match map !! id with Some v => v | None => None end.

(** The loop that copies labels into [result]; returns [allFound]. *)
Fixpoint markFound (map : gmap string (option string))
    (orderIds : list string) (allFound : bool) : Poll bool :=
  match orderIds with
  | [] => ret allFound
  | id :: rest =>
      let lbl := mapGet map id in
      if truthyOpt lbl
      then setResult id lbl ;;; markFound map rest allFound
      else markFound map rest false
  end.

Section Polling.
Variable env : nat -> FetchOutcome.
Variable orderIds : list string.
Variable pollIntervalMs : nat.

Definition fetchListing (attempt : nat) : Poll Response :=
  emit (EvFetch attempt) ;;;
  match env attempt with
  | FetchRejects => throw NetworkError
  | FetchResolves res => ret res
  end.

Definition resJson (res : Response) : Poll Json :=
  match body res with
  | Some j => ret j
  | None => throw SyntaxError
  end.

(** The body of the [try] block; [true] means [return result] was
    reached. *)
Definition attemptBody (attempt : nat) : Poll bool :=
  perform res <- fetchListing attempt ;;
  if negb (ok res)
  then emit (EvWarn (status res)) ;;; ret false
  else
    perform json <- resJson res ;;
    perform data <- lift (listingData json) ;;
    perform map <- lift (lookupOf data) ;;
    markFound map orderIds true.

Inductive Outcome := EarlyExit | Exhausted.

(** [for (let attempt = 0; attempt < maxAttempts; attempt++)], with
    [remaining = maxAttempts - attempt]. *)
Fixpoint pollLoop (remaining attempt : nat) : Poll Outcome :=
  match remaining with
  | 0 => ret Exhausted
  | S remaining' =>
      perform found <- tryCatch (attemptBody attempt)
                        (fun e => emit (EvError e) ;;; ret false) ;;
      if found then ret EarlyExit
      else emit (EvSleep pollIntervalMs) ;;; pollLoop remaining' (S attempt)
  end.

Definition pollForLabels (maxAttempts : nat) : (Exn + Outcome) * PollState :=
  (initResult orderIds ;;; pollLoop maxAttempts 0)
    {| result := ∅; proto := ObjectPrototype; log := [] |}.
End Polling.

(** Observations on a run. *)
Definition isFetch (e : Event) : bool :=
  match e with EvFetch _ => true | _ => false end.
Definition isSleep (e : Event) : bool :=
  match e with EvSleep _ => true | _ => false end.
Definition polls (tr : list Event) : nat := length (List.filter isFetch tr).
Definition sleeps (tr : list Event) : nat := length (List.filter isSleep tr).
Fixpoint sleptMs (tr : list Event) : nat :=
  match tr with
  | [] => 0
  | EvSleep ms :: tr' => ms + sleptMs tr'
  | _ :: tr' => sleptMs tr'
  end.

(** ** String helpers *)

Definition charCode (c : ascii) : nat := nat_of_ascii c.

Definition isDigit (c : ascii) : bool :=
  (48 <=? charCode c)%nat && (charCode c <=? 57)%nat.

Definition lowerChar (c : ascii) : ascii :=
  if (65 <=? charCode c)%nat && (charCode c <=? 90)%nat
  then ascii_of_nat (charCode c + 32) else c.

Definition upperChar (c : ascii) : ascii :=
  if (97 <=? charCode c)%nat && (charCode c <=? 122)%nat
  then ascii_of_nat (charCode c - 32) else c.

Fixpoint mapChars (f : ascii -> ascii) (s : string) : string :=
  match s with
  | EmptyString => EmptyString
  | String c r => String (f c) (mapChars f r)
  end.

(** The case mappings on a string of ASCII characters. *)
Definition asciiLowerCase : string -> string := mapChars lowerChar.
Definition asciiUpperCase : string -> string := mapChars upperChar.
Definition startsWith (s p : string) : bool := String.prefix p s.

(** Every character of a string passes a test. *)
Fixpoint forallChar (p : ascii -> bool) (s : string) : bool :=
  match s with
  | EmptyString => true
  | String c r => p c && forallChar p r
  end.

Definition isAscii (s : string) : bool :=
  forallChar (fun c => (charCode c <? 128)%nat) s.

(** What the model takes from the host:
    - [engineParse]: [Date] on a string the language does not fix;
    - [engineLowerCase], [engineUpperCase]: the case mappings on a string
      that has a character outside ASCII;
    - [engineCeilDiv]: [Math.ceil(a / b)] when [a] is not a safe
      integer. *)
Record Engine := mkEngine {
  engineParse : string -> option Z;
  engineLowerCase : string -> string;
  engineUpperCase : string -> string;
  engineCeilDiv : Z -> Z -> Z
}.

(** [s.toLowerCase()] and [s.toUpperCase()]. *)
Definition toLowerCase (engine : Engine) (s : string) : string :=
  if isAscii s then asciiLowerCase s else engineLowerCase engine s.
Definition toUpperCase (engine : Engine) (s : string) : string :=
  if isAscii s then asciiUpperCase s else engineUpperCase engine s.

Fixpoint existsChar (p : ascii -> bool) (s : string) : bool :=
  match s with
  | EmptyString => false
  | String c r => p c || existsChar p r
  end.

Fixpoint anySuffix (p : string -> bool) (s : string) : bool :=
  p s || match s with
         | EmptyString => false
         | String _ r => anySuffix p r
         end.

(** *** The two regular expressions of [parse] *)

Definition isZed (c : ascii) : bool :=
  Ascii.eqb c "z" || Ascii.eqb c "Z".
Definition isSign (c : ascii) : bool :=
  Ascii.eqb c "+" || Ascii.eqb c "-".

(** A whole string of the shape [[+-]\d{2}:?\d{2}]. *)
Definition offsetShape (s : string) : bool :=
  match s with
  | String sg (String a (String b rest)) =>
      isSign sg && isDigit a && isDigit b &&
      match rest with
      | String c (String d EmptyString) => isDigit c && isDigit d
      | String colon (String c (String d EmptyString)) =>
          Ascii.eqb colon ":" && isDigit c && isDigit d
      | _ => false
      end
  | _ => false
  end.

(** [/[zZ]|[+-]\d{2}:?\d{2}$/.test(v)] *)
Definition hasZone (v : string) : bool :=
  existsChar isZed v || anySuffix offsetShape v.

Fixpoint dropDigits (s : string) : string :=
  match s with
  | EmptyString => EmptyString
  | String c r => if isDigit c then dropDigits r else s
  end.

(** [v.replace(/(\.\d{3})\d+/, "$1")]: the leftmost dot followed by at least
    four digits keeps its first three digits and loses the digits after
    them; nothing else changes. *)
Fixpoint truncateFraction (v : string) : string :=
  match v with
  | EmptyString => EmptyString
  | String c r =>
      match r with
      | String d1 (String d2 (String d3 (String d4 r'))) =>
          if Ascii.eqb c "." && isDigit d1 && isDigit d2 && isDigit d3
             && isDigit d4
          then String c (String d1 (String d2 (String d3 (dropDigits r'))))
          else String c (truncateFraction r)
      | _ => String c (truncateFraction r)
      end
  end.

(** ** Dates

    [Date] is a host object.  The date-time string format that every engine
    must accept is modelled in full for complete timestamps with an explicit
    zone, [YYYY-MM-DDTHH:mm:ss(.sss)?(Z|±HH:mm)], with each field in range.
    For any other string the language leaves the answer to the engine: that
    part is [engineParse] ([None] is an invalid date). *)

Local Open Scope Z_scope.

Definition daysFromCivil (y m d : Z) : Z :=
  let y' := if m <=? 2 then y - 1 else y in
  let era := y' / 400 in
  let yoe := y' - era * 400 in
  let mp := if m <=? 2 then m + 9 else m - 3 in
  let doy := (153 * mp + 2) / 5 + d - 1 in
  let doe := yoe * 365 + yoe / 4 - yoe / 100 + doy in
  era * 146097 + doe - 719468.

Definition isLeap (y : Z) : bool :=
  ((y mod 4 =? 0) && negb (y mod 100 =? 0)) || (y mod 400 =? 0).

Definition daysInMonth (y m : Z) : Z :=
  if m =? 2 then (if isLeap y then 29 else 28)
  else if (m =? 4) || (m =? 6) || (m =? 9) || (m =? 11) then 30
  else 31.

Definition digitVal (c : ascii) : option Z :=
  if isDigit c then Some (Z.of_nat (charCode c) - 48) else None.

(** Read exactly [n] digits off the front. *)
Fixpoint digits (n : nat) (acc : Z) (s : string) : option (Z * string) :=
  match n with
  | O => Some (acc, s)
  | S n' =>
      match s with
      | String c r =>
          match digitVal c with
          | Some v => digits n' (10 * acc + v) r
          | None => None
          end
      | EmptyString => None
      end
  end.

Definition lit (c : ascii) (s : string) : option string :=
  match s with
  | String c' r => if Ascii.eqb c c' then Some r else None
  | EmptyString => None
  end.

(** Zone designator, in minutes east of UTC. *)
Definition zoneMinutes (s : string) : option Z :=
  match s with
  | String sg r =>
      if Ascii.eqb sg "Z" then
        match r with EmptyString => Some 0 | _ => None end
      else if isSign sg then
        '(hh, r1) ← digits 2 0 r;
        r2 ← lit ":" r1;
        '(mm, r3) ← digits 2 0 r2;
        match r3 with
        | EmptyString =>
            if (hh <=? 23) && (mm <=? 59)
            then Some (if Ascii.eqb sg "-" then - (hh * 60 + mm)
                       else hh * 60 + mm)
            else None
        | _ => None
        end
      else None
  | EmptyString => None
  end.

Definition fractionAndZone (s : string) : option (Z * Z) :=
  match lit "." s with
  | Some r =>
      '(ms, r') ← digits 3 0 r;
      z ← zoneMinutes r';
      Some (ms, z)
  | None => z ← zoneMinutes s; Some (0, z)
  end.

Definition isoParse (s : string) : option Z :=
  '(y, r) ← digits 4 0 s;
  r ← lit "-" r;
  '(mo, r) ← digits 2 0 r;
  r ← lit "-" r;
  '(d, r) ← digits 2 0 r;
  r ← lit "T" r;
  '(h, r) ← digits 2 0 r;
  r ← lit ":" r;
  '(mi, r) ← digits 2 0 r;
  r ← lit ":" r;
  '(sec, r) ← digits 2 0 r;
  '(ms, zone) ← fractionAndZone r;
  if (1 <=? mo) && (mo <=? 12) && (1 <=? d) && (d <=? daysInMonth y mo)
     && (h <=? 23) && (mi <=? 59) && (sec <=? 59)
  then Some ((((daysFromCivil y mo d * 24 + h) * 60 + mi - zone) * 60 + sec)
             * 1000 + ms)
  else None.

Section Dates.
Variable engine : Engine.

(** [new Date(s).getTime()], [None] standing for [NaN]. *)
Definition dateGetTime (s : string) : option Z :=
  match isoParse s with
  | Some t => Some t
  | None => engineParse engine s
  end.

(** The [parse] helper of the sort comparator. *)
Definition parse (v : option string) : Z :=
  match v with
  | None => 0
  | Some s =>
      if negb (truthy s) then 0
      else
        let normalized :=
          if negb (hasZone s) then truncateFraction s +:+ "Z" else s in
        match dateGetTime normalized with
        | Some t => t              (* d.getTime() || 0 *)
        | None => 0
        end
  end.

(** The comparator handed to [sort]. *)
Definition comparePrintSentAt (a b : RawOrder) : Z :=
  parse (print_sent_at b) - parse (print_sent_at a).
End Dates.

(** [Array.prototype.sort(cmp)] is a stable sort; it is modelled by
    insertion of each element in front of the first later element that must
    not precede it. *)
Section Sort.
Context {A : Type}.
Variable cmp : A -> A -> Z.

Fixpoint insertSorted (x : A) (l : list A) : list A :=
  match l with
  | [] => [x]
  | y :: l' => if cmp x y <=? 0 then x :: l else y :: insertSorted x l'
  end.

Fixpoint sortBy (l : list A) : list A :=
  match l with
  | [] => []
  | x :: l' => insertSorted x (sortBy l')
  end.
End Sort.

(** ** The order store and its refresh, [fetchGenesisOrders] *)

(** A record as the [orders] state holds it.  The refresh stores records
    whose members are texts; the patch of [shipNow] can replace the
    [label_url] of a record by a member of [Object.prototype], which is no
    text: [Overwritten o member] is the record [o] with that member,
    named [member], as its [label_url]. *)
Inductive Shown :=
| Plain (o : RawOrder)
| Overwritten (o : RawOrder) (member : string).

Definition fieldsOf (s : Shown) : RawOrder :=
  match s with Plain o => o | Overwritten o _ => o end.

Record Store := mkStore {
  orders : list Shown;
  totalOrders : Z;
  loading : bool
}.

Definition setOrders (l : list Shown) (st : Store) : Store :=
  {| orders := l; totalOrders := totalOrders st; loading := loading st |}.
Definition setTotalOrders (n : Z) (st : Store) : Store :=
  {| orders := orders st; totalOrders := n; loading := loading st |}.
Definition setLoading (b : bool) (st : Store) : Store :=
  {| orders := orders st; totalOrders := totalOrders st; loading := b |}.

(** The predicate of [data.filter]; [o.printer ?? ""] and [o.printer || ""]
    agree on optional strings. *)
Definition keepOrder (engine : Engine) (printerKey : string) (o : RawOrder)
    : bool :=
  String.eqb (toLowerCase engine (orEmpty (printer o)))
    (toLowerCase engine printerKey)
  && negb (startsWith (toUpperCase engine (order_id o)) "TEST#").

(** [data.filter(...)]; reading [printer] off a null entry raises. *)
Fixpoint filterOrders (engine : Engine) (printerKey : string)
    (data : list (option RawOrder)) : Exn + list RawOrder :=
  match data with
  | [] => inr []
  | None :: _ => inl TypeError
  | Some o :: rest =>
      match filterOrders engine printerKey rest with
      | inl e => inl e
      | inr kept =>
          inr (if keepOrder engine printerKey o then o :: kept else kept)
      end
  end.

(** The object literal of [filtered.map]. *)
Definition trimOrder (o : RawOrder) : RawOrder :=
  {| order_id := order_id o;
     name := Some (orEmpty (name o));
     phone_number := Some (orEmpty (phone_number o));
     city := Some (orEmpty (city o));
     bookId := Some (orEmpty (bookId o));
     bookStyle := Some (orEmpty (bookStyle o));
     coverPdf := Some (orEmpty (coverPdf o));
     interiorPdf := Some (orEmpty (interiorPdf o));
     printer := Some (orEmpty (printer o));
     label_url := Some (orEmpty (label_url o));
     print_sent_at := Some (orEmpty (print_sent_at o));
     zip := Some (orEmpty (zip o)) |}.

(** [typeof json.total === "number" ? json.total : data.length] *)
Definition totalOf (json : Json) (data : list (option RawOrder)) : Z :=
  match json with
  | JsonObject _ (Some n) => n
  | _ => Z.of_nat (length data)
  end.

Section Refresh.
Variable engine : Engine.
Variable printerKey : string.

(** [trimmed], after [trimmed.sort(...)]. *)
Definition sortedRecords (filtered : list RawOrder) : list RawOrder :=
  sortBy (comparePrintSentAt engine) (List.map trimOrder filtered).

(** The [try] block.  The store is written either on the non-OK branch
    or at the very end, so a raised exception finds it as it was. *)
Definition refreshTry (out : FetchOutcome) (st : Store) : Exn + Store :=
  match out with
  | FetchRejects => inl NetworkError
  | FetchResolves res =>
      if negb (ok res) then inr (setTotalOrders 0 (setOrders [] st))
      else
        match body res with
        | None => inl SyntaxError
        | Some json =>
            match listingData json with
            | inl e => inl e
            | inr (ItemsArray data) =>
                match filterOrders engine printerKey data with
                | inl e => inl e
                | inr filtered =>
                    inr (setTotalOrders (totalOf json data)
                           (setOrders (List.map Plain (sortedRecords filtered))
                              st))
                end
            | inr _ => inl TypeError    (* [data.filter] is no function *)
            end
        end
  end.

(** [try { ... } catch { ... } finally { setLoading(false) }] *)
Definition refreshGuarded (out : FetchOutcome) (st : Store) : Store :=
  let st1 := setLoading true st in
  let st2 := match refreshTry out st1 with
             | inr st' => st'
             | inl _ => setTotalOrders 0 (setOrders [] st1)
             end in
  setLoading false st2.

(** The page that takes the printer and the token from the session. *)
Definition fetchGenesisOrders (token : string) (out : FetchOutcome)
    (st : Store) : Store :=
  if negb (truthy token) then setTotalOrders 0 (setOrders [] st)
  else refreshGuarded out st.
End Refresh.

(** The page that is fixed to the one printer and sends no token. *)
Module GenesisOnly.
Definition fetchGenesisOrders (engine : Engine)
    (out : FetchOutcome) (st : Store) : Store :=
  refreshGuarded engine "genesis" out st.
End GenesisOnly.

(** ** The store update of [shipNow] once polling has returned *)

Definition setLabelUrl (l : option string) (o : RawOrder) : RawOrder :=
  {| order_id := order_id o;
     name := name o;
     phone_number := phone_number o;
     city := city o;
     bookId := bookId o;
     bookStyle := bookStyle o;
     coverPdf := coverPdf o;
     interiorPdf := interiorPdf o;
     printer := printer o;
     label_url := l;
     print_sent_at := print_sent_at o;
     zip := zip o |}.

(** The names under which [Object.prototype] has a member: those of the
    language and the legacy ones every browser has.  Each member is a
    function, but for [__proto__], whose getter gives the prototype;
    every one of them is truthy on an object whose prototype is
    [Object.prototype]. *)
Definition objectPrototypeNames : list string :=
  [ "constructor"; "hasOwnProperty"; "isPrototypeOf";
    "propertyIsEnumerable"; "toLocaleString"; "toString"; "valueOf";
    "__proto__"; "__defineGetter__"; "__defineSetter__";
    "__lookupGetter__"; "__lookupSetter__" ].

(** [l.includes(x)] *)
Definition includes (l : list string) (x : string) : bool :=
  existsb (String.eqb x) l.

(** What reading [pollResult[key]] finds. *)
Inductive Slot :=
| SlotOwn (v : option string)      (* an own property: [null] or a text *)
| SlotInherited (member : string)  (* a member of [Object.prototype] *)
| SlotUndefined.

Definition readSlot (own : gmap string (option string)) (p : Proto)
    (key : string) : Slot :=
  match own !! key with
  | Some v => SlotOwn v
  | None =>
      match p with
      | ObjectPrototype =>
          if includes objectPrototypeNames key then SlotInherited key
          else SlotUndefined
      | NullPrototype => SlotUndefined
      end
  end.

(** [pollResult[o.order_id] ? { ...o, label_url: pollResult[o.order_id] ||
    o.label_url } : o], on the object with own properties [pollResult]
    and prototype [p]. *)
Definition patchOrder (pollResult : gmap string (option string)) (p : Proto)
    (s : Shown) : Shown :=
  match readSlot pollResult p (order_id (fieldsOf s)) with
  | SlotOwn found =>
      if truthyOpt found then Plain (setLabelUrl found (fieldsOf s)) else s
  | SlotInherited member => Overwritten (fieldsOf s) member
  | SlotUndefined => s
  end.

(** [setOrders((prev) => prev.map(...))] *)
Definition shipNowPatch (pollResult : gmap string (option string))
    (p : Proto) (st : Store) : Store :=
  setOrders (List.map (patchOrder pollResult p) (orders st)) st.

(** ** Vocabulary for the statements *)

Local Open Scope list_scope.

(** The lookup one poll attempt builds from the outcome of its request;
    [None] when the attempt does not get that far (the request rejects, the
    response is not OK, the body does not decode, or walking it raises). *)
Definition listingLookup (out : FetchOutcome)
    : option (gmap string (option string)) :=
  match out with
  | FetchRejects => None
  | FetchResolves res =>
      if negb (ok res) then None
      else match body res with
           | None => None
           | Some json =>
               match listingData json with
               | inl _ => None
               | inr it =>
                   match lookupOf it with
                   | inl _ => None
                   | inr m => Some m
                   end
               end
           end
  end.

(** What a failed attempt writes to the console. *)
Definition failureEvent (out : FetchOutcome) : Event :=
  match out with
  | FetchRejects => EvError NetworkError
  | FetchResolves res =>
      if negb (ok res) then EvWarn (status res)
      else match body res with
           | None => EvError SyntaxError
           | Some _ => EvError TypeError
           end
  end.

(** A rejected request, a non-OK response or a body that fails to
    decode. *)
Definition transportFailure (out : FetchOutcome) : bool :=
  match out with
  | FetchRejects => true
  | FetchResolves res =>
      negb (ok res) || match body res with None => true | Some _ => false end
  end.

(** The label the lookup reports for a target, if it is a usable one. *)
Definition reportedLabel (m : gmap string (option string)) (id : string)
    : option string :=
  if truthyOpt (mapGet m id) then mapGet m id else None.

(** The own properties of the result object after the marking loop has
    gone through [ids]; an assignment that runs the inherited setter with
    a text writes nothing. *)
Fixpoint markedResult (m : gmap string (option string)) (ids : list string)
    (p : Proto) (r : gmap string (option string))
    : gmap string (option string) :=
  match ids with
  | [] => r
  | id :: rest =>
      markedResult m rest p
        (if truthyOpt (mapGet m id) && negb (viaSetter r p id)
         then <[id := mapGet m id]> r else r)
  end.

(** The prototype of the result object once every target has been
    assigned its [null]. *)
Definition protoAfter (ids : list string) : Proto :=
  if includes ids "__proto__" then NullPrototype else ObjectPrototype.

(** No assignment to a target can reach the inherited setter any more. *)
Definition settled (ids : list string) (p : Proto) : Prop :=
  "__proto__" ∈ ids -> p = NullPrototype.

(** Reading [key] off the object finds a member of [Object.prototype]. *)
Definition readsInherited (own : gmap string (option string)) (p : Proto)
    (key : string) : bool :=
  match readSlot own p key with SlotInherited _ => true | _ => false end.

(** The identifier of a record of the store, and the record without its
    [label_url]. *)
Definition shownId (s : Shown) : string := order_id (fieldsOf s).
Definition otherFields (s : Shown) : RawOrder :=
  setLabelUrl None (fieldsOf s).

Definition allLabelled (m : gmap string (option string))
    (ids : list string) : bool :=
  forallb (fun id => truthyOpt (mapGet m id)) ids.

(** [a] occurs somewhere before [b]. *)
Definition precedes {A} (a b : A) (l : list A) : Prop :=
  exists l1 l2 l3, l = l1 ++ a :: l2 ++ b :: l3.

(** Every delay of a run is taken while poll attempts remain. *)
Definition delaysOnlyBeforeAnAttempt (maxAttempts : nat)
    (tr : list Event) : Prop :=
  forall pre ms post,
    tr = pre ++ EvSleep ms :: post -> (polls pre < maxAttempts)%nat.

(** Each delay lasts [iv] and comes right after a request that has not
    been followed by a delay yet. *)
Definition paced (iv : nat) (tr : list Event) : Prop :=
  forall pre ms post,
    tr = pre ++ EvSleep ms :: post ->
    ms = iv /\ polls pre = S (sleeps pre).

(** The comparator of a descending sort on [key], and the order it
    sorts into. *)
Definition descendingBy {A} (key : A -> Z) (a b : A) : Z := key b - key a.
Definition keyGe {A} (key : A -> Z) (a b : A) : Prop := key b <= key a.

(** The sort key of a record. *)
Definition sortKey (engine : Engine) (o : RawOrder) : Z :=
  parse engine (print_sent_at o).

Definition isDot (c : ascii) : bool := Ascii.eqb c ".".

(** [d.getTime() || 0] *)
Definition timeOrZero (t : option Z) : Z :=
  match t with Some t => t | None => 0 end.

(** A listing in which every empty label is absent instead. *)
Definition blankToAbsent (l : option string) : option string :=
  if truthyOpt l then l else None.

Definition withoutBlankLabel (o : RawOrder) : RawOrder :=
  setLabelUrl (blankToAbsent (label_url o)) o.

Definition withoutBlankLabels (out : FetchOutcome) : FetchOutcome :=
  let onData := List.map (option_map withoutBlankLabel) in
  let onItems it :=
    match it with ItemsArray d => ItemsArray (onData d) | _ => it end in
  let onJson j :=
    match j with
    | JsonNull => JsonNull
    | JsonArray d => JsonArray (onData d)
    | JsonObject it t => JsonObject (onItems it) t
    end in
  match out with
  | FetchRejects => FetchRejects
  | FetchResolves res =>
      FetchResolves {| ok := ok res; status := status res;
                       body := option_map onJson (body res) |}
  end.

(** A poll attempt that yields no usable label for any of [ids]: it fails,
    or its lookup has nothing truthy for them. *)
Definition reportsNoLabel (ids : list string) (out : FetchOutcome) : Prop :=
  forall m, listingLookup out = Some m ->
            forall id, id ∈ ids -> truthyOpt (mapGet m id) = false.

(** ** Sample data: the two-order scenario *)

Definition sampleOrder (id : string) (lbl stamp : option string) : RawOrder :=
  {| order_id := id; name := Some "Asha"; phone_number := None;
     city := Some "Pune"; bookId := None; bookStyle := None;
     coverPdf := None; interiorPdf := None; printer := Some "genesis";
     label_url := lbl; print_sent_at := stamp; zip := None |}.

Definition okListing (data : list (option RawOrder)) : FetchOutcome :=
  FetchResolves {| ok := true; status := 200;
                   body := Some (JsonObject (ItemsArray data) None) |}.

Definition serverError : FetchOutcome :=
  FetchResolves {| ok := false; status := 502; body := None |}.

Definition url1 : string := "https://cdn/labels/A100.pdf".
Definition url2 : string := "https://cdn/labels/A101.pdf".

Definition listingAt (l1 l2 : option string) : FetchOutcome :=
  okListing [Some (sampleOrder "A100" l1 None);
             Some (sampleOrder "A101" l2 None)].

(** Poll 1 finds neither label, poll 2 finds the first, poll 3 both. *)
Definition envStaggered (attempt : nat) : FetchOutcome :=
  match attempt with
  | O => listingAt None None
  | S O => listingAt (Some url1) None
  | _ => listingAt (Some url1) (Some url2)
  end.

(** The second label never shows up. *)
Definition envPartial (attempt : nat) : FetchOutcome :=
  match attempt with
  | O => listingAt None None
  | _ => listingAt (Some url1) None
  end.

Definition envReady (_ : nat) : FetchOutcome :=
  listingAt (Some url1) (Some url2).

Definition envNever (_ : nat) : FetchOutcome := listingAt None (Some "").

(** A gateway error on the second attempt. *)
Definition envFlaky (attempt : nat) : FetchOutcome :=
  match attempt with
  | S O => serverError
  | _ => envStaggered attempt
  end.

(** A host that parses no date beyond the fixed format; its other
    answers are never asked for on the sample data. *)
Definition engineNone : Engine :=
  {| engineParse := fun _ => None;
     engineLowerCase := fun s => s;
     engineUpperCase := fun s => s;
     engineCeilDiv := fun _ _ => 0 |}.

(** ** Pagination *)

Definition pageSize : Z := 18.

(** [Math.ceil(a / b)] on integers, [b] positive. *)
Definition ceilDiv (a b : Z) : Z := - ((- a) / b).

(** [Number.MAX_SAFE_INTEGER] *)
Definition maxSafeInteger : Z := 2 ^ 53 - 1.

(** [Math.ceil(totalOrders / pageSize)], for a count [totalOrders].  The
    division is one of floating-point numbers.  For a safe integer the
    rounded quotient is the exact one when that is an integer and lies
    strictly between the same two integers otherwise, so its ceiling is
    the ceiling of the exact quotient; beyond the safe integers the answer
    is the host's. *)
Definition pagesNeeded (engine : Engine) (totalOrders : Z) : Z :=
  if Z.abs totalOrders <=? maxSafeInteger
  then ceilDiv totalOrders pageSize
  else engineCeilDiv engine totalOrders pageSize.

(** [Math.max(1, Math.ceil(totalOrders / pageSize))] *)
Definition totalPages (engine : Engine) (totalOrders : Z) : Z :=
  Z.max 1 (pagesNeeded engine totalOrders).










(** ** The selection, a [Set<string>]

    A set in insertion order: a list in which no identifier occurs twice. *)

Definition setHas (s : list string) (x : string) : bool :=
  existsb (String.eqb x) s.

Definition setAdd (s : list string) (x : string) : list string :=
  if setHas s x then s else s ++ [x].

Definition setDelete (s : list string) (x : string) : list string :=
  List.filter (fun y => negb (String.eqb x y)) s.

(** [toggleSelect]: the updater handed to [setSelected]. *)
Definition toggleSelect (orderId : string) (prev : list string)
    : list string :=
  if setHas prev orderId then setDelete prev orderId
  else setAdd prev orderId.

(** The header checkbox: its [onChange] handler and its [checked] value. *)
Definition selectPage (checked : bool) (page : list RawOrder)
    (selected : list string) : list string :=
  if checked
  then fold_left (fun next o => setAdd next (order_id o)) page selected
  else fold_left (fun next o => setDelete next (order_id o)) page selected.

Definition pageChecked (page : list RawOrder) (selected : list string)
    : bool :=
  (0 <? length page)%nat
  && forallb (fun o => setHas selected (order_id o)) page.

(** ** More vocabulary *)

(** The listing of attempt [k] alone has a usable label for every
    target. *)
Definition completeAt (env : nat -> FetchOutcome) (ids : list string)
    (k : nat) : bool :=
  match listingLookup (env k) with
  | Some m => allLabelled m ids
  | None => false
  end.

(** An OK response that carries [json]. *)
Definition okJson (code : Z) (json : Json) : FetchOutcome :=
  FetchResolves {| ok := true; status := code; body := Some json |}.

(** ** The two backend actions, [shipNow] and [syncOrders] *)

(** A decoded body of the shipment endpoints that is not [null], as far as
    the pages read it.  [detail] and [message] are texts when present;
    [stringified] is what [JSON.stringify] makes of the body. *)
Record ApiObject := mkApiObject {
  detail : option string;
  message : option string;
  stringified : string;
  created : option (list (option (option string)));
      (* an array; an entry is null or an object with an optional order_id *)
  matched_docs : option Z;
  eligible_count : option Z;
  eligible_shipments : option nat;      (* its [length], when it has one *)
  succeeded_shipments : option nat      (* its length, when it is an array *)
}.

Inductive ApiJson := ApiNull | ApiObj (o : ApiObject).

Record ApiResponse := mkApiResponse {
  apiOk : bool;
  apiStatus : Z;
  apiBody : option ApiJson       (* None: res.json() rejects *)
}.

Inductive ApiOutcome :=
| ApiRejects
| ApiResolves (res : ApiResponse).

(** [{}] *)
Definition emptyObject : ApiObject :=
  {| detail := None; message := None; stringified := "{}"; created := None;
     matched_docs := None; eligible_count := None;
     eligible_shipments := None; succeeded_shipments := None |}.

(** The message of the error that reaches the [catch] clause. *)
Inductive ErrMsg :=
| MsgText (text : string)
| MsgHttp (status : Z)           (* `HTTP ${res.status}` *)
| MsgOf (e : Exn).               (* the engine's text for a raised error *)

Inductive Alert :=
| AlertSelect                    (* "Select at least one order." *)
| AlertShipDone
| AlertShipFailed (msg : ErrMsg) (* "Ship failed: " + msg *)
| AlertSyncDone (matched eligible : Z) (succeeded : nat)
| AlertSyncFailed (msg : ErrMsg).

Inductive UiEvent :=
| UiAlert (a : Alert)
| UiConfirm                                  (* window.confirm *)
| UiCreate (order_ids : list string)         (* POST create-from-orders *)
| UiPolled (targets : list string) (tr : list Event)
| UiSync.                                    (* POST sync-missing-labels *)

Record Dashboard := mkDashboard {
  store : Store;
  selected : list string;
  isShipping : bool;
  isSyncing : bool
}.

Definition setStore (s : Store) (d : Dashboard) : Dashboard :=
  {| store := s; selected := selected d; isShipping := isShipping d;
     isSyncing := isSyncing d |}.
Definition setSelected (l : list string) (d : Dashboard) : Dashboard :=
  {| store := store d; selected := l; isShipping := isShipping d;
     isSyncing := isSyncing d |}.
Definition setIsShipping (b : bool) (d : Dashboard) : Dashboard :=
  {| store := store d; selected := selected d; isShipping := b;
     isSyncing := isSyncing d |}.
Definition setIsSyncing (b : bool) (d : Dashboard) : Dashboard :=
  {| store := store d; selected := selected d; isShipping := isShipping d;
     isSyncing := b |}.

(** [createdArray.map((c) => c.order_id).filter(Boolean)]; reading
    [order_id] off a null entry raises. *)
Fixpoint createdIds (entries : list (option (option string)))
    : Exn + list string :=
  match entries with
  | [] => inr []
  | None :: _ => inl TypeError
  | Some oid :: rest =>
      match createdIds rest with
      | inl e => inl e
      | inr ids => inr (if truthyOpt oid then orEmpty oid :: ids else ids)
      end
  end.

(** [Array.isArray(j?.created) ? j.created : []] *)
Definition createdArray (j : ApiJson) : list (option (option string)) :=
  match j with
  | ApiObj o => match created o with Some a => a | None => [] end
  | ApiNull => []
  end.

(** [createdIds.length ? createdIds : Array.from(selected)] *)
Definition targetIds (ids selection : list string) : list string :=
  match ids with [] => selection | _ :: _ => ids end.

(** The message [shipNow] throws on a non-OK answer: the status line,
    replaced by [j.detail || JSON.stringify(j)] when the body decodes and
    is not null. *)
Definition shipError (res : ApiResponse) : ErrMsg :=
  match apiBody res with
  | Some (ApiObj o) =>
      if truthyOpt (detail o) then MsgText (orEmpty (detail o))
      else MsgText (stringified o)
  | _ => MsgHttp (apiStatus res)
  end.

(** [(j && (j.detail || j.message)) || `HTTP ${res.status}`] *)
Definition syncError (status : Z) (j : ApiJson) : ErrMsg :=
  match j with
  | ApiObj o =>
      if truthyOpt (detail o) then MsgText (orEmpty (detail o))
      else if truthyOpt (message o) then MsgText (orEmpty (message o))
      else MsgHttp status
  | ApiNull => MsgHttp status
  end.

Section Actions.
Variable refresh : FetchOutcome -> Store -> Store.   (* fetchGenesisOrders *)
Variable pollIntervalMs maxAttempts : nat.           (* as passed by shipNow *)

(** The [try] block of [shipNow].  Nothing is written to the state before
    the last thing that can raise. *)
Definition shipTry (create : ApiOutcome) (pollEnv : nat -> FetchOutcome)
    (refreshOut : FetchOutcome) (d : Dashboard)
    : ErrMsg + Dashboard * list UiEvent :=
  match create with
  | ApiRejects => inl (MsgOf NetworkError)
  | ApiResolves res =>
      if negb (apiOk res) then inl (shipError res)
      else
        match apiBody res with
        | None => inl (MsgOf SyntaxError)
        | Some j =>
            match createdIds (createdArray j) with
            | inl e => inl (MsgOf e)
            | inr ids =>
                let targets := targetIds ids (selected d) in
                let run :=
                  pollForLabels pollEnv targets pollIntervalMs maxAttempts in
                match run.1 with
                | inl e => inl (MsgOf e)
                | inr _ =>
                    let d1 :=
                      setStore
                        (shipNowPatch (result run.2) (proto run.2) (store d))
                        d in
                    let d2 := setSelected [] d1 in
                    let d3 := setStore (refresh refreshOut (store d2)) d2 in
                    inr (d3, [UiPolled targets (log run.2);
                              UiAlert AlertShipDone])
                end
            end
        end
  end.

Definition shipNowWith (create : ApiOutcome) (pollEnv : nat -> FetchOutcome)
    (refreshOut : FetchOutcome) (d : Dashboard) : Dashboard * list UiEvent :=
  match selected d with
  | [] => (d, [UiAlert AlertSelect])
  | _ :: _ =>
      if isShipping d || isSyncing d then (d, [])
      else
        let d1 := setIsShipping true d in
        let '(d2, evs) :=
          match shipTry create pollEnv refreshOut d1 with
          | inr (d', evs) => (d', evs)
          | inl msg => (d1, [UiAlert (AlertShipFailed msg)])
          end in
        (setIsShipping false d2, UiCreate (selected d) :: evs)
  end.

(** [j.eligible_count ?? (j.eligible_shipments?.length ?? 0)] *)
Definition eligibleOf (o : ApiObject) : Z :=
  match eligible_count o with
  | Some n => n
  | None => match eligible_shipments o with
            | Some len => Z.of_nat len
            | None => 0
            end
  end.

Definition syncOrdersWith (confirmed : bool) (out : ApiOutcome)
    (refreshOut : FetchOutcome) (d : Dashboard) : Dashboard * list UiEvent :=
  if isShipping d || isSyncing d then (d, [])
  else if negb confirmed then (d, [UiConfirm])
  else
    let d1 := setIsSyncing true d in
    let '(d2, evs) :=
      match out with
      | ApiRejects => (d1, [UiAlert (AlertSyncFailed (MsgOf NetworkError))])
      | ApiResolves res =>
          let j := match apiBody res with
                   | Some j => j
                   | None => ApiObj emptyObject
                   end in
          if negb (apiOk res)
          then (d1, [UiAlert (AlertSyncFailed (syncError (apiStatus res) j))])
          else
            match j with
            | ApiNull => (d1, [UiAlert (AlertSyncFailed (MsgOf TypeError))])
            | ApiObj o =>
                let matched :=
                  match matched_docs o with Some n => n | None => 0 end in
                let succeeded :=
                  match succeeded_shipments o with
                  | Some len => len
                  | None => O
                  end in
                (setStore (refresh refreshOut (store d1)) d1,
                 [UiAlert (AlertSyncDone matched (eligibleOf o) succeeded)])
            end
      end in
    (setIsSyncing false d2, UiConfirm :: UiSync :: evs).
End Actions.

(** The page with a login: three seconds between polls, two attempts. *)
Definition shipNow (engine : Engine) (printerKey token : string) :=
  shipNowWith (fetchGenesisOrders engine printerKey token) 3000 2.
Definition syncOrders (engine : Engine) (printerKey token : string) :=
  syncOrdersWith (fetchGenesisOrders engine printerKey token).

(** The page fixed to one printer: two seconds, twenty attempts. *)
Module GenesisOnlyActions.
Definition shipNow (engine : Engine) :=
  shipNowWith (GenesisOnly.fetchGenesisOrders engine) 2000 20.
Definition syncOrders (engine : Engine) :=
  syncOrdersWith (GenesisOnly.fetchGenesisOrders engine).
End GenesisOnlyActions.

(** ** [formatPrintSentAt], the page with a login

    The display of a timestamp is cut out of the text itself; no [Date]
    is involved. *)

(** [value.replace(/\.\d+/, "")]: the leftmost dot that has a digit behind
    it goes, with all the digits that follow it. *)
Fixpoint dropFraction (v : string) : string :=
  match v with
  | EmptyString => EmptyString
  | String c r =>
      match r with
      | String d _ =>
          if Ascii.eqb c "." && isDigit d then dropDigits r
          else String c (dropFraction r)
      | EmptyString => String c (dropFraction r)
      end
  end.

(** [s.split(sep)] for a one-character separator. *)
Fixpoint splitOn (sep : ascii) (s : string) : list string :=
  match s with
  | EmptyString => [EmptyString]
  | String c r =>
      if Ascii.eqb c sep then EmptyString :: splitOn sep r
      else match splitOn sep r with
           | h :: t => String c h :: t
           | [] => [String c EmptyString]
           end
  end.

(** A number, as far as this function looks at it: not-a-number, an
    integer (of magnitude below 10^21, minus zero taken for zero), or any
    other value, given by the text [toString] prints for it. *)
Inductive Num := NaN | NInt (z : Z) | NText (text : string).

Fixpoint digitsValue (acc : Z) (s : string) : Z :=
  match s with
  | EmptyString => acc
  | String c r => digitsValue (10 * acc + (Z.of_nat (charCode c) - 48)) r
  end.

Definition digitChar (d : Z) : ascii := ascii_of_nat (48 + Z.to_nat d).

Fixpoint decimalGo (fuel : nat) (n : Z) (acc : string) : string :=
  match fuel with
  | O => acc
  | S fuel' =>
      let acc' := String (digitChar (n mod 10)) acc in
      if n <? 10 then acc' else decimalGo fuel' (n / 10) acc'
  end.

(** The decimal digits of a natural number. *)
Definition decimal (n : Z) : string :=
  decimalGo (S (Z.to_nat (Z.log2 n))) n EmptyString.

(** [x.toString()] *)
Definition numToString (x : Num) : string :=
  match x with
  | NaN => "NaN"
  | NInt z => if z <? 0 then String "-" (decimal (- z)) else decimal z
  | NText text => text
  end.

(** [!x], for [x] a number or [undefined]. *)
Definition numFalsy (x : option Num) : bool :=
  match x with
  | None => true
  | Some NaN => true
  | Some (NInt z) => z =? 0
  | Some (NText _) => false
  end.

(** [s.padStart(2, "0")] *)
Definition padStart2 (s : string) : string :=
  match s with
  | EmptyString => "00"
  | String c EmptyString => String "0" s
  | _ => s
  end.

Definition months : list string :=
  ["JAN"; "FEB"; "MAR"; "APR"; "MAY"; "JUN";
   "JUL"; "AUG"; "SEP"; "OCT"; "NOV"; "DEC"].

(** [months[month - 1]] inside a template: a missing entry prints as
    [undefined]. *)
Definition monthName (month : Num) : string :=
  match month with
  | NInt m =>
      if (1 <=? m) && (m <=? 12)
      then nth (Z.to_nat (m - 1)) months "undefined"
      else "undefined"
  | _ => "undefined"
  end.

Section Format.
(** [Number(s)] is computed here for the empty string and for up to
    fifteen digits; for every other text it is the engine's. *)
Variable engineNumber : string -> Num.

Definition Number (s : string) : Num :=
  match s with
  | EmptyString => NInt 0
  | _ =>
      if forallChar isDigit s && (String.length s <=? 15)%nat
      then NInt (digitsValue 0 s)
      else engineNumber s
  end.

Definition formatPrintSentAt (value : option string) : string :=
  match value with
  | None => "-"
  | Some v =>
      if negb (truthy v) then "-"
      else
        let cleaned := dropFraction v in
        let parts := splitOn "T" cleaned in
        match parts !! 0%nat, parts !! 1%nat with
        | Some datePart, Some timePart =>
            if negb (truthy datePart) || negb (truthy timePart) then v
            else
              let ymd := List.map Number (splitOn "-" datePart) in
              let hm := List.map Number (splitOn ":" timePart) in
              if numFalsy (ymd !! 0%nat) || numFalsy (ymd !! 1%nat)
                 || numFalsy (ymd !! 2%nat)
              then v
              else
                match ymd !! 1%nat, ymd !! 2%nat,
                      hm !! 0%nat, hm !! 1%nat with
                | Some month, Some day, Some hour, Some minute =>
                    padStart2 (numToString day) +:+ " "
                    +:+ monthName month +:+ " "
                    +:+ padStart2 (numToString hour) +:+ ":"
                    +:+ padStart2 (numToString minute)
                | _, _, _, _ => v
                end
        | _, _ => v
        end
  end.
End Format.

(** Two and four characters as a string. *)
Definition str2 (a b : ascii) : string := String a (String b EmptyString).
Definition str4 (a b c d : ascii) : string :=
  String a (String b (String c (String d EmptyString))).
Definition engineNaN (_ : string) : Num := NaN.

(** The text [YYYY-MM-DDTHH:mm] followed by [tail]. *)
Definition stampText (y1 y2 y3 y4 m1 m2 d1 d2 h1 h2 n1 n2 : ascii)
    (tail : string) : string :=
  str4 y1 y2 y3 y4 +:+ "-" +:+ str2 m1 m2 +:+ "-" +:+ str2 d1 d2
  +:+ "T" +:+ str2 h1 h2 +:+ ":" +:+ str2 n1 n2 +:+ tail.

(** ** Sign-in, the shared link and sign-out (page with a sign-in) *)

(** An entry of [USERS]; [userPrinter] and [userToken] are its fields
    [printer] and [token]. *)
Record UserConfig := mkUserConfig {
  username : string;
  password : string;
  userPrinter : string;
  userToken : string
}.

Definition USERS : list UserConfig :=
  [ mkUserConfig "genesis" "G3n3s!sP@ss" "genesis"
      "Q7F9sX2M8VwRkA3ZP4mJtE6D5HcLNYUeGqKBa";
    mkUserConfig "yara" "Y@r@P#ss123" "yara"
      "Zk4T8H9J2c5sA3VwP6MELXRYFQNDmUGB7qKe";
    mkUserConfig "admin" "@dm!nAcc3ss" "admin"
      "9M8qKZJ2F6XcR4A5wDHBtELPsNYGVUm" ].

Inductive Role := Admin | Printer.

(** [URLSearchParams]: the query of the address as its list of name-value
    pairs, with [get], [set] and [delete]. *)
Definition Params := list (string * string).

Fixpoint paramsGet (k : string) (ps : Params) : option string :=
  match ps with
  | [] => None
  | (k', v) :: rest => if String.eqb k' k then Some v else paramsGet k rest
  end.

Definition paramsDelete (k : string) (ps : Params) : Params :=
  List.filter (fun p => negb (String.eqb (fst p) k)) ps.

(** [set] overwrites the first pair of that name and removes the others,
    or appends a pair when there is none. *)
Fixpoint paramsSet (k v : string) (ps : Params) : Params :=
  match ps with
  | [] => [(k, v)]
  | (k', v') :: rest =>
      if String.eqb k' k then (k, v) :: paramsDelete k rest
      else (k', v') :: paramsSet k v rest
  end.

(** The state of the page: the dashboard, the session, the sign-in form,
    and the query of the address bar. *)
Record Page := mkPage {
  dashboard : Dashboard;
  printerKey : string;
  token : string;
  role : option Role;
  initialized : bool;
  loginUsername : string;
  loginPassword : string;
  loginError : string;
  isLoggingIn : bool;
  currentPage : Z;
  query : Params
}.

Definition setDashboard (d : Dashboard) (pg : Page) : Page :=
  mkPage d (printerKey pg) (token pg) (role pg) (initialized pg)
    (loginUsername pg) (loginPassword pg) (loginError pg) (isLoggingIn pg)
    (currentPage pg) (query pg).
Definition setPrinterKey (p : string) (pg : Page) : Page :=
  mkPage (dashboard pg) p (token pg) (role pg) (initialized pg)
    (loginUsername pg) (loginPassword pg) (loginError pg) (isLoggingIn pg)
    (currentPage pg) (query pg).
Definition setToken (t : string) (pg : Page) : Page :=
  mkPage (dashboard pg) (printerKey pg) t (role pg) (initialized pg)
    (loginUsername pg) (loginPassword pg) (loginError pg) (isLoggingIn pg)
    (currentPage pg) (query pg).
Definition setRole (r : option Role) (pg : Page) : Page :=
  mkPage (dashboard pg) (printerKey pg) (token pg) r (initialized pg)
    (loginUsername pg) (loginPassword pg) (loginError pg) (isLoggingIn pg)
    (currentPage pg) (query pg).
Definition setInitialized (b : bool) (pg : Page) : Page :=
  mkPage (dashboard pg) (printerKey pg) (token pg) (role pg) b
    (loginUsername pg) (loginPassword pg) (loginError pg) (isLoggingIn pg)
    (currentPage pg) (query pg).
Definition setLoginError (e : string) (pg : Page) : Page :=
  mkPage (dashboard pg) (printerKey pg) (token pg) (role pg) (initialized pg)
    (loginUsername pg) (loginPassword pg) e (isLoggingIn pg)
    (currentPage pg) (query pg).
Definition setIsLoggingIn (b : bool) (pg : Page) : Page :=
  mkPage (dashboard pg) (printerKey pg) (token pg) (role pg) (initialized pg)
    (loginUsername pg) (loginPassword pg) (loginError pg) b
    (currentPage pg) (query pg).
Definition setCurrentPage (n : Z) (pg : Page) : Page :=
  mkPage (dashboard pg) (printerKey pg) (token pg) (role pg) (initialized pg)
    (loginUsername pg) (loginPassword pg) (loginError pg) (isLoggingIn pg)
    n (query pg).
(** [window.history.replaceState] with the same path and a new query. *)
Definition replaceQuery (q : Params) (pg : Page) : Page :=
  mkPage (dashboard pg) (printerKey pg) (token pg) (role pg) (initialized pg)
    (loginUsername pg) (loginPassword pg) (loginError pg) (isLoggingIn pg)
    (currentPage pg) q.

(** [params.get(k) || fallback]. *)
Definition getOr (k fallback : string) (ps : Params) : string :=
  match paramsGet k ps with
  | Some v => if truthy v then v else fallback
  | None => fallback
  end.

(** The effect of the first load.  [urlFails] tells that reading the
    address raises, which happens before any state is set. *)
Definition initFromUrl (engine : Engine) (urlFails : bool) (pg : Page)
    : Page :=
  let pg' :=
    if urlFails then setToken "" (setRole None pg)
    else
      let p := toLowerCase engine (getOr "printer" "genesis" (query pg)) in
      let t := getOr "token" "" (query pg) in
      let pg1 :=
        if String.eqb p "yara" then setPrinterKey "yara" pg
        else setPrinterKey "genesis" pg in
      let pg2 :=
        if String.eqb t "ADMIN999" then setRole (Some Admin) pg1
        else if truthy t then setRole (Some Printer) pg1
        else setRole None pg1 in
      setToken t pg2 in
  setInitialized true pg'.

(** The predicate of [USERS.find] in [handleLogin]. *)
Definition credentialsOf (pg : Page) (u : UserConfig) : bool :=
  String.eqb (username u) (loginUsername pg)
  && String.eqb (password u) (loginPassword pg).

Definition defaultPrinterOf (user : UserConfig) : string :=
  if String.eqb (userPrinter user) "admin" then "genesis"
  else userPrinter user.

Definition handleLogin (urlFails : bool) (pg : Page) : Page :=
  if isLoggingIn pg then pg
  else
    let pg1 := setLoginError "" (setIsLoggingIn true pg) in
    match List.find (credentialsOf pg) USERS with
    | None =>
        setIsLoggingIn false
          (setLoginError "Invalid username or password." pg1)
    | Some user =>
        let defaultPrinter := defaultPrinterOf user in
        let pg2 :=
          setCurrentPage 1
            (setRole
               (if String.eqb (userPrinter user) "admin" then Some Admin
                else Some Printer)
               (setPrinterKey defaultPrinter
                  (setToken (userToken user) pg1))) in
        let pg3 :=
          if urlFails then pg2
          else
            replaceQuery
              (paramsSet "token" (userToken user)
                 (paramsSet "printer" defaultPrinter (query pg2)))
              pg2 in
        setIsLoggingIn false pg3
    end.

Definition handleLogout (urlFails : bool) (pg : Page) : Page :=
  let d := dashboard pg in
  let pg1 :=
    setDashboard
      (setStore (setTotalOrders 0 (setOrders [] (store d)))
         (setSelected [] d))
      (setRole None (setToken "" pg)) in
  if urlFails then pg1
  else replaceQuery (paramsDelete "token" (query pg1)) pg1.

(** ** The scan page: [generateLabel] *)

Inductive ScanStatus :=
| StatusBlank                         (* the initial empty text *)
| StatusProcessing (id : string)
| StatusGenerated (id : string)
| StatusUnable (id : string)
| StatusWentWrong.

Record Scan := mkScan {
  orderId : string;
  processedOrderId : option string;
  scanStatus : ScanStatus;           (* [status] *)
  labelUrl : option string;
  scanLoading : bool                  (* [loading] *)
}.

(** What [res.json()] gives: [null], or a value whose [label_url] is read
    (absent on a value without that member). *)
Inductive ScanData := ScanNull | ScanValue (label : option string).

(** The request either raises (the transport, or a body that is no JSON)
    or gives the decoded body; the status code is not looked at. *)
Inductive ScanOutcome := ScanThrows (e : Exn) | ScanJson (d : ScanData).

(** The state while the request is under way. *)
Definition pendingScan (id : string) (s : Scan) : Scan :=
  {| orderId := orderId s; processedOrderId := None;
     scanStatus := StatusProcessing id; labelUrl := None;
     scanLoading := true |}.

Definition setScanStatus (st : ScanStatus) (s : Scan) : Scan :=
  {| orderId := orderId s; processedOrderId := processedOrderId s;
     scanStatus := st; labelUrl := labelUrl s;
     scanLoading := scanLoading s |}.

Definition labelGenerated (id url : string) (s : Scan) : Scan :=
  {| orderId := orderId s; processedOrderId := Some id;
     scanStatus := StatusGenerated id; labelUrl := Some url;
     scanLoading := scanLoading s |}.

(** The [finally] block. *)
Definition settleScan (s : Scan) : Scan :=
  {| orderId := EmptyString; processedOrderId := processedOrderId s;
     scanStatus := scanStatus s; labelUrl := labelUrl s;
     scanLoading := false |}.

Section Scanning.
Variable scan : string -> ScanOutcome.   (* POST scan-order for an id *)
Variable trim : string -> string.        (* String.prototype.trim *)

(** The new state and the addresses opened in a new tab. *)
Definition generateLabel (id : string) (s : Scan) : Scan * list string :=
  if negb (truthy id) then (s, [])
  else
    let s1 := pendingScan id s in
    let unable := (setScanStatus (StatusUnable id) s1, []) in
    let wrong := (setScanStatus StatusWentWrong s1, []) in
    let '(s2, opened) :=
      match scan id with
      | ScanJson (ScanValue (Some url)) =>
          if truthy url then (labelGenerated id url s1, [url]) else unable
      | ScanJson (ScanValue None) => unable
      | ScanJson ScanNull => wrong
      | ScanThrows _ => wrong
      end in
    (settleScan s2, opened).

Definition handleKeyDown (key : string) (s : Scan) : Scan * list string :=
  if String.eqb key "Enter" then generateLabel (trim (orderId s)) s
  else (s, []).

Definition handleGenerateClick (s : Scan) : Scan * list string :=
  generateLabel (trim (orderId s)) s.

End Scanning.

Definition handleDownload (s : Scan) : list string :=
  match labelUrl s with
  | Some url => if truthy url then [url] else []
  | None => []
  end.

(** ** The route guard *)

Record EmailAddress := mkEmailAddress {
  emailId : string;                   (* [id] *)
  emailAddress : string
}.

Record User := mkUser {
  primaryEmailAddressId : option string;
  emailAddresses : list EmailAddress
}.

Definition allowedEmails : list string :=
  [ "husain@lhmm.in"; "hello@lhmm.in"; "haripriya@lhmm.in"; "kush@lhmm.in";
    "arnav@lhmm.in"; "fazil@lhmm.in"; "chris@lhmm.in" ].

Inductive NextResponse := Next | Redirect (path : string).

Inductive GuardLog :=
| LogHit (path : string)
| LogNotAuthenticated
| LogSecretMissing
| LogEmail (email : option string)
| LogUnauthorizedEmail
| LogFetchError.

(** [user.emailAddresses.find(e => e.id === user.primaryEmailAddressId)
    ?.emailAddress]. *)
Definition primaryEmail (user : User) : option string :=
  option_map emailAddress
    (List.find
       (fun e =>
          match primaryEmailAddressId user with
          | Some p => String.eqb (emailId e) p
          | None => false
          end)
       (emailAddresses user)).

Section Guard.
Variable Request : Type.
Variable pathname : Request -> string.     (* req.nextUrl.pathname *)
Variable isPublicRoute : Request -> bool.  (* createRouteMatcher([...]) *)
Variable auth : Request -> option string.  (* the userId of auth() *)
Variable secretKey : option string.        (* process.env.CLERK_SECRET_KEY *)
Variable getUser : string -> Exn + User.   (* clerkClient.users.getUser *)

Definition middleware (req : Request) : list GuardLog * NextResponse :=
  let hit := LogHit (pathname req) in
  if isPublicRoute req then ([hit], Next)
  else
    match auth req with
    | None => ([hit; LogNotAuthenticated], Redirect "/")
    | Some userId =>
        if negb (truthy userId)
        then ([hit; LogNotAuthenticated], Redirect "/")
        else if negb (truthyOpt secretKey)
        then ([hit; LogSecretMissing], Redirect "/unauthorized")
        else
          match getUser userId with
          | inl _ => ([hit; LogFetchError], Redirect "/unauthorized")
          | inr user =>
              let email := primaryEmail user in
              if negb (truthyOpt email)
                 || negb (includes allowedEmails (orEmpty email))
              then ([hit; LogEmail email; LogUnauthorizedEmail],
                    Redirect "/unauthorized")
              else ([hit; LogEmail email], Next)
          end
    end.

End Guard.

(** ** The print progress panel *)

Record PrintResult := mkPrintResult {
  resultOrderId : string;             (* [order_id] *)
  resultStatus : string;              (* [status] *)
  resultMessage : string;             (* [message] *)
  step : option string;
  cloudprinter_reference : option string
}.

Definition countStatus (s : string) (results : list PrintResult) : nat :=
  length (List.filter (fun r => String.eqb (resultStatus r) s) results).

Definition processingCount := countStatus "processing".
Definition completedCount := countStatus "success".
Definition failedCount := countStatus "error".

(** The counts shown in the header of the panel, each only when positive;
    nothing is rendered when the panel is not visible. *)
Definition headerCounts (isVisible : bool) (results : list PrintResult)
    : option (list (nat * string)) :=
  if isVisible
  then Some (List.filter (fun p => negb (Nat.eqb (fst p) 0))
               [ (processingCount results, "processing");
                 (completedCount results, "completed");
                 (failedCount results, "failed") ])
  else None.

(** Fixtures: a scan that is answered with a label, the scan page with an
    older label on it, and the page with the admin credentials typed in
    over an address that already carries parameters. *)
Definition scanLabelled : string -> ScanOutcome :=
  fun _ => ScanJson (ScanValue (Some "https://labels.example/7.pdf")).

Definition scanBefore : Scan :=
  mkScan "7" None StatusBlank (Some "https://labels.example/old.pdf") false.

Definition adminAttempt : Page :=
  mkPage (mkDashboard (mkStore [] 0 false) [] false false)
    "genesis" "" None true "admin" "@dm!nAcc3ss" "" false 4
    [("printer", "yara"); ("token", "old"); ("token", "older")].

Definition adminEntry : UserConfig :=
  mkUserConfig "admin" "@dm!nAcc3ss" "admin"
    "9M8qKZJ2F6XcR4A5wDHBtELPsNYGVUm".

Definition publicPath (p : string) : bool :=
  String.eqb p "/" || String.eqb p "/unauthorized".

Definition secondaryAllowed : User :=
  mkUser (Some "idn_2")
    [ mkEmailAddress "idn_1" "hello@lhmm.in";
      mkEmailAddress "idn_2" "guest@example.com" ].

(** * Properties *)

(** ** The polling monad *)

Lemma viaSetter_settled ids p r id :
  settled ids p -> id ∈ ids -> viaSetter r p id = false.
Proof.
  intros Hs Hid. unfold viaSetter.
  destruct (String.eqb id "__proto__") eqn:He; [|done].
  apply String.eqb_eq in He. subst id. by rewrite (Hs Hid).
Qed.

Lemma viaSetter_other r p id : id <> "__proto__" -> viaSetter r p id = false.
Proof.
  intros Hne. unfold viaSetter.
  by apply String.eqb_neq in Hne as ->.
Qed.

Lemma viaSetter_spec r p id :
  viaSetter r p id = true <->
  id = "__proto__" /\ p = ObjectPrototype /\ r !! id = None.
Proof.
  unfold viaSetter. rewrite !andb_true_iff, String.eqb_eq.
  destruct p, (r !! id); naive_solver.
Qed.

Lemma includes_spec (l : list string) (x : string) :
  includes l x = true <-> x ∈ l.
Proof.
  unfold includes. rewrite existsb_exists. split.
  - intros (y & Hy & Heq). apply String.eqb_eq in Heq. subst y.
    by apply list_elem_of_In.
  - intros Hx. exists x. split; [by apply list_elem_of_In|].
    apply String.eqb_refl.
Qed.

Lemma settled_protoAfter ids : settled ids (protoAfter ids).
Proof.
  intros Hin. unfold protoAfter.
  by apply includes_spec in Hin as ->.
Qed.

(** The first loop, from any state in which an own [__proto__] implies a
    detached prototype: every target other than [__proto__] ends up as an
    own [null]; [__proto__] detaches the prototype the first time and is
    written as an own property only from the second time on. *)
Lemma initResult_run ids st :
  (proto st = ObjectPrototype -> result st !! "__proto__" = None) ->
  exists m p,
    initResult ids st = (inr tt, {| result := m; proto := p; log := log st |})
    /\ dom m ⊆ list_to_set ids ∪ dom (result st)
    /\ dom (result st) ⊆ dom m
    /\ (forall id, id ∈ ids -> id <> "__proto__" -> m !! id = Some None)
    /\ (forall id, id ∉ ids -> m !! id = result st !! id)
    /\ (forall id v, m !! id = Some v ->
                     v = None \/ result st !! id = Some v)
    /\ ("__proto__" ∈ ids -> p = NullPrototype)
    /\ ("__proto__" ∉ ids -> p = proto st)
    /\ (p = ObjectPrototype -> m !! "__proto__" = None).
Proof.
  revert st. induction ids as [|i ids IH]; intros st Hinv; simpl.
  - exists (result st), (proto st). destruct st; simpl in *.
    split; [done|]. split; [set_solver|]. split; [done|].
    split; [by intros id H; inversion H|]. split; [done|].
    split; [by auto|]. split; [by intros H; inversion H|]. done.
  - unfold bind, setResult; simpl.
    destruct (viaSetter (result st) (proto st) i) eqn:Hv.
    + apply viaSetter_spec in Hv as (-> & Hp & Hown).
      destruct (IH {| result := result st; proto := NullPrototype;
                      log := log st |})
        as (m & p & Hrun & Hsub & Hmono & Hin & Hout & Hval & Hp1 & Hp2
            & Hnone);
        simpl in *; [done|].
      assert (p = NullPrototype) as Hnull.
      { destruct (decide ("__proto__" ∈ ids)); auto. }
      exists m, p. rewrite Hrun. split; [done|].
      split; [set_solver|]. split; [done|]. split.
      { intros id Hid Hne. apply Hin; [|done].
        apply elem_of_cons in Hid as [?|?]; [congruence|done]. }
      split.
      { intros id Hid. apply Hout. by apply not_elem_of_cons in Hid as [_ ?]. }
      split; [done|]. split; [done|]. split.
      { intros Hnot. exfalso. apply Hnot. by left. }
      intros Hp'. congruence.
    + destruct (IH {| result := <[i:=None]> (result st); proto := proto st;
                      log := log st |})
        as (m & p & Hrun & Hsub & Hmono & Hin & Hout & Hval & Hp1 & Hp2
            & Hnone);
        simpl in *.
      { intros Hp. destruct (decide (i = "__proto__")) as [->|Hne].
        - assert (viaSetter (result st) (proto st) "__proto__" = true)
            as Hv'; [|by rewrite Hv' in Hv].
          apply viaSetter_spec. auto.
        - rewrite lookup_insert_ne by done. auto. }
      exists m, p. rewrite Hrun. split; [done|]. split.
      { rewrite dom_insert_L in Hsub. set_solver. }
      split.
      { rewrite dom_insert_L in Hmono. set_solver. }
      split.
      { intros id Hid Hne. destruct (decide (id ∈ ids)) as [Hi|Hi]; [auto|].
        rewrite Hout by done.
        apply elem_of_cons in Hid as [->|Hid]; [|done].
        apply lookup_insert_eq. }
      split.
      { intros id Hid. apply not_elem_of_cons in Hid as [Hne Hid].
        rewrite Hout by done. by rewrite lookup_insert_ne. }
      split.
      { intros id v Hm. destruct (Hval id v Hm) as [?|Hins]; [by left|].
        destruct (decide (id = i)) as [->|Hne].
        - rewrite lookup_insert_eq in Hins. left. congruence.
        - rewrite lookup_insert_ne in Hins by done. by right. }
      split; [|split; [|done]].
      * intros Hmem. destruct (decide ("__proto__" ∈ ids)) as [Hi|Hi];
          [auto|].
        apply elem_of_cons in Hmem as [<-|?]; [|done].
        rewrite (Hp2 Hi). destruct (proto st) eqn:Hp; [|done].
        assert (viaSetter (result st) (proto st) "__proto__" = true) as Hv2
          by (apply viaSetter_spec; auto).
        congruence.
      * intros Hnot. apply not_elem_of_cons in Hnot as [_ Hnot]. auto.
Qed.

Lemma markFound_run m ids b st :
  markFound m ids b st =
    (inr (b && allLabelled m ids),
     {| result := markedResult m ids (proto st) (result st);
        proto := proto st; log := log st |}).
Proof.
  revert b st. induction ids as [|i ids IH]; intros b st; simpl.
  - rewrite andb_true_r. by destruct st.
  - destruct (truthyOpt (mapGet m i)) eqn:Hi; simpl.
    + unfold bind, setResult; simpl.
      destruct (viaSetter (result st) (proto st) i); simpl.
      * rewrite IH. simpl. by destruct (mapGet m i).
      * by rewrite IH.
    + rewrite IH. simpl. by rewrite andb_false_r.
Qed.

(** Where an entry of the marked object comes from. *)
Lemma markedResult_origin m ids p r id v :
  markedResult m ids p r !! id = Some v ->
  r !! id = Some v
  \/ (id ∈ ids /\ truthyOpt (mapGet m id) = true /\ v = mapGet m id).
Proof.
  revert r. induction ids as [|i ids IH]; intros r; simpl; [by left|].
  intros Hm. destruct (IH _ Hm) as [Hr|(Hin & Ht & Hv)].
  - destruct (truthyOpt (mapGet m i) && negb (viaSetter r p i)) eqn:Hc;
      [|by left].
    apply andb_true_iff in Hc as [Ht _].
    destruct (decide (id = i)) as [->|Hne].
    + rewrite lookup_insert_eq in Hr. right.
      split; [by left|]. split; [done|]. congruence.
    + rewrite lookup_insert_ne in Hr by done. by left.
  - right. split; [by right|done].
Qed.

(** Marking never takes a label away and never removes a key. *)
Lemma markedResult_keeps m ids p r id l :
  r !! id = Some (Some l) ->
  exists l', markedResult m ids p r !! id = Some (Some l').
Proof.
  revert r l. induction ids as [|i ids IH]; intros r l Hr; simpl; [eauto|].
  destruct (truthyOpt (mapGet m i) && negb (viaSetter r p i)) eqn:Hc;
    [|eauto].
  apply andb_true_iff in Hc as [Ht _].
  destruct (decide (id = i)) as [->|Hne].
  - destruct (mapGet m i) as [l'|] eqn:Hg; [|done].
    apply (IH _ l'). apply lookup_insert_eq.
  - apply (IH _ l). by rewrite lookup_insert_ne.
Qed.

Lemma markedResult_dom_mono m ids p r :
  dom r ⊆ dom (markedResult m ids p r).
Proof.
  revert r. induction ids as [|i ids IH]; intros r; simpl; [done|].
  etrans; [|apply IH].
  destruct (truthyOpt (mapGet m i) && negb (viaSetter r p i)); [|done].
  rewrite dom_insert_L. set_solver.
Qed.

Lemma markedResult_dom_sub m ids p r :
  dom (markedResult m ids p r) ⊆ dom r ∪ list_to_set ids.
Proof.
  intros id Hid. apply elem_of_dom in Hid as [v Hv].
  destruct (markedResult_origin _ _ _ _ _ _ Hv) as [Hr|(Hin & _)].
  - apply elem_of_union_l, elem_of_dom. eauto.
  - apply elem_of_union_r. by apply elem_of_list_to_set.
Qed.

(** Once the setter is out of reach, marking is a plain update. *)
Lemma markedResult_lookup m ids p r id :
  settled ids p ->
  markedResult m ids p r !! id =
    if decide (id ∈ ids /\ truthyOpt (mapGet m id) = true)
    then Some (mapGet m id) else r !! id.
Proof.
  intros Hs. revert r.
  induction ids as [|i ids IH]; intros r; simpl.
  - destruct (decide (id ∈ [] /\ truthyOpt (mapGet m id) = true))
      as [[H _]|_]; [|done]. inversion H.
  - assert (viaSetter r p i = false) as ->
      by (apply (viaSetter_settled (i :: ids)); [done|by left]).
    rewrite andb_true_r.
    rewrite IH by (intros Hin; apply Hs; by right).
    destruct (decide (id ∈ ids /\ truthyOpt (mapGet m id) = true))
      as [[Hin Ht]|Hn].
    + rewrite decide_True; [done|]. split; [by right|done].
    + destruct (decide (id = i)) as [->|Hne].
      * destruct (truthyOpt (mapGet m i)) eqn:Ht.
        -- rewrite lookup_insert_eq. rewrite decide_True; [done|].
           split; [by left|done].
        -- rewrite decide_False; [done|]. intros [_ ?]; congruence.
      * rewrite decide_False.
        -- destruct (truthyOpt (mapGet m i)); [|done].
           by rewrite lookup_insert_ne.
        -- intros [Hin Ht]. apply Hn. split; [|done].
           apply elem_of_cons in Hin as [?|?]; [congruence|done].
Qed.

Lemma attempt_run env ids k st :
  tryCatch (attemptBody env ids k) (fun e => emit (EvError e) ;;; ret false) st
  = match listingLookup (env k) with
    | Some m =>
        (inr (allLabelled m ids),
         {| result := markedResult m ids (proto st) (result st);
            proto := proto st;
            log := log st ++ [EvFetch k] |})
    | None =>
        (inr false,
         {| result := result st; proto := proto st;
            log := log st ++ [EvFetch k; failureEvent (env k)] |})
    end.
Proof.
  unfold tryCatch, attemptBody, fetchListing, resJson, listingLookup,
    failureEvent, bind, emit, throw, ret, lift; simpl.
  destruct (env k) as [|res]; simpl.
  - by rewrite <- app_assoc.
  - destruct (ok res); simpl.
    + destruct (body res) as [json|]; simpl; [|by rewrite <- app_assoc].
      destruct (listingData json) as [e|it] eqn:Hd; simpl.
      * destruct json as [|d|[] t]; simpl in Hd; try discriminate.
        injection Hd as <-. by rewrite <- app_assoc.
      * destruct (lookupOf it) as [e|m] eqn:Hl; simpl.
        -- destruct it; simpl in Hl; try discriminate.
           injection Hl as <-. by rewrite <- app_assoc.
        -- by rewrite markFound_run.
    + by rewrite <- app_assoc.
Qed.

(** One turn of the loop, as a function of what the attempt saw. *)
Lemma pollLoop_step env ids iv n k st :
  pollLoop env ids iv (S n) k st
  = match listingLookup (env k) with
    | Some m =>
        if allLabelled m ids
        then (inr EarlyExit,
              {| result := markedResult m ids (proto st) (result st);
                 proto := proto st;
                 log := log st ++ [EvFetch k] |})
        else pollLoop env ids iv n (S k)
               {| result := markedResult m ids (proto st) (result st);
                  proto := proto st;
                  log := log st ++ [EvFetch k; EvSleep iv] |}
    | None =>
        pollLoop env ids iv n (S k)
          {| result := result st; proto := proto st;
             log := log st ++ [EvFetch k; failureEvent (env k); EvSleep iv] |}
    end.
Proof.
  cbn [pollLoop]. unfold bind at 1. rewrite attempt_run.
  destruct (listingLookup (env k)) as [m|].
  - destruct (allLabelled m ids); [done|].
    unfold bind, emit; simpl. by rewrite <- app_assoc.
  - unfold bind, emit; simpl. by rewrite <- app_assoc.
Qed.

Lemma allLabelled_true m ids :
  allLabelled m ids = true <->
  forall id, id ∈ ids -> truthyOpt (mapGet m id) = true.
Proof.
  unfold allLabelled. rewrite forallb_forall.
  split; intros H id Hid; apply H; by apply list_elem_of_In.
Qed.

Lemma allLabelled_none m ids :
  ids <> [] ->
  (forall id, id ∈ ids -> truthyOpt (mapGet m id) = false) ->
  allLabelled m ids = false.
Proof.
  intros Hne Hno. destruct ids as [|i ids]; [done|]. simpl.
  rewrite (Hno i); [done|by left].
Qed.

Lemma markedResult_none m ids p r :
  (forall id, id ∈ ids -> truthyOpt (mapGet m id) = false) ->
  markedResult m ids p r = r.
Proof.
  revert r. induction ids as [|i ids IH]; intros r Hno; simpl; [done|].
  rewrite (Hno i) by (by left). simpl.
  apply IH. intros id Hid. apply Hno. by right.
Qed.

(** The loop always returns, never turns a label back into [null], never
    removes a key, adds keys only for targets, and leaves the prototype
    alone. *)
Lemma pollLoop_returns env ids iv n k st :
  exists o st',
    pollLoop env ids iv n k st = (inr o, st')
    /\ (forall id l, result st !! id = Some (Some l) ->
                     exists l', result st' !! id = Some (Some l'))
    /\ dom (result st) ⊆ dom (result st')
    /\ dom (result st') ⊆ dom (result st) ∪ list_to_set ids
    /\ proto st' = proto st.
Proof.
  revert k st. induction n as [|n IH]; intros k st.
  - exists Exhausted, st. simpl. unfold ret.
    split; [done|]. split; [by eauto|]. split; [done|].
    split; [set_solver|done].
  - rewrite pollLoop_step. destruct (listingLookup (env k)) as [m|].
    + pose proof (markedResult_keeps m ids (proto st) (result st)) as Hkeep.
      pose proof (markedResult_dom_mono m ids (proto st) (result st))
        as Hmono.
      pose proof (markedResult_dom_sub m ids (proto st) (result st)) as Hsub.
      destruct (allLabelled m ids).
      * eexists _, _. split; [done|]. simpl. eauto.
      * destruct (IH (S k)
                    {| result := markedResult m ids (proto st) (result st);
                       proto := proto st;
                       log := log st ++ [EvFetch k; EvSleep iv] |})
          as (o & st' & Hrun & Hlab & Hm1 & Hm2 & Hp); simpl in *.
        exists o, st'. split; [done|]. split.
        -- intros id l Hl. destruct (Hkeep id l Hl) as [l' Hl']. eauto.
        -- split; [set_solver|]. split; [set_solver|done].
    + destruct (IH (S k) {| result := result st; proto := proto st;
          log := log st ++ [EvFetch k; failureEvent (env k); EvSleep iv] |})
        as (o & st' & Hrun & Hlab & Hm1 & Hm2 & Hp).
      exists o, st'. simpl in *. eauto.
Qed.

(** [pollForLabels] unfolded: the loop starts from the object the first
    loop leaves. *)
Lemma pollForLabels_start env ids iv max :
  exists r0,
    pollForLabels env ids iv max
      = pollLoop env ids iv max 0
          {| result := r0; proto := protoAfter ids; log := [] |}
    /\ dom r0 ⊆ list_to_set ids
    /\ (forall id, id ∈ ids -> id <> "__proto__" -> r0 !! id = Some None)
    /\ (forall id v, r0 !! id = Some v -> v = None)
    /\ (protoAfter ids = ObjectPrototype -> r0 !! "__proto__" = None).
Proof.
  unfold pollForLabels, bind.
  destruct (initResult_run ids
              {| result := ∅; proto := ObjectPrototype; log := [] |})
    as (m & p & Hrun & Hsub & _ & Hin & _ & Hval & Hp1 & Hp2 & Hnone);
    simpl in *; [done|].
  rewrite Hrun. exists m.
  assert (p = protoAfter ids) as ->.
  { unfold protoAfter. destruct (includes ids "__proto__") eqn:Hi.
    - apply Hp1. by apply includes_spec.
    - apply Hp2. intros Hin'. apply includes_spec in Hin'. congruence. }
  split; [done|]. split; [set_solver|]. split; [done|]. split; [|done].
  intros id v Hv. destruct (Hval id v Hv) as [?|Hemp]; [done|].
  by rewrite lookup_empty in Hemp.
Qed.

(** The start does not depend on the budget. *)
Lemma pollForLabels_start_state env ids iv max max' :
  exists s0,
    pollForLabels env ids iv max = pollLoop env ids iv max 0 s0
    /\ pollForLabels env ids iv max' = pollLoop env ids iv max' 0 s0
    /\ log s0 = [].
Proof.
  unfold pollForLabels, bind.
  destruct (initResult_run ids
              {| result := ∅; proto := ObjectPrototype; log := [] |})
    as (m & p & Hrun & _); simpl in *; [done|].
  rewrite Hrun. eexists. split; [done|]. split; done.
Qed.

(** C1, where the code falls short of the claim: a target named
    [__proto__] that gets no label has no entry in the object the run
    returns, since assigning it [null] detaches the prototype and writes
    no property.  With the targets [A100] and [__proto__] and no label
    found, the run returns an object whose only key is [A100]. *)
Theorem pollForLabels_loses_proto_key :
  (pollForLabels envNever ["A100"; "__proto__"] 3000 2).1 = inr Exhausted
  /\ dom (result (pollForLabels envNever ["A100"; "__proto__"] 3000 2).2)
     = {[ "A100" ]}
  /\ result (pollForLabels envNever ["A100"; "__proto__"] 3000 2).2
       !! "__proto__" = None
  /\ proto (pollForLabels envNever ["A100"; "__proto__"] 3000 2).2
     = NullPrototype
  /\ dom (result (pollForLabels envNever ["A100"; "__proto__"] 3000 2).2)
     <> list_to_set ["A100"; "__proto__"].
Proof.
  assert (Hres : result (pollForLabels envNever ["A100"; "__proto__"]
                           3000 2).2
                 = {[ "A100" := None ]}) by (vm_compute; reflexivity).
  split; [vm_compute; reflexivity|]. rewrite Hres.
  split; [by rewrite dom_singleton_L|].
  split; [done|]. split; [vm_compute; reflexivity|].
  rewrite dom_singleton_L. intros Heq.
  assert (Hin : "__proto__" ∈ ({[ "A100" ]} : gset string)).
  { rewrite Heq. apply elem_of_list_to_set. set_solver. }
  apply elem_of_singleton in Hin. discriminate.
Qed.

(** C2: when the lookup built from the first response has a usable label
    for every target, the run is over after that single request, with no
    delay, and the map it returns gives each target the label found. *)
Theorem pollForLabels_early_exit env ids iv n m :
  listingLookup (env 0%nat) = Some m ->
  (forall id, id ∈ ids -> truthyOpt (mapGet m id) = true) ->
  exists r,
    pollForLabels env ids iv (S n)
      = (inr EarlyExit,
         {| result := r; proto := protoAfter ids; log := [EvFetch 0] |})
    /\ dom r = list_to_set ids
    /\ (forall id, id ∈ ids -> r !! id = Some (mapGet m id)).
Proof.
  intros Hm Hall.
  destruct (pollForLabels_start env ids iv (S n))
    as (r0 & -> & Hdom & _ & _ & _).
  rewrite pollLoop_step, Hm; simpl.
  apply allLabelled_true in Hall as Hb. rewrite Hb.
  eexists. split; [done|].
  assert (Hlook : forall id, id ∈ ids ->
            markedResult m ids (protoAfter ids) r0 !! id
            = Some (mapGet m id)).
  { intros id Hid.
    rewrite markedResult_lookup by apply settled_protoAfter.
    rewrite decide_True; [done|]. split; [done|]. by apply Hall. }
  split; [|done].
  apply set_eq. intros id. split.
  - intros Hid. apply markedResult_dom_sub in Hid. set_solver.
  - intros Hid. apply elem_of_list_to_set in Hid.
    apply elem_of_dom. rewrite (Hlook id Hid). eauto.
Qed.

Lemma pollForLabels_early_exit_witness :
  exists r,
    pollForLabels envReady ["A100"; "A101"] 2000 (S 2)
      = (inr EarlyExit,
         {| result := r; proto := protoAfter ["A100"; "A101"];
            log := [EvFetch 0] |})
    /\ dom r = list_to_set ["A100"; "A101"]
    /\ (forall id, id ∈ ["A100"; "A101"] ->
          r !! id = Some (mapGet (buildMap
            [Some (sampleOrder "A100" (Some url1) None);
             Some (sampleOrder "A101" (Some url2) None)] ∅) id)).
Proof.
  apply (pollForLabels_early_exit envReady ["A100"; "A101"] 2000 2).
  - reflexivity.
  - intros id Hid.
    apply elem_of_cons in Hid as [->|Hid]; [vm_compute; reflexivity|].
    apply elem_of_cons in Hid as [->|Hid]; [vm_compute; reflexivity|].
    inversion Hid.
Defined.

(** With nothing to report, the loop runs its whole budget. *)
Lemma pollLoop_exhausts env ids iv n k st :
  ids <> [] ->
  (forall j, (k <= j < k + n)%nat -> reportsNoLabel ids (env j)) ->
  exists tr,
    pollLoop env ids iv n k st
      = (inr Exhausted,
         {| result := result st; proto := proto st; log := log st ++ tr |})
    /\ polls tr = n.
Proof.
  intros Hne. revert k st. induction n as [|n IH]; intros k st Hno.
  - exists []. simpl. unfold ret. rewrite app_nil_r. by destruct st.
  - rewrite pollLoop_step.
    assert (Hk : reportsNoLabel ids (env k)) by (apply Hno; lia).
    assert (Hrest : forall j, (S k <= j < S k + n)%nat ->
                              reportsNoLabel ids (env j))
      by (intros j Hj; apply Hno; lia).
    destruct (listingLookup (env k)) as [m|] eqn:Hm.
    + rewrite (allLabelled_none m ids Hne (Hk m Hm)).
      rewrite (markedResult_none m ids _ _ (Hk m Hm)).
      destruct (IH (S k) {| result := result st; proto := proto st;
                            log := log st ++ [EvFetch k; EvSleep iv] |} Hrest)
        as (tr & -> & Hp); simpl.
      exists (EvFetch k :: EvSleep iv :: tr). split.
      * by rewrite <- app_assoc.
      * unfold polls in *. simpl. by rewrite Hp.
    + destruct (IH (S k) {| result := result st; proto := proto st;
          log := log st ++ [EvFetch k; failureEvent (env k); EvSleep iv] |}
          Hrest) as (tr & -> & Hp); simpl.
      exists (EvFetch k :: failureEvent (env k) :: EvSleep iv :: tr). split.
      * by rewrite <- app_assoc.
      * unfold polls in *. simpl.
        assert (isFetch (failureEvent (env k)) = false) as ->.
        { unfold failureEvent. destruct (env k) as [|res]; [done|].
          destruct (negb (ok res)); [done|]. by destruct (body res). }
        by rewrite Hp.
Qed.

(** C3, where the code falls short of the claim: with the targets [A100]
    and [__proto__] and a listing that never has a label, the run makes
    its two requests and returns [A100] as [null], but nothing at all for
    [__proto__]: that target is not mapped to [null]. *)
Theorem pollForLabels_proto_not_null :
  (forall k, reportsNoLabel ["A100"; "__proto__"] (envNever k))
  /\ (pollForLabels envNever ["A100"; "__proto__"] 3000 2).1 = inr Exhausted
  /\ polls (log (pollForLabels envNever ["A100"; "__proto__"] 3000 2).2)
     = 2%nat
  /\ result (pollForLabels envNever ["A100"; "__proto__"] 3000 2).2
       !! "A100" = Some None
  /\ result (pollForLabels envNever ["A100"; "__proto__"] 3000 2).2
       !! "__proto__" <> Some None.
Proof.
  split.
  - intros k m Hm id Hid. injection Hm as <-.
    apply elem_of_cons in Hid as [->|Hid]; [vm_compute; reflexivity|].
    apply elem_of_cons in Hid as [->|Hid]; [vm_compute; reflexivity|].
    inversion Hid.
  - assert (Hres : result (pollForLabels envNever ["A100"; "__proto__"]
                             3000 2).2
                   = {[ "A100" := None ]}) by (vm_compute; reflexivity).
    rewrite Hres.
    split; [vm_compute; reflexivity|]. split; [vm_compute; reflexivity|].
    split; [done|]. done.
Qed.

Lemma transportFailure_no_lookup out :
  transportFailure out = true -> listingLookup out = None.
Proof.
  destruct out as [|res]; [done|]. simpl.
  destruct (ok res); simpl; [|done]. by destruct (body res).
Qed.

(** *** What the lookup reports *)

Lemma buildMap_app data1 data2 m :
  buildMap (data1 ++ data2) m = buildMap data2 (buildMap data1 m).
Proof.
  revert m. induction data1 as [|[o|] data1 IH]; intros m; simpl; auto.
  by destruct (truthy (order_id o)).
Qed.

Lemma buildMap_absent data m id :
  (forall o, Some o ∈ data -> order_id o <> id) ->
  buildMap data m !! id = m !! id.
Proof.
  revert m. induction data as [|[o|] data IH]; intros m Hno; simpl; auto.
  - assert (order_id o <> id) by (apply Hno; by left).
    assert (forall o', Some o' ∈ data -> order_id o' <> id)
      by (intros o' Ho'; apply Hno; by right).
    destruct (truthy (order_id o)); rewrite IH by done; [|done].
    by rewrite lookup_insert_ne.
  - apply IH. intros o' Ho'. apply Hno. by right.
Qed.

(** The lookup reports, for an identifier, the label of the last entry
    that carries it. *)
Lemma buildMap_last pre o post m :
  truthy (order_id o) = true ->
  (forall o', Some o' ∈ post -> order_id o' <> order_id o) ->
  mapGet (buildMap (pre ++ Some o :: post) m) (order_id o) = label_url o.
Proof.
  intros Ht Hpost. unfold mapGet. rewrite buildMap_app. simpl. rewrite Ht.
  rewrite (buildMap_absent post _ _ Hpost). by rewrite lookup_insert_eq.
Qed.

(** *** The two-order scenario *)

(** Neither label at the first request, one at the second, both at the
    third: the run goes on to the third request and returns both. *)
Example staggered_run :
  pollForLabels envStaggered ["A100"; "A101"] 2000 3
  = (inr EarlyExit,
     {| result := {[ "A100" := Some url1; "A101" := Some url2 ]};
        proto := ObjectPrototype;
        log := [EvFetch 0; EvSleep 2000; EvFetch 1; EvSleep 2000;
                EvFetch 2] |}).
Proof. vm_compute. reflexivity. Qed.

(** The second label never comes: three requests, one label. *)
Example partial_run :
  pollForLabels envPartial ["A100"; "A101"] 2000 3
  = (inr Exhausted,
     {| result := {[ "A100" := Some url1; "A101" := None ]};
        proto := ObjectPrototype;
        log := [EvFetch 0; EvSleep 2000; EvFetch 1; EvSleep 2000;
                EvFetch 2; EvSleep 2000] |}).
Proof. vm_compute. reflexivity. Qed.

(** A gateway error in the middle costs one attempt and nothing else. *)
Example flaky_run :
  pollForLabels envFlaky ["A100"; "A101"] 2000 3
  = (inr EarlyExit,
     {| result := {[ "A100" := Some url1; "A101" := Some url2 ]};
        proto := ObjectPrototype;
        log := [EvFetch 0; EvSleep 2000; EvFetch 1; EvWarn 502;
                EvSleep 2000; EvFetch 2] |}).
Proof. vm_compute. reflexivity. Qed.

(** With no target at all the first listing that decodes ends the run. *)
Example no_target_run :
  pollForLabels envNever [] 2000 3
  = (inr EarlyExit,
     {| result := ∅; proto := ObjectPrototype; log := [EvFetch 0] |}).
Proof. vm_compute. reflexivity. Qed.

(** ** Delays *)

Lemma polls_cons e tr :
  polls (e :: tr) = ((if isFetch e then 1 else 0) + polls tr)%nat.
Proof. unfold polls. simpl. by destruct (isFetch e). Qed.

Lemma sleeps_cons e tr :
  sleeps (e :: tr) = ((if isSleep e then 1 else 0) + sleeps tr)%nat.
Proof. unfold sleeps. simpl. by destruct (isSleep e). Qed.

Lemma polls_app tr1 tr2 : polls (tr1 ++ tr2) = (polls tr1 + polls tr2)%nat.
Proof. unfold polls. by rewrite List.filter_app, length_app. Qed.

Lemma failureEvent_quiet out :
  isFetch (failureEvent out) = false /\ isSleep (failureEvent out) = false
  /\ forall tr, sleptMs (failureEvent out :: tr) = sleptMs tr.
Proof.
  unfold failureEvent. destruct out as [|res]; [done|].
  destruct (negb (ok res)); [done|]. by destruct (body res).
Qed.

Lemma paced_round iv k tr :
  paced iv tr -> paced iv (EvFetch k :: EvSleep iv :: tr).
Proof.
  intros Htr pre ms post Heq.
  destruct pre as [|a [|b pre]]; simpl in Heq; try discriminate.
  - injection Heq as <- Hms _. by subst ms.
  - injection Heq as <- <- Heq. destruct (Htr _ _ _ Heq) as [-> Hp].
    split; [done|]. rewrite !polls_cons, !sleeps_cons. simpl. by rewrite Hp.
Qed.

Lemma paced_failed_round iv k e tr :
  isFetch e = false -> isSleep e = false ->
  paced iv tr -> paced iv (EvFetch k :: e :: EvSleep iv :: tr).
Proof.
  intros Hf Hs Htr pre ms post Heq.
  destruct pre as [|a [|b [|c pre]]]; simpl in Heq; try discriminate.
  - injection Heq as _ He _. subst e. discriminate.
  - injection Heq as <- <- Hms _. subst ms.
    split; [done|]. rewrite !polls_cons, !sleeps_cons. simpl.
    by rewrite Hf, Hs.
  - injection Heq as <- <- <- Heq. destruct (Htr _ _ _ Heq) as [-> Hp].
    split; [done|]. rewrite !polls_cons, !sleeps_cons. simpl.
    rewrite Hf, Hs. simpl. by rewrite Hp.
Qed.

Lemma pollLoop_paced env ids iv n k st :
  exists o st' tr,
    pollLoop env ids iv n k st = (inr o, st')
    /\ log st' = log st ++ tr
    /\ paced iv tr
    /\ sleptMs tr = (sleeps tr * iv)%nat
    /\ match o with
       | Exhausted => polls tr = n /\ sleeps tr = n
       | EarlyExit => (polls tr <= n)%nat /\ polls tr = S (sleeps tr)
       end.
Proof.
  revert k st. induction n as [|n IH]; intros k st.
  - exists Exhausted, st, []. simpl. unfold ret. rewrite app_nil_r.
    split; [done|]. split; [done|]. split; [|done].
    intros [|??] ???; discriminate.
  - rewrite pollLoop_step. destruct (listingLookup (env k)) as [m|].
    + destruct (allLabelled m ids).
      * eexists EarlyExit, _, [EvFetch k]. simpl.
        split; [done|]. split; [done|]. split; [|split; [done|]].
        -- intros [|?[|??]] ???; discriminate.
        -- unfold polls, sleeps. simpl. lia.
      * destruct (IH (S k)
                    {| result := markedResult m ids (proto st) (result st);
                       proto := proto st;
                       log := log st ++ [EvFetch k; EvSleep iv] |})
          as (o & st' & tr & Hrun & Hlog & Hp & Hms & Ho); simpl in *.
        exists o, st', (EvFetch k :: EvSleep iv :: tr).
        split; [done|]. split; [by rewrite Hlog, <- app_assoc|].
        split; [by apply paced_round|].
        rewrite !polls_cons, !sleeps_cons. simpl. split; [lia|].
        destruct o; lia.
    + destruct (IH (S k) {| result := result st; proto := proto st;
          log := log st ++ [EvFetch k; failureEvent (env k); EvSleep iv] |})
        as (o & st' & tr & Hrun & Hlog & Hp & Hms & Ho); simpl in *.
      destruct (failureEvent_quiet (env k)) as (Hf & Hs & Hq).
      exists o, st', (EvFetch k :: failureEvent (env k) :: EvSleep iv :: tr).
      split; [done|]. split; [by rewrite Hlog, <- app_assoc|].
      split; [by apply paced_failed_round|].
      change (sleptMs (EvFetch k :: failureEvent (env k) :: EvSleep iv :: tr))
        with (sleptMs (failureEvent (env k) :: EvSleep iv :: tr)).
      rewrite Hq, !polls_cons, !sleeps_cons, Hf, Hs. simpl.
      split; [lia|]. destruct o; lia.
Qed.

(** C4, as the code has it: a delay of [pollIntervalMs] follows every
    attempt that does not return, the last one included.  Each delay comes
    after at least one and at most [maxAttempts] requests; a run that uses
    up its budget has slept [maxAttempts] times, one that returns early has
    slept once less than it has polled; the time slept never exceeds
    [maxAttempts * pollIntervalMs]. *)
Theorem pollForLabels_delays env ids iv max :
  exists o st,
    pollForLabels env ids iv max = (inr o, st)
    /\ (forall pre ms post,
          log st = pre ++ EvSleep ms :: post ->
          ms = iv /\ polls pre = S (sleeps pre) /\ (polls pre <= max)%nat)
    /\ match o with
       | Exhausted => polls (log st) = max /\ sleeps (log st) = max
       | EarlyExit => (polls (log st) <= max)%nat
                      /\ polls (log st) = S (sleeps (log st))
       end
    /\ sleptMs (log st) = (sleeps (log st) * iv)%nat
    /\ (sleptMs (log st) <= max * iv)%nat.
Proof.
  destruct (pollForLabels_start env ids iv max) as (r0 & -> & _).
  destruct (pollLoop_paced env ids iv max 0
              {| result := r0; proto := protoAfter ids; log := [] |})
    as (o & st & tr & Hrun & Hlog & Hp & Hms & Ho); simpl in *.
  subst tr. exists o, st. split; [done|]. split; [|split; [done|split]].
  - intros pre ms post Heq. destruct (Hp _ _ _ Heq) as [-> Hpre].
    split; [done|]. split; [done|].
    assert (polls (log st) <= max)%nat by (destruct o; lia).
    rewrite Heq, polls_app in H. lia.
  - done.
  - rewrite Hms. apply Nat.mul_le_mono_r. destruct o; lia.
Qed.

(** C4 as worded fails: with a budget of two attempts and nothing found,
    the run sleeps once more after its second and last request. *)
Lemma pollForLabels_sleeps_after_last_attempt :
  log (pollForLabels envNever ["A100"; "A101"] 3000 2).2
    = [EvFetch 0; EvSleep 3000; EvFetch 1; EvSleep 3000]
  /\ ~ delaysOnlyBeforeAnAttempt 2
        (log (pollForLabels envNever ["A100"; "A101"] 3000 2).2).
Proof.
  assert (Hlog : log (pollForLabels envNever ["A100"; "A101"] 3000 2).2
                 = [EvFetch 0; EvSleep 3000; EvFetch 1; EvSleep 3000])
    by (vm_compute; reflexivity).
  split; [done|]. rewrite Hlog. intros H.
  specialize (H [EvFetch 0; EvSleep 3000; EvFetch 1] 3000%nat [] eq_refl).
  vm_compute in H. lia.
Qed.

(** ** The completion patch *)

Lemma lookup_map {A B} (f : A -> B) (l : list A) (i : nat) :
  List.map f l !! i = f <$> (l !! i).
Proof.
  revert i. induction l as [|x l IH]; intros [|i]; simpl; auto.
Qed.

Lemma setLabelUrl_restore l o : setLabelUrl (label_url o) (setLabelUrl l o) = o.
Proof. by destruct o. Qed.

Lemma readsInherited_spec own p key :
  readsInherited own p key = true <->
  own !! key = None /\ p = ObjectPrototype /\ key ∈ objectPrototypeNames.
Proof.
  unfold readsInherited, readSlot. rewrite <- includes_spec.
  destruct (own !! key), p, (includes objectPrototypeNames key);
    naive_solver.
Qed.

(** The three ways a record comes out of the patch. *)
Lemma patchOrder_cases pollResult p s :
  patchOrder pollResult p s
  = if readsInherited pollResult p (shownId s)
    then Overwritten (fieldsOf s) (shownId s)
    else match reportedLabel pollResult (shownId s) with
         | Some l => Plain (setLabelUrl (Some l) (fieldsOf s))
         | None => s
         end.
Proof.
  unfold patchOrder, readsInherited, readSlot, reportedLabel, mapGet, shownId.
  destruct (pollResult !! order_id (fieldsOf s)) as [[l|]|].
  - cbn [truthyOpt]. by destruct (truthy l).
  - done.
  - destruct p; [|done].
    by destruct (includes objectPrototypeNames (order_id (fieldsOf s))).
Qed.

(** X27: the patch keeps the number, the order and the identifiers of
    the records and touches nothing but [label_url].  A record whose
    identifier is an own key with a label gets that label; one whose
    identifier is no own key but the name of a member of
    [Object.prototype], on an object that still has its prototype, gets
    that member; every other record stays as it is, so a label for an
    identifier that is not on the page goes nowhere. *)
Theorem shipNowPatch_frame pollResult p st :
  totalOrders (shipNowPatch pollResult p st) = totalOrders st
  /\ loading (shipNowPatch pollResult p st) = loading st
  /\ length (orders (shipNowPatch pollResult p st)) = length (orders st)
  /\ List.map shownId (orders (shipNowPatch pollResult p st))
     = List.map shownId (orders st)
  /\ (forall i s,
       orders st !! i = Some s ->
       exists s',
         orders (shipNowPatch pollResult p st) !! i = Some s'
         /\ otherFields s' = otherFields s
         /\ (readsInherited pollResult p (shownId s) = true ->
             s' = Overwritten (fieldsOf s) (shownId s))
         /\ (readsInherited pollResult p (shownId s) = false ->
             reportedLabel pollResult (shownId s) = None -> s' = s)
         /\ (readsInherited pollResult p (shownId s) = false ->
             forall l, reportedLabel pollResult (shownId s) = Some l ->
                       s' = Plain (setLabelUrl (Some l) (fieldsOf s))))
  /\ (forall key,
        readsInherited pollResult p key = true <->
        pollResult !! key = None /\ p = ObjectPrototype
        /\ key ∈ objectPrototypeNames).
Proof.
  unfold shipNowPatch; simpl. split; [done|]. split; [done|].
  split; [by rewrite length_map|]. split; [|split].
  - rewrite List.map_map. apply List.map_ext. intros s.
    rewrite patchOrder_cases.
    destruct (readsInherited _ _ _); [done|].
    by destruct (reportedLabel _ _).
  - intros i s Hi. exists (patchOrder pollResult p s).
    rewrite lookup_map, Hi. split; [done|]. rewrite patchOrder_cases.
    destruct (readsInherited pollResult p (shownId s)).
    + split; [done|]. split; [done|]. split; [done|]. done.
    + destruct (reportedLabel pollResult (shownId s)) as [l|].
      * split; [unfold otherFields; simpl; by destruct (fieldsOf s)|].
        split; [done|]. split; [done|]. by intros _ l' [= ->].
      * split; [done|]. split; [done|]. split; [done|]. by intros _ l' [=].
  - apply readsInherited_spec.
Qed.

(** C6, where the code falls short of the claim: the patch reads the poll
    result as a plain object, so a record whose identifier is the name of
    a member every object inherits is taken for a resolved one.  After a
    run for the one target [A100], the record [constructor] of the page,
    which the result map does not hold, has its [label_url] replaced by
    the inherited member. *)
Theorem shipNowPatch_overwrites_unresolved :
  result (pollForLabels envPartial ["A100"] 2000 3).2
  = {[ "A100" := Some url1 ]}
  /\ orders
       (shipNowPatch
          (result (pollForLabels envPartial ["A100"] 2000 3).2)
          (proto (pollForLabels envPartial ["A100"] 2000 3).2)
          {| orders := [Plain (sampleOrder "constructor" None None);
                        Plain (sampleOrder "A100" None None)];
             totalOrders := 2; loading := false |})
     = [Overwritten (sampleOrder "constructor" None None) "constructor";
        Plain (sampleOrder "A100" (Some url1) None)].
Proof. vm_compute. split; reflexivity. Qed.

Lemma patchOrder_idempotent pollResult p s :
  patchOrder pollResult p (patchOrder pollResult p s)
  = patchOrder pollResult p s.
Proof.
  rewrite (patchOrder_cases pollResult p s).
  destruct (readsInherited pollResult p (shownId s)) eqn:Hr.
  - rewrite patchOrder_cases. unfold shownId in *. simpl. by rewrite Hr.
  - destruct (reportedLabel pollResult (shownId s)) as [l|] eqn:Hl.
    + rewrite patchOrder_cases. unfold shownId in *. simpl.
      by rewrite Hr, Hl.
    + by rewrite patchOrder_cases, Hr, Hl.
Qed.

(** Patching twice with the same poll result is patching once. *)
Lemma shipNowPatch_idempotent pollResult p st :
  shipNowPatch pollResult p (shipNowPatch pollResult p st)
  = shipNowPatch pollResult p st.
Proof.
  unfold shipNowPatch, setOrders; simpl. f_equal.
  rewrite List.map_map. apply List.map_ext. apply patchOrder_idempotent.
Qed.

(** After the partial run only the first order gets its label; the entry
    for an order that is not on the page is dropped. *)
Example partial_run_patch :
  orders (shipNowPatch
            {[ "A100" := Some url1; "A101" := None; "Z900" := Some url2 ]}
            ObjectPrototype
            {| orders := [Plain (sampleOrder "A101" None None);
                          Plain (sampleOrder "A100" None None)];
               totalOrders := 2; loading := false |})
  = [Plain (sampleOrder "A101" None None);
     Plain (sampleOrder "A100" (Some url1) None)].
Proof. vm_compute. reflexivity. Qed.

(** ** Refresh failures *)

(** Whatever is raised inside the [try] block, the [catch] clause empties
    the store. *)
Lemma refreshGuarded_exception engine pk out st e :
  refreshTry engine pk out (setLoading true st) = inl e ->
  refreshGuarded engine pk out st
  = {| orders := []; totalOrders := 0; loading := false |}.
Proof. intros He. unfold refreshGuarded. by rewrite He. Qed.

(** C9: when the request rejects, is answered non-OK or does not decode,
    the refresh returns a store with no records and a total of zero, on
    both pages, whatever the store held before. *)
Theorem fetchGenesisOrders_failure engine printerKey token out st :
  transportFailure out = true ->
  orders (fetchGenesisOrders engine printerKey token out st) = []
  /\ totalOrders (fetchGenesisOrders engine printerKey token out st) = 0
  /\ orders (GenesisOnly.fetchGenesisOrders engine out st) = []
  /\ totalOrders (GenesisOnly.fetchGenesisOrders engine out st) = 0
  /\ loading (GenesisOnly.fetchGenesisOrders engine out st) = false.
Proof.
  intros Hfail.
  assert (Hg : forall pk,
             orders (refreshGuarded engine pk out st) = []
             /\ totalOrders (refreshGuarded engine pk out st) = 0
             /\ loading (refreshGuarded engine pk out st) = false).
  { intros pk. unfold refreshGuarded, refreshTry.
    destruct out as [|res]; [done|]. simpl in Hfail.
    destruct (ok res); simpl in *; [|done].
    destruct (body res); [discriminate|done]. }
  unfold GenesisOnly.fetchGenesisOrders, fetchGenesisOrders.
  destruct (Hg printerKey) as (H1 & H2 & _).
  destruct (Hg "genesis") as (H3 & H4 & H5).
  destruct (negb (truthy token)); simpl; auto.
Qed.

Lemma fetchGenesisOrders_failure_witness :
  let st := {| orders := [Plain (sampleOrder "A100" None None)]; totalOrders := 41;
               loading := false |} in
  orders (fetchGenesisOrders engineNone "genesis" "tok" serverError st) = []
  /\ totalOrders (fetchGenesisOrders engineNone "genesis" "tok"
                    serverError st) = 0
  /\ orders (GenesisOnly.fetchGenesisOrders engineNone serverError st) = []
  /\ totalOrders (GenesisOnly.fetchGenesisOrders engineNone serverError st) = 0
  /\ loading (GenesisOnly.fetchGenesisOrders engineNone serverError st)
     = false.
Proof.
  apply (fetchGenesisOrders_failure engineNone "genesis" "tok" serverError).
  reflexivity.
Defined.

(** ** Sorting *)

Section SortFacts.
Context {A : Type}.
Variable key : A -> Z.

Lemma insertSorted_perm x l : insertSorted (descendingBy key) x l ≡ₚ x :: l.
Proof.
  induction l as [|y l IH]; simpl; [done|].
  destruct (descendingBy key x y <=? 0); [done|].
  rewrite IH. apply Permutation_swap.
Qed.

Lemma sortBy_perm l : sortBy (descendingBy key) l ≡ₚ l.
Proof.
  induction l as [|x l IH]; simpl; [done|].
  by rewrite insertSorted_perm, IH.
Qed.

Lemma insertSorted_sorted x l :
  StronglySorted (keyGe key) l ->
  StronglySorted (keyGe key) (insertSorted (descendingBy key) x l).
Proof.
  induction l as [|y l IH]; simpl; intros Hs.
  - repeat constructor.
  - apply StronglySorted_cons in Hs as [Hy Hl].
    destruct (descendingBy key x y <=? 0) eqn:Hc.
    + apply Z.leb_le in Hc. unfold descendingBy in Hc.
      apply StronglySorted_cons. split.
      * constructor; [unfold keyGe; lia|].
        eapply Forall_impl; [exact Hy|]. unfold keyGe. intros; lia.
      * by apply StronglySorted_cons.
    + apply Z.leb_gt in Hc. unfold descendingBy in Hc.
      apply StronglySorted_cons. split; [|auto].
      rewrite (insertSorted_perm x l).
      constructor; [unfold keyGe; lia|done].
Qed.

Lemma sortBy_sorted l :
  StronglySorted (keyGe key) (sortBy (descendingBy key) l).
Proof.
  induction l as [|x l IH]; simpl; [constructor|].
  by apply insertSorted_sorted.
Qed.

(** Stability: elements with the same key stay in their order. *)
Lemma insertSorted_stable k x l :
  filter (fun y => key y = k) (insertSorted (descendingBy key) x l)
  = filter (fun y => key y = k) (x :: l).
Proof.
  induction l as [|y l IH]; simpl; [done|].
  destruct (descendingBy key x y <=? 0) eqn:Hc; [done|].
  apply Z.leb_gt in Hc. unfold descendingBy in Hc.
  rewrite (filter_cons _ y), IH, !(filter_cons _ x), !(filter_cons _ y).
  destruct (decide (key x = k)), (decide (key y = k)); try done. lia.
Qed.

Lemma sortBy_stable k l :
  filter (fun y => key y = k) (sortBy (descendingBy key) l)
  = filter (fun y => key y = k) l.
Proof.
  induction l as [|x l IH]; simpl; [done|].
  by rewrite insertSorted_stable, !filter_cons, IH.
Qed.

Lemma precedes_sublist (a b : A) l : precedes a b l <-> [a; b] `sublist_of` l.
Proof.
  unfold precedes. rewrite sublist_cons_l. split.
  - intros (l1 & l2 & l3 & ->). exists l1, (l2 ++ b :: l3). split; [done|].
    apply sublist_cons_l. exists l2, l3. split; [done|apply sublist_nil_l].
  - intros (k1 & k2 & -> & Hb). apply sublist_cons_l in Hb
      as (k3 & k4 & -> & _). by exists k1, k3, k4.
Qed.

Lemma precedes_filter (P : A -> Prop) `{!forall x, Decision (P x)} a b l :
  P a -> P b -> precedes a b l -> precedes a b (filter P l).
Proof.
  intros Ha Hb (l1 & l2 & l3 & ->).
  exists (filter P l1), (filter P l2), (filter P l3).
  rewrite filter_app, filter_cons_True, filter_app, filter_cons_True; done.
Qed.

Lemma precedes_unfilter (P : A -> Prop) `{!forall x, Decision (P x)} a b l :
  precedes a b (filter P l) -> precedes a b l.
Proof.
  rewrite !precedes_sublist. intros Hsub.
  etrans; [exact Hsub|apply sublist_filter].
Qed.

Lemma sortBy_keeps_ties a b l :
  key a = key b -> precedes a b l -> precedes a b (sortBy (descendingBy key) l).
Proof.
  intros Hk Hab.
  apply (precedes_unfilter (fun y => key y = key a)).
  rewrite sortBy_stable. by apply precedes_filter.
Qed.

Lemma sorted_precedes a b l :
  StronglySorted (keyGe key) l -> precedes a b l -> key b <= key a.
Proof.
  intros Hs (l1 & l2 & l3 & ->).
  apply StronglySorted_app_1_r, StronglySorted_cons in Hs as [Ha _].
  rewrite Forall_forall in Ha. apply Ha.
  apply elem_of_app. right. by left.
Qed.

Lemma sorted_larger_first a b l :
  StronglySorted (keyGe key) l -> a ∈ l -> b ∈ l -> key b < key a ->
  precedes a b l.
Proof.
  intros Hs Ha Hb Hlt.
  apply list_elem_of_split in Ha as (l1 & l2 & ->).
  apply elem_of_app in Hb as [Hb|Hb].
  - apply list_elem_of_split in Hb as (m1 & m2 & ->).
    assert (key a <= key b); [|lia].
    apply (sorted_precedes b a _ Hs). exists m1, m2, l2.
    by rewrite <- app_assoc.
  - apply elem_of_cons in Hb as [->|Hb]; [lia|].
    apply list_elem_of_split in Hb as (m1 & m2 & ->).
    by exists l1, m1, m2.
Qed.
End SortFacts.

(** ** The record list of a refresh *)

(** What a refresh that goes through leaves in the store. *)
Lemma fetchGenesisOrders_loaded engine pk token code json data filtered st :
  truthy token = true ->
  listingData json = inr (ItemsArray data) ->
  filterOrders engine pk data = inr filtered ->
  fetchGenesisOrders engine pk token
    (FetchResolves {| ok := true; status := code; body := Some json |}) st
  = {| orders := List.map Plain (sortedRecords engine filtered);
       totalOrders := totalOf json data;
       loading := false |}.
Proof.
  intros Ht Hd Hf. unfold fetchGenesisOrders, refreshGuarded, refreshTry.
  rewrite Ht. simpl. by rewrite Hd, Hf.
Qed.

Lemma sortKey_untimed engine o :
  truthyOpt (print_sent_at o) = false -> sortKey engine o = 0.
Proof.
  unfold sortKey, parse. by destruct (print_sent_at o) as [[|c s]|].
Qed.

(** A zone-less timestamp that the engine can read is keyed by its
    instant. *)
Lemma sortKey_stamp engine o s t :
  print_sent_at o = Some s -> truthy s = true -> hasZone s = false ->
  dateGetTime engine (truncateFraction s +:+ "Z") = Some t ->
  sortKey engine o = t.
Proof.
  intros Hs Ht Hz Hd. unfold sortKey, parse. rewrite Hs, Ht, Hz. simpl.
  by rewrite Hd.
Qed.

(** C7, as the code has it: the records of a refresh are the trimmed
    records in descending order of their sort key, the parsed instant of
    [print_sent_at], or zero when it is missing or does not parse.  So a
    record whose key is larger comes first; a record without a timestamp
    comes after every record whose timestamp parses to an instant after
    the epoch; and records with equal keys, those without a timestamp
    among them, keep the order they arrived in. *)
Theorem sortedRecords_order engine filtered :
  sortedRecords engine filtered ≡ₚ List.map trimOrder filtered
  /\ (forall a b,
        precedes a b (sortedRecords engine filtered) ->
        sortKey engine b <= sortKey engine a)
  /\ (forall a b,
        a ∈ sortedRecords engine filtered ->
        b ∈ sortedRecords engine filtered ->
        sortKey engine b < sortKey engine a ->
        precedes a b (sortedRecords engine filtered))
  /\ (forall a b,
        a ∈ sortedRecords engine filtered ->
        b ∈ sortedRecords engine filtered ->
        truthyOpt (print_sent_at a) = false ->
        0 < sortKey engine b ->
        precedes b a (sortedRecords engine filtered))
  /\ (forall a b,
        sortKey engine a = sortKey engine b ->
        precedes a b (List.map trimOrder filtered) ->
        precedes a b (sortedRecords engine filtered))
  /\ (forall a b,
        truthyOpt (print_sent_at a) = false ->
        truthyOpt (print_sent_at b) = false ->
        precedes a b (List.map trimOrder filtered) ->
        precedes a b (sortedRecords engine filtered)).
Proof.
  unfold sortedRecords.
  change (comparePrintSentAt engine) with (descendingBy (sortKey engine)).
  pose proof (sortBy_sorted (sortKey engine) (List.map trimOrder filtered))
    as Hs.
  split; [apply sortBy_perm|]. split; [|split; [|split; [|split]]].
  - intros a b. by apply (sorted_precedes (sortKey engine)).
  - intros a b. by apply (sorted_larger_first (sortKey engine)).
  - intros a b Ha Hb Hu Hpos.
    apply (sorted_larger_first (sortKey engine)); auto.
    by rewrite (sortKey_untimed engine a Hu).
  - intros a b. apply (sortBy_keeps_ties (sortKey engine)).
  - intros a b Ha Hb. apply (sortBy_keeps_ties (sortKey engine)).
    by rewrite !sortKey_untimed.
Qed.

Lemma sortedRecords_order_witness :
  let a := sampleOrder "A100" None (Some "2024-01-05T10:00:00.123456") in
  let b := sampleOrder "A101" None None in
  precedes (trimOrder a) (trimOrder b) (sortedRecords engineNone [b; a]).
Proof.
  intros a b.
  assert (Hout : sortedRecords engineNone [b; a] = [trimOrder a; trimOrder b])
    by (vm_compute; reflexivity).
  apply (proj1 (proj2 (proj2 (proj2
           (sortedRecords_order engineNone [b; a]))))).
  - rewrite Hout. apply elem_of_cons. right. apply elem_of_cons. by left.
  - rewrite Hout. apply elem_of_cons. by left.
  - reflexivity.
  - vm_compute. reflexivity.
Defined.

(** C7 as worded fails: a record stamped one second before the epoch has a
    negative key, so the record without a timestamp, keyed zero, is sorted
    in front of it. *)
Lemma untimed_record_before_early_stamp :
  let a := sampleOrder "A100" None None in
  let b := sampleOrder "B200" None (Some "1969-12-31T23:59:59") in
  sortedRecords engineNone [b; a] = [trimOrder a; trimOrder b]
  /\ orders (fetchGenesisOrders engineNone "genesis" "tok"
               (okListing [Some b; Some a])
               {| orders := []; totalOrders := 0; loading := false |})
     = [Plain (trimOrder a); Plain (trimOrder b)]
  /\ print_sent_at (trimOrder a) = Some ""
  /\ sortKey engineNone (trimOrder b) = -1000.
Proof. vm_compute. repeat split; reflexivity. Qed.

(** ** Timestamps without a zone *)

Lemma existsChar_app p s t :
  existsChar p (s +:+ t) = existsChar p s || existsChar p t.
Proof.
  induction s as [|c s IH]; simpl; [done|]. by rewrite IH, orb_assoc.
Qed.

Lemma isDigit_plain c :
  isDigit c = true -> isDot c = false /\ isZed c = false /\ isSign c = false.
Proof.
  intros Hd. unfold isDot, isZed, isSign.
  destruct (Ascii.eqb_spec c "."); [by subst|].
  destruct (Ascii.eqb_spec c "z"); [by subst|].
  destruct (Ascii.eqb_spec c "Z"); [by subst|].
  destruct (Ascii.eqb_spec c "+"); [by subst|].
  destruct (Ascii.eqb_spec c "-"); [by subst|]. done.
Qed.

Lemma digits_plain s :
  forallChar isDigit s = true ->
  existsChar isDot s = false /\ existsChar isZed s = false.
Proof.
  induction s as [|c s IH]; simpl; [done|].
  intros [Hc Hs]%andb_true_iff. destruct (IH Hs) as [-> ->].
  destruct (isDigit_plain c Hc) as (-> & -> & _). done.
Qed.

Lemma dropDigits_all s : forallChar isDigit s = true -> dropDigits s = "".
Proof.
  induction s as [|c s IH]; simpl; [done|].
  intros [-> Hs]%andb_true_iff. auto.
Qed.

Lemma truncateFraction_no_dot s :
  existsChar isDot s = false -> truncateFraction s = s.
Proof.
  induction s as [|c s IH]; simpl; [done|].
  intros [Hc Hs]%orb_false_iff. rewrite (IH Hs).
  unfold isDot in Hc. rewrite Hc. simpl.
  by destruct s as [|? [|? [|? [|? ?]]]].
Qed.

Lemma truncateFraction_eq v :
  truncateFraction v
  = match v with
    | EmptyString => EmptyString
    | String c r =>
        match r with
        | String d1 (String d2 (String d3 (String d4 r'))) =>
            if Ascii.eqb c "." && isDigit d1 && isDigit d2 && isDigit d3
               && isDigit d4
            then String c (String d1 (String d2 (String d3 (dropDigits r'))))
            else String c (truncateFraction r)
        | _ => String c (truncateFraction r)
        end
    end.
Proof. by destruct v. Qed.

(** A dot followed by digits only: the first three stay. *)
Lemma truncateFraction_fraction frac :
  forallChar isDigit frac = true ->
  truncateFraction ("." +:+ frac) = "." +:+ substring 0 3 frac.
Proof.
  intros Hd.
  destruct frac as [|d1 [|d2 [|d3 [|d4 r]]]]; try reflexivity.
  cbn [forallChar] in Hd.
  apply andb_true_iff in Hd as [H1 Hd]. apply andb_true_iff in Hd as [H2 Hd].
  apply andb_true_iff in Hd as [H3 Hd]. apply andb_true_iff in Hd as [H4 Hd].
  rewrite truncateFraction_eq. cbv [String.append].
  rewrite H1, H2, H3, H4, (dropDigits_all r Hd). reflexivity.
Qed.

Lemma truncateFraction_prefix p t :
  existsChar isDot p = false ->
  truncateFraction (p +:+ t) = p +:+ truncateFraction t.
Proof.
  induction p as [|c p IH]; simpl; [done|].
  intros [Hc Hp]%orb_false_iff. rewrite (IH Hp).
  unfold isDot in Hc. rewrite Hc. simpl.
  by destruct (p +:+ t) as [|? [|? [|? [|? ?]]]].
Qed.

(** A zone offset begins with a sign and has no dot in it. *)
Lemma offsetShape_inv s :
  offsetShape s = true ->
  existsChar isDot s = false
  /\ exists c r, s = String c r /\ isSign c = true.
Proof.
  assert (Hsign : forall c, isSign c = true -> isDot c = false).
  { intros c. unfold isSign, isDot.
    destruct (Ascii.eqb_spec c "."); [by subst|done]. }
  assert (Hcolon : forall c, Ascii.eqb c ":" = true -> isDot c = false).
  { intros c Hc. apply Ascii.eqb_eq in Hc. by subst. }
  destruct s as [|sg [|a [|b rest]]]; try discriminate.
  unfold offsetShape. intros Hs.
  apply andb_true_iff in Hs as [Hs Hrest].
  apply andb_true_iff in Hs as [Hs Hb]. apply andb_true_iff in Hs as [Hs Ha].
  split; [|by eauto]. cbn [existsChar].
  rewrite (Hsign sg Hs).
  destruct (isDigit_plain a Ha) as (-> & _).
  destruct (isDigit_plain b Hb) as (-> & _).
  destruct rest as [|c [|d [|e [|? ?]]]]; try discriminate; cbn [existsChar].
  - apply andb_true_iff in Hrest as [Hc Hd].
    destruct (isDigit_plain c Hc) as (-> & _).
    by destruct (isDigit_plain d Hd) as (-> & _).
  - apply andb_true_iff in Hrest as [Hrest He].
    apply andb_true_iff in Hrest as [Hc Hd].
    rewrite (Hcolon c Hc).
    destruct (isDigit_plain d Hd) as (-> & _).
    by destruct (isDigit_plain e He) as (-> & _).
Qed.

Lemma anySuffix_digits s :
  forallChar isDigit s = true -> anySuffix offsetShape s = false.
Proof.
  induction s as [|c s IH]; [done|].
  intros Hd. simpl in Hd. apply andb_true_iff in Hd as [Hc Hs].
  cbn [anySuffix]. rewrite (IH Hs), orb_false_r.
  destruct (offsetShape (String c s)) eqn:Ho; [|done].
  apply offsetShape_inv in Ho as (_ & c' & r & [= <- <-] & Hsg).
  destruct (isDigit_plain c Hc) as (_ & _ & Hn). congruence.
Qed.

Lemma anySuffix_before_fraction p frac :
  forallChar isDigit frac = true ->
  anySuffix offsetShape (p +:+ "." +:+ frac) = false.
Proof.
  intros Hd.
  assert (Hdot : forall q, offsetShape (q +:+ "." +:+ frac) = false).
  { intros q. destruct (offsetShape _) eqn:Ho; [|done].
    apply offsetShape_inv in Ho as [Hno _].
    rewrite existsChar_app in Hno. simpl in Hno.
    by rewrite orb_true_r in Hno. }
  induction p as [|c p IH].
  - change ("" +:+ "." +:+ frac) with (String "." frac).
    cbn [anySuffix]. rewrite (anySuffix_digits frac Hd), orb_false_r.
    apply (Hdot "").
  - change (String c p +:+ "." +:+ frac)
      with (String c (p +:+ "." +:+ frac)).
    cbn [anySuffix]. rewrite IH, orb_false_r.
    apply (Hdot (String c p)).
Qed.

Lemma hasZone_fraction p frac :
  existsChar (fun c => isZed c || isDot c) p = false ->
  forallChar isDigit frac = true ->
  hasZone (p +:+ "." +:+ frac) = false /\ existsChar isDot p = false.
Proof.
  intros Hp Hd.
  assert (existsChar isZed p = false /\ existsChar isDot p = false)
    as [Hz Hdot].
  { clear Hd. induction p as [|c p IH]; simpl in *; [done|].
    apply orb_false_iff in Hp as [Hc Hp].
    apply orb_false_iff in Hc as [-> ->]. by apply IH. }
  split; [|done]. unfold hasZone.
  rewrite anySuffix_before_fraction by done.
  rewrite !existsChar_app, Hz. simpl.
  by destruct (digits_plain frac Hd) as [_ ->].
Qed.

Lemma truthy_app_dot p t : truthy (p +:+ "." +:+ t) = true.
Proof. by destruct p. Qed.

Lemma append_assoc_string (s t u : string) : (s +:+ t) +:+ u = s +:+ t +:+ u.
Proof.
  induction s as [|c s IH]; [done|].
  change (String c ((s +:+ t) +:+ u) = String c (s +:+ t +:+ u)).
  by rewrite IH.
Qed.

(** C8: a timestamp that carries no zone is cut to three fractional digits
    and read as UTC: what is handed to [Date] is the string up to the third
    digit after the dot with a [Z] behind it.  The six-digit example comes
    out as the instant 2024-01-05T10:00:00.123Z, on every engine. *)
Theorem parse_zoneless engine :
  (forall v,
     truthy v = true -> hasZone v = false ->
     parse engine (Some v)
       = timeOrZero (dateGetTime engine (truncateFraction v +:+ "Z")))
  /\ (forall p frac,
        existsChar (fun c => isZed c || isDot c) p = false ->
        forallChar isDigit frac = true ->
        parse engine (Some (p +:+ "." +:+ frac))
          = timeOrZero
              (dateGetTime engine (p +:+ "." +:+ substring 0 3 frac +:+ "Z")))
  /\ parse engine (Some "2024-01-05T10:00:00.123456") = 1704448800123
  /\ dateGetTime engine "2024-01-05T10:00:00.123Z" = Some 1704448800123.
Proof.
  assert (Hgen : forall v,
             truthy v = true -> hasZone v = false ->
             parse engine (Some v)
             = timeOrZero (dateGetTime engine (truncateFraction v +:+ "Z"))).
  { intros v Ht Hz. unfold parse. by rewrite Ht, Hz. }
  split; [exact Hgen|]. split; [|split; vm_compute; reflexivity].
  intros p frac Hp Hd.
  destruct (hasZone_fraction p frac Hp Hd) as [Hz Hdot].
  rewrite (Hgen _ (truthy_app_dot p frac) Hz).
  rewrite (truncateFraction_prefix p _ Hdot), truncateFraction_fraction by done.
  by rewrite !append_assoc_string.
Qed.

Lemma parse_zoneless_witness :
  parse engineNone (Some ("2024-01-05T10:00:00" +:+ "." +:+ "123456"))
  = timeOrZero
      (dateGetTime engineNone
         ("2024-01-05T10:00:00" +:+ "." +:+ substring 0 3 "123456" +:+ "Z")).
Proof.
  apply (proj1 (proj2 (parse_zoneless engineNone))
           "2024-01-05T10:00:00" "123456").
  - vm_compute. reflexivity.
  - vm_compute. reflexivity.
Defined.

(** ** Empty labels *)

Lemma blankToAbsent_truthy l : truthyOpt (blankToAbsent l) = truthyOpt l.
Proof. unfold blankToAbsent. by destruct (truthyOpt l) eqn:H. Qed.

Lemma blankToAbsent_keep l : truthyOpt l = true -> blankToAbsent l = l.
Proof. unfold blankToAbsent. by intros ->. Qed.

Lemma orEmpty_blankToAbsent l : orEmpty (blankToAbsent l) = orEmpty l.
Proof. by destruct l as [[|c s]|]. Qed.

Lemma trimOrder_withoutBlankLabel o :
  trimOrder (withoutBlankLabel o) = trimOrder o.
Proof.
  unfold trimOrder, withoutBlankLabel; simpl.
  by rewrite orEmpty_blankToAbsent.
Qed.

Lemma filterOrders_withoutBlankLabel engine pk data :
  filterOrders engine pk (List.map (option_map withoutBlankLabel) data)
  = match filterOrders engine pk data with
    | inl e => inl e
    | inr kept => inr (List.map withoutBlankLabel kept)
    end.
Proof.
  induction data as [|[o|] data IH]; simpl; auto.
  rewrite IH. destruct (filterOrders engine pk data) as [e|kept]; [done|].
  change (keepOrder engine pk (withoutBlankLabel o)) with (keepOrder engine pk o).
  by destruct (keepOrder engine pk o).
Qed.

Lemma sortedRecords_withoutBlankLabel engine kept :
  sortedRecords engine (List.map withoutBlankLabel kept)
  = sortedRecords engine kept.
Proof.
  unfold sortedRecords. f_equal. rewrite List.map_map.
  apply List.map_ext. apply trimOrder_withoutBlankLabel.
Qed.

Lemma refreshTry_withoutBlankLabels engine pk out st :
  refreshTry engine pk (withoutBlankLabels out) st
  = refreshTry engine pk out st.
Proof.
  destruct out as [|[okay code [json|]]]; simpl; auto.
  destruct okay; simpl; [|done].
  destruct json as [|data|[|data|text|] total]; simpl; auto.
  - rewrite filterOrders_withoutBlankLabel, length_map.
    destruct (filterOrders engine pk data); [done|].
    by rewrite sortedRecords_withoutBlankLabel.
  - rewrite filterOrders_withoutBlankLabel, length_map.
    destruct (filterOrders engine pk data); [done|].
    by rewrite sortedRecords_withoutBlankLabel.
Qed.

Lemma buildMap_withoutBlankLabel data m0 :
  buildMap (List.map (option_map withoutBlankLabel) data)
           (blankToAbsent <$> m0)
  = blankToAbsent <$> buildMap data m0.
Proof.
  revert m0. induction data as [|[o|] data IH]; intros m0; simpl; auto.
  destruct (truthy (order_id o)); [|done].
  by rewrite <- IH, fmap_insert.
Qed.

Lemma buildMap_withoutBlankLabel_empty data :
  buildMap (List.map (option_map withoutBlankLabel) data) ∅
  = blankToAbsent <$> buildMap data ∅.
Proof.
  by rewrite <- buildMap_withoutBlankLabel.
Qed.

Lemma listingLookup_withoutBlankLabels out :
  listingLookup (withoutBlankLabels out)
  = match listingLookup out with
    | Some m => Some (blankToAbsent <$> m)
    | None => None
    end.
Proof.
  destruct out as [|[okay code [json|]]]; simpl; auto;
    (destruct okay; simpl; [|done]); [|done].
  destruct json as [|data|[|data|text|] total];
    cbn [listingData lookupOf]; auto;
    apply (f_equal Some);
    first [ apply buildMap_withoutBlankLabel_empty
          | symmetry; apply fmap_empty ].
Qed.

Lemma failureEvent_withoutBlankLabels out :
  failureEvent (withoutBlankLabels out) = failureEvent out.
Proof.
  destruct out as [|[okay code [json|]]]; simpl; auto.
Qed.

Lemma mapGet_blankToAbsent m id :
  mapGet (blankToAbsent <$> m) id = blankToAbsent (mapGet m id).
Proof.
  unfold mapGet. rewrite lookup_fmap. by destruct (m !! id).
Qed.

Lemma markedResult_blankToAbsent m ids p r :
  markedResult (blankToAbsent <$> m) ids p r = markedResult m ids p r.
Proof.
  revert r. induction ids as [|i ids IH]; intros r; simpl; [done|].
  rewrite IH, mapGet_blankToAbsent, blankToAbsent_truthy.
  destruct (truthyOpt (mapGet m i)) eqn:Ht; [|done].
  by rewrite blankToAbsent_keep.
Qed.

Lemma allLabelled_blankToAbsent m ids :
  allLabelled (blankToAbsent <$> m) ids = allLabelled m ids.
Proof.
  unfold allLabelled. induction ids as [|i ids IH]; simpl; [done|].
  by rewrite IH, mapGet_blankToAbsent, blankToAbsent_truthy.
Qed.

Lemma pollLoop_withoutBlankLabels env ids iv n k st :
  pollLoop (fun j => withoutBlankLabels (env j)) ids iv n k st
  = pollLoop env ids iv n k st.
Proof.
  revert k st. induction n as [|n IH]; intros k st; [done|].
  rewrite !pollLoop_step, listingLookup_withoutBlankLabels,
    failureEvent_withoutBlankLabels.
  destruct (listingLookup (env k)) as [m|]; simpl; [|apply IH].
  rewrite allLabelled_blankToAbsent, markedResult_blankToAbsent.
  destruct (allLabelled m ids); [done|apply IH].
Qed.

Lemma reportedLabel_blankToAbsent pollResult id :
  reportedLabel (blankToAbsent <$> pollResult) id
  = reportedLabel pollResult id.
Proof.
  unfold reportedLabel.
  rewrite mapGet_blankToAbsent, blankToAbsent_truthy.
  destruct (truthyOpt (mapGet pollResult id)) eqn:Ht; [|done].
  by rewrite blankToAbsent_keep.
Qed.

Lemma patchOrder_blankToAbsent pollResult p s :
  patchOrder (blankToAbsent <$> pollResult) p s = patchOrder pollResult p s.
Proof.
  rewrite !patchOrder_cases, reportedLabel_blankToAbsent.
  assert (readsInherited (blankToAbsent <$> pollResult) p (shownId s)
          = readsInherited pollResult p (shownId s)) as ->; [|done].
  unfold readsInherited, readSlot. rewrite lookup_fmap.
  by destruct (pollResult !! shownId s).
Qed.

(** * Further properties *)

(** ** Pagination *)

















Lemma ceilDiv_bounds a :
  a <= pageSize * ceilDiv a pageSize < a + pageSize.
Proof.
  unfold ceilDiv, pageSize.
  pose proof (Z.div_mod (- a) 18 ltac:(lia)).
  pose proof (Z.mod_pos_bound (- a) 18 ltac:(lia)). lia.
Qed.


(** X4: for a total that is a safe integer, [totalPages] is the least
    number of pages, at least one, on which [totalOrders] orders fit at
    [pageSize] a page; this does not depend on the host. *)
Theorem totalPages_least engine totalOrders :
  Z.abs totalOrders <= maxSafeInteger ->
  1 <= totalPages engine totalOrders
  /\ totalOrders <= pageSize * totalPages engine totalOrders
  /\ (forall pages,
        1 <= pages -> totalOrders <= pageSize * pages ->
        totalPages engine totalOrders <= pages)
  /\ totalPages engine totalOrders = Z.max 1 (ceilDiv totalOrders pageSize).
Proof.
  intros Hsafe. unfold totalPages, pagesNeeded.
  apply Z.leb_le in Hsafe. rewrite Hsafe.
  pose proof (ceilDiv_bounds totalOrders) as Hc.
  unfold pageSize in *. split; [lia|]. split; [lia|].
  split; [|done]. intros pages H1 Hfit. lia.
Qed.

Lemma totalPages_least_witness :
  totalPages engineNone 37 <= 3.
Proof.
  destruct (totalPages_least engineNone 37) as (_ & _ & Hleast & _).
  - unfold maxSafeInteger. lia.
  - apply (Hleast 3).
    + lia.
    + unfold pageSize. lia.
Defined.




(** ** The selection *)

Lemma setHas_spec s x : setHas s x = true <-> x ∈ s.
Proof.
  unfold setHas. rewrite existsb_exists. split.
  - intros (y & Hy & Heq). apply String.eqb_eq in Heq. subst.
    by apply list_elem_of_In.
  - intros Hx. exists x. split; [by apply list_elem_of_In|].
    apply String.eqb_refl.
Qed.

Lemma setAdd_elem s x y : y ∈ setAdd s x <-> y ∈ s \/ y = x.
Proof.
  unfold setAdd. destruct (setHas s x) eqn:Hx.
  - apply setHas_spec in Hx. split; [by left|]. by intros [?| ->].
  - rewrite elem_of_app, list_elem_of_singleton. done.
Qed.

Lemma setDelete_elem s x y : y ∈ setDelete s x <-> y ∈ s /\ y <> x.
Proof.
  unfold setDelete. rewrite list_elem_of_In, filter_In, <- list_elem_of_In.
  rewrite negb_true_iff, String.eqb_neq. naive_solver.
Qed.

Lemma setAdd_NoDup s x : NoDup s -> NoDup (setAdd s x).
Proof.
  intros Hs. unfold setAdd. destruct (setHas s x) eqn:Hx; [done|].
  apply NoDup_app. split; [done|]. split; [|apply NoDup_singleton].
  intros y Hy ->%list_elem_of_singleton.
  apply setHas_spec in Hy. congruence.
Qed.

Lemma setDelete_NoDup s x : NoDup s -> NoDup (setDelete s x).
Proof.
  intros Hs. unfold setDelete. apply NoDup_ListNoDup.
  apply List.NoDup_filter. by apply NoDup_ListNoDup.
Qed.

Lemma setDelete_absent s x : x ∉ s -> setDelete s x = s.
Proof.
  unfold setDelete. induction s as [|z s IH]; [done|].
  intros [Hz Hs]%not_elem_of_cons. simpl.
  destruct (String.eqb_spec x z); [congruence|]. simpl. by rewrite IH.
Qed.

Lemma setDelete_length s x :
  NoDup s -> x ∈ s -> S (length (setDelete s x)) = length s.
Proof.
  unfold setDelete. induction 1 as [|y s Hy Hs IH]; intros Hx.
  - inversion Hx.
  - simpl. destruct (String.eqb_spec x y) as [->|Hne]; simpl.
    + f_equal. f_equal. by apply setDelete_absent.
    + f_equal. apply IH. apply elem_of_cons in Hx as [?|?]; [done|done].
Qed.

(** X6: [toggleSelect] flips the membership of the one identifier and of
    no other, so toggling twice gives back the same selection; it keeps the
    selection free of duplicates and changes its size by exactly one. *)
Theorem toggleSelect_flips orderId prev :
  (forall x,
     x ∈ toggleSelect orderId prev <->
     (x <> orderId /\ x ∈ prev) \/ (x = orderId /\ x ∉ prev))
  /\ (forall x,
        x ∈ toggleSelect orderId (toggleSelect orderId prev) <-> x ∈ prev)
  /\ (NoDup prev -> NoDup (toggleSelect orderId prev))
  /\ (orderId ∉ prev ->
      length (toggleSelect orderId prev) = S (length prev))
  /\ (NoDup prev -> orderId ∈ prev ->
      S (length (toggleSelect orderId prev)) = length prev).
Proof.
  assert (Hflip : forall s x,
            x ∈ toggleSelect orderId s <->
            (x <> orderId /\ x ∈ s) \/ (x = orderId /\ x ∉ s)).
  { intros s x. unfold toggleSelect. destruct (setHas s orderId) eqn:Hh.
    - apply setHas_spec in Hh. rewrite setDelete_elem.
      destruct (decide (x = orderId)); naive_solver.
    - assert (orderId ∉ s) by (rewrite <- setHas_spec; congruence).
      rewrite setAdd_elem. destruct (decide (x = orderId)); naive_solver. }
  split; [apply Hflip|]. split; [|split; [|split]].
  - intros x. rewrite !Hflip.
    destruct (decide (x = orderId)), (decide (x ∈ prev)); naive_solver.
  - intros Hnd. unfold toggleSelect. destruct (setHas prev orderId).
    + by apply setDelete_NoDup.
    + by apply setAdd_NoDup.
  - intros Hout. unfold toggleSelect, setAdd.
    assert (setHas prev orderId = false) as ->.
    { destruct (setHas prev orderId) eqn:Hh; [|done].
      by apply setHas_spec in Hh. }
    rewrite length_app. simpl. lia.
  - intros Hnd Hin. unfold toggleSelect.
    rewrite (proj2 (setHas_spec prev orderId) Hin).
    by apply setDelete_length.
Qed.

Lemma toggleSelect_flips_witness :
  S (length (toggleSelect "A100" ["A101"; "A100"])) = length ["A101"; "A100"].
Proof.
  apply (proj2 (proj2 (proj2 (proj2
           (toggleSelect_flips "A100" ["A101"; "A100"]))))).
  - apply NoDup_cons. split.
    + intros H. apply elem_of_cons in H as [H|H]; [discriminate|inversion H].
    + apply NoDup_singleton.
  - apply elem_of_cons. right. apply elem_of_cons. by left.
Defined.

Lemma selectPage_on_elem page sel x :
  x ∈ selectPage true page sel <-> x ∈ sel \/ x ∈ List.map order_id page.
Proof.
  unfold selectPage. revert sel.
  induction page as [|o page IH]; intros sel; simpl.
  - split; [by left|]. intros [?|Hx]; [done|inversion Hx].
  - rewrite IH, setAdd_elem, elem_of_cons. naive_solver.
Qed.

Lemma selectPage_off_elem page sel x :
  x ∈ selectPage false page sel <-> x ∈ sel /\ x ∉ List.map order_id page.
Proof.
  unfold selectPage. revert sel.
  induction page as [|o page IH]; intros sel; simpl.
  - split; [|by intros [? _]]. intros ?. split; [done|].
    intros Hx. inversion Hx.
  - rewrite IH, setDelete_elem, not_elem_of_cons. naive_solver.
Qed.

(** X7: ticking the header checkbox adds exactly the identifiers of the
    page to the selection and leaves it ticked; unticking removes exactly
    those and leaves it unticked; either way what was selected on other
    pages stays selected and no identifier is held twice. *)
Theorem selectPage_page page sel :
  (forall x, x ∈ selectPage true page sel <->
             x ∈ sel \/ x ∈ List.map order_id page)
  /\ (forall x, x ∈ selectPage false page sel <->
                x ∈ sel /\ x ∉ List.map order_id page)
  /\ (page <> [] ->
      pageChecked page (selectPage true page sel) = true
      /\ pageChecked page (selectPage false page sel) = false)
  /\ (NoDup sel ->
      NoDup (selectPage true page sel) /\ NoDup (selectPage false page sel)).
Proof.
  split; [apply selectPage_on_elem|]. split; [apply selectPage_off_elem|].
  split.
  - intros Hne. unfold pageChecked.
    destruct page as [|o page]; [done|]. cbn [length Nat.ltb Nat.leb andb].
    split.
    + apply forallb_forall. intros o' Ho'. apply setHas_spec.
      apply selectPage_on_elem. right. apply list_elem_of_In.
      by apply in_map.
    + cbn [forallb]. apply andb_false_iff. left.
      destruct (setHas _ _) eqn:Hh; [|done].
      apply setHas_spec, selectPage_off_elem in Hh as [_ Hh].
      exfalso. apply Hh. by left.
  - intros Hnd. unfold selectPage. split.
    + revert sel Hnd. induction page as [|o page IH]; intros sel Hnd;
        [done|]. simpl. by apply IH, setAdd_NoDup.
    + revert sel Hnd. induction page as [|o page IH]; intros sel Hnd;
        [done|]. simpl. by apply IH, setDelete_NoDup.
Qed.

Lemma selectPage_page_witness :
  pageChecked [sampleOrder "A100" None None]
    (selectPage true [sampleOrder "A100" None None] ["B7"]) = true
  /\ pageChecked [sampleOrder "A100" None None]
       (selectPage false [sampleOrder "A100" None None] ["B7"]) = false.
Proof.
  apply (proj1 (proj2 (proj2
           (selectPage_page [sampleOrder "A100" None None] ["B7"])))).
  discriminate.
Defined.

(** ** More on the refresh *)

Lemma refreshTry_store engine pk out st st1 :
  refreshTry engine pk out st = inr st1 ->
  loading st1 = loading st
  /\ forall st', exists st1',
       refreshTry engine pk out st' = inr st1'
       /\ orders st1' = orders st1 /\ totalOrders st1' = totalOrders st1.
Proof.
  unfold refreshTry. destruct out as [|res]; [discriminate|].
  destruct (negb (ok res)).
  { intros [= <-]. split; [done|]. intros st'. eauto. }
  destruct (body res) as [json|]; [|discriminate].
  destruct (listingData json) as [e|[|data|text|]]; try discriminate.
  destruct (filterOrders engine pk data) as [e|kept]; [discriminate|].
  intros [= <-]. split; [done|]. intros st'. eauto.
Qed.

Lemma refreshTry_raises engine pk out st st' e :
  refreshTry engine pk out st = inl e -> refreshTry engine pk out st' = inl e.
Proof.
  unfold refreshTry. destruct out as [|res]; [done|].
  destruct (negb (ok res)); [discriminate|].
  destruct (body res) as [json|]; [|done].
  destruct (listingData json) as [e'|[|data|text|]]; try done.
  destruct (filterOrders engine pk data) as [e'|kept]; [done|discriminate].
Qed.

Lemma refreshGuarded_replaces engine pk out st st' :
  refreshGuarded engine pk out st = refreshGuarded engine pk out st'.
Proof.
  unfold refreshGuarded.
  destruct (refreshTry engine pk out (setLoading true st)) as [e|st1] eqn:H1.
  - by rewrite (refreshTry_raises _ _ _ _ (setLoading true st') _ H1).
  - destruct (refreshTry_store _ _ _ _ _ H1) as [Hl Hrep].
    destruct (Hrep (setLoading true st')) as (st1' & -> & Ho & Ht).
    unfold setLoading. simpl. by rewrite Ho, Ht.
Qed.

(** X8: a refresh replaces the page wholesale: the records and the total
    it leaves do not depend on what the store held before, so refreshing
    twice with the same answer is refreshing once; with a token the
    loading flag is down afterwards. *)
Theorem fetchGenesisOrders_replaces engine pk token out st st' :
  orders (fetchGenesisOrders engine pk token out st)
    = orders (fetchGenesisOrders engine pk token out st')
  /\ totalOrders (fetchGenesisOrders engine pk token out st)
     = totalOrders (fetchGenesisOrders engine pk token out st')
  /\ fetchGenesisOrders engine pk token out
       (fetchGenesisOrders engine pk token out st)
     = fetchGenesisOrders engine pk token out st
  /\ GenesisOnly.fetchGenesisOrders engine out st
     = GenesisOnly.fetchGenesisOrders engine out st'
  /\ (truthy token = true ->
      loading (fetchGenesisOrders engine pk token out st) = false).
Proof.
  unfold GenesisOnly.fetchGenesisOrders, fetchGenesisOrders.
  destruct (negb (truthy token)) eqn:Ht; simpl.
  - split; [done|]. split; [done|]. split; [done|].
    split; [apply refreshGuarded_replaces|].
    intros Hc. rewrite Hc in Ht. discriminate.
  - rewrite (refreshGuarded_replaces engine pk out st st').
    split; [done|]. split; [done|].
    split; [apply refreshGuarded_replaces|].
    split; [apply refreshGuarded_replaces|].
    intros _. unfold refreshGuarded. done.
Qed.

Lemma fetchGenesisOrders_replaces_witness :
  loading (fetchGenesisOrders engineNone "genesis" "tok" serverError
             {| orders := []; totalOrders := 0; loading := true |}) = false.
Proof.
  apply (proj2 (proj2 (proj2 (proj2
           (fetchGenesisOrders_replaces engineNone "genesis" "tok" serverError
              {| orders := []; totalOrders := 0; loading := true |}
              {| orders := []; totalOrders := 0; loading := true |}))))).
  reflexivity.
Defined.

Lemma filterOrders_rows engine pk rows :
  filterOrders engine pk (List.map Some rows)
  = inr (List.filter (keepOrder engine pk) rows).
Proof.
  induction rows as [|o rows IH]; simpl; [done|]. by rewrite IH.
Qed.

Lemma filterOrders_kept engine pk data kept :
  filterOrders engine pk data = inr kept ->
  (length kept <= length data)%nat
  /\ forall o, o ∈ kept -> keepOrder engine pk o = true /\ Some o ∈ data.
Proof.
  revert kept. induction data as [|[o|] data IH]; intros kept; simpl.
  - intros [= <-]. split; [done|]. intros o H. inversion H.
  - destruct (filterOrders engine pk data) as [e|kept']; [discriminate|].
    destruct (IH kept' eq_refl) as [Hlen Hin].
    destruct (keepOrder engine pk o) eqn:Hk; intros [= <-].
    + split; [simpl; lia|]. intros o' [->|Ho']%elem_of_cons.
      * split; [done|by left].
      * destruct (Hin o' Ho'). split; [done|by right].
    + split; [lia|]. intros o' Ho'. destruct (Hin o' Ho').
      split; [done|by right].
  - discriminate.
Qed.

Lemma keepOrder_trimOrder engine pk o :
  keepOrder engine pk (trimOrder o) = keepOrder engine pk o.
Proof. done. Qed.

Lemma sortedRecords_perm engine kept :
  sortedRecords engine kept ≡ₚ List.map trimOrder kept.
Proof.
  unfold sortedRecords.
  change (comparePrintSentAt engine) with (descendingBy (sortKey engine)).
  apply sortBy_perm.
Qed.

(** X9: whatever the listing answers, every record a refresh stores is a
    record of texts that belongs to the page's printer (compared without
    regard to case) and is not a test order.  When the listing decodes to
    rows, the stored records are exactly the trimmed rows that pass that
    test, the total is the server's when it sends a number and the number
    of rows received otherwise, and never fewer rows were received than
    are stored.  On ASCII texts the test does not depend on the host: the
    printers agree up to the case of the letters A to Z and the identifier
    does not start with [TEST#] in any case. *)
Theorem fetchGenesisOrders_filter engine pk token out st :
  (forall s,
     s ∈ orders (fetchGenesisOrders engine pk token out st) ->
     exists o, s = Plain o /\ keepOrder engine pk o = true)
  /\ (forall code json rows,
        truthy token = true ->
        out = okJson code json ->
        listingData json = inr (ItemsArray (List.map Some rows)) ->
        orders (fetchGenesisOrders engine pk token out st)
          ≡ₚ List.map Plain
               (List.map trimOrder (List.filter (keepOrder engine pk) rows))
        /\ totalOrders (fetchGenesisOrders engine pk token out st)
           = totalOf json (List.map Some rows)
        /\ (length (orders (fetchGenesisOrders engine pk token out st))
            <= length rows)%nat)
  /\ (forall o,
        isAscii (orEmpty (printer o)) = true -> isAscii pk = true ->
        isAscii (order_id o) = true ->
        keepOrder engine pk o
        = String.eqb (asciiLowerCase (orEmpty (printer o)))
            (asciiLowerCase pk)
          && negb (startsWith (asciiUpperCase (order_id o)) "TEST#")).
Proof.
  split; [|split].
  - intros s. unfold fetchGenesisOrders, refreshGuarded, refreshTry.
    destruct (negb (truthy token)); simpl; [by intros Hx; inversion Hx|].
    destruct out as [|res]; simpl; [by intros Hx; inversion Hx|].
    destruct (negb (ok res)); simpl; [by intros Hx; inversion Hx|].
    destruct (body res) as [json|]; simpl; [|by intros Hx; inversion Hx].
    destruct (listingData json) as [e|[|data|text|]]; simpl;
      try (by intros Hx; inversion Hx).
    destruct (filterOrders engine pk data) as [e|kept] eqn:Hf; simpl;
      [by intros Hx; inversion Hx|].
    intros Hs. apply list_elem_of_In, in_map_iff in Hs as (o & <- & Ho).
    exists o. split; [done|].
    apply list_elem_of_In in Ho. rewrite sortedRecords_perm in Ho.
    apply list_elem_of_In, in_map_iff in Ho as (o' & <- & Ho').
    rewrite keepOrder_trimOrder.
    apply (filterOrders_kept _ _ _ _ Hf). by apply list_elem_of_In.
  - intros code json rows Ht -> Hd. unfold okJson.
    rewrite (fetchGenesisOrders_loaded engine pk token code json _ _ st Ht Hd
               (filterOrders_rows engine pk rows)). simpl.
    split; [by rewrite sortedRecords_perm|]. split; [done|].
    rewrite length_map, sortedRecords_perm, length_map.
    apply List.filter_length_le.
  - intros o Hp Hk Hi. unfold keepOrder, toLowerCase, toUpperCase.
    by rewrite Hp, Hk, Hi.
Qed.

Lemma fetchGenesisOrders_filter_witness :
  let rows := [sampleOrder "TEST#1" None None; sampleOrder "A100" None None] in
  let st := {| orders := []; totalOrders := 0; loading := false |} in
  orders (fetchGenesisOrders engineNone "Genesis" "tok"
            (okJson 200 (JsonArray (List.map Some rows))) st)
    ≡ₚ List.map Plain
         (List.map trimOrder
            (List.filter (keepOrder engineNone "Genesis") rows))
  /\ totalOrders (fetchGenesisOrders engineNone "Genesis" "tok"
                    (okJson 200 (JsonArray (List.map Some rows))) st)
     = totalOf (JsonArray (List.map Some rows)) (List.map Some rows)
  /\ (length (orders (fetchGenesisOrders engineNone "Genesis" "tok"
                        (okJson 200 (JsonArray (List.map Some rows))) st))
      <= length rows)%nat.
Proof.
  intros rows st.
  apply (proj1 (proj2 (fetchGenesisOrders_filter engineNone "Genesis" "tok"
                  (okJson 200 (JsonArray (List.map Some rows))) st))
           200 (JsonArray (List.map Some rows)) rows); reflexivity.
Defined.

Lemma filterOrders_null engine pk data :
  None ∈ data -> filterOrders engine pk data = inl TypeError.
Proof.
  induction data as [|[o|] data IH]; intros Hn.
  - inversion Hn.
  - apply elem_of_cons in Hn as [?|Hn]; [discriminate|].
    simpl. by rewrite (IH Hn).
  - done.
Qed.

Lemma buildMap_skips_null data m :
  buildMap data m
  = buildMap (List.filter (fun d => match d with Some _ => true | None => false end) data) m.
Proof.
  revert m. induction data as [|[o|] data IH]; intros m; simpl; auto.
  by destruct (truthy (order_id o)).
Qed.

(** X10: a single null entry in the listing costs a refresh the whole
    page (the store ends empty, total zero), while a poll attempt just
    skips it: its lookup is the one of the listing without the null
    entries. *)
Theorem null_entry_refresh_and_poll engine pk token code json data st :
  listingData json = inr (ItemsArray data) ->
  None ∈ data ->
  orders (fetchGenesisOrders engine pk token (okJson code json) st) = []
  /\ totalOrders (fetchGenesisOrders engine pk token (okJson code json) st)
     = 0
  /\ listingLookup (okJson code json)
     = Some (buildMap
               (List.filter
                  (fun d => match d with Some _ => true | None => false end)
                  data) ∅).
Proof.
  intros Hd Hn. split; [|split].
  - unfold fetchGenesisOrders, refreshGuarded, refreshTry, okJson; simpl.
    rewrite Hd, (filterOrders_null engine pk data Hn).
    by destruct (negb (truthy token)).
  - unfold fetchGenesisOrders, refreshGuarded, refreshTry, okJson; simpl.
    rewrite Hd, (filterOrders_null engine pk data Hn).
    by destruct (negb (truthy token)).
  - unfold listingLookup, okJson; simpl. rewrite Hd. simpl.
    by rewrite <- buildMap_skips_null.
Qed.

Lemma null_entry_refresh_and_poll_witness :
  let data := [Some (sampleOrder "A100" (Some url1) None); None] in
  let st := {| orders := [Plain (sampleOrder "A100" None None)]; totalOrders := 1;
               loading := false |} in
  orders (fetchGenesisOrders engineNone "genesis" "tok"
            (okJson 200 (JsonArray data)) st) = []
  /\ totalOrders (fetchGenesisOrders engineNone "genesis" "tok"
                    (okJson 200 (JsonArray data)) st) = 0
  /\ listingLookup (okJson 200 (JsonArray data))
     = Some (buildMap
               (List.filter
                  (fun d => match d with Some _ => true | None => false end)
                  data) ∅).
Proof.
  intros data st.
  apply (null_entry_refresh_and_poll engineNone "genesis" "tok" 200
           (JsonArray data) data st).
  - reflexivity.
  - apply elem_of_cons. right. apply elem_of_cons. by left.
Defined.

(** ** More on polling *)

Lemma pollLoop_step_complete env ids iv n k st :
  pollLoop env ids iv (S n) k st
  = if completeAt env ids k
    then (inr EarlyExit,
          {| result := match listingLookup (env k) with
                       | Some m => markedResult m ids (proto st) (result st)
                       | None => result st
                       end;
             proto := proto st;
             log := log st ++ [EvFetch k] |})
    else pollLoop env ids iv n (S k)
           {| result := match listingLookup (env k) with
                        | Some m => markedResult m ids (proto st) (result st)
                        | None => result st
                        end;
              proto := proto st;
              log := log st
                     ++ match listingLookup (env k) with
                        | Some _ => [EvFetch k; EvSleep iv]
                        | None => [EvFetch k; failureEvent (env k);
                                   EvSleep iv]
                        end |}.
Proof.
  rewrite pollLoop_step. unfold completeAt.
  destruct (listingLookup (env k)) as [m|]; [|done].
  by destruct (allLabelled m ids).
Qed.

Lemma pollLoop_first_complete env ids iv n k st :
  exists o st' tr,
    pollLoop env ids iv n k st = (inr o, st')
    /\ log st' = log st ++ tr
    /\ (o = EarlyExit ->
        exists j, (k <= j < k + n)%nat
                  /\ completeAt env ids j = true
                  /\ (forall i, (k <= i < j)%nat ->
                                completeAt env ids i = false)
                  /\ polls tr = S (j - k))
    /\ (o = Exhausted ->
        forall j, (k <= j < k + n)%nat -> completeAt env ids j = false).
Proof.
  revert k st. induction n as [|n IH]; intros k st.
  - exists Exhausted, st, []. simpl. unfold ret. rewrite app_nil_r.
    split; [done|]. split; [done|]. split; [discriminate|]. intros _ j. lia.
  - rewrite pollLoop_step_complete.
    destruct (completeAt env ids k) eqn:Hk.
    + eexists EarlyExit, _, [EvFetch k]. split; [done|]. split; [done|].
      split; [|discriminate]. intros _. exists k.
      split; [lia|]. split; [done|]. split; [intros; lia|].
      rewrite Nat.sub_diag. reflexivity.
    + match goal with
      | |- context [pollLoop env ids iv n (S k) ?s] =>
          destruct (IH (S k) s) as (o & st' & tr & Hrun & Hlog & He & Hx)
      end.
      simpl in Hlog.
      assert (Hhead : exists hd, polls hd = 1%nat
                /\ log st' = log st ++ hd ++ tr).
      { destruct (listingLookup (env k)).
        - exists [EvFetch k; EvSleep iv]. split; [done|].
          by rewrite Hlog, <- app_assoc.
        - exists [EvFetch k; failureEvent (env k); EvSleep iv]. split.
          + rewrite !polls_cons.
            destruct (failureEvent_quiet (env k)) as (-> & _ & _). done.
          + by rewrite Hlog, <- app_assoc. }
      destruct Hhead as (hd & Hp & Hlog').
      exists o, st', (hd ++ tr). split; [done|]. split; [done|]. split.
      * intros Ho. destruct (He Ho) as (j & Hj & Hc & Hfirst & Hpolls).
        exists j. split; [lia|]. split; [done|]. split.
        -- intros i Hi. destruct (decide (i = k)) as [->|]; [done|].
           apply Hfirst. lia.
        -- rewrite polls_app, Hp, Hpolls. lia.
      * intros Ho j Hj. destruct (decide (j = k)) as [->|]; [done|].
        apply (Hx Ho). lia.
Qed.

(** X11: a run returns early exactly when some attempt within the budget
    gets a listing that by itself has a label for every target, and then
    it has made as many requests as it took to reach the first such
    attempt; labels gathered over several attempts do not end a run. *)
Theorem pollForLabels_early_iff env ids iv max :
  ((pollForLabels env ids iv max).1 = inr EarlyExit <->
   exists k, (k < max)%nat /\ completeAt env ids k = true)
  /\ (forall k,
        (k < max)%nat ->
        completeAt env ids k = true ->
        (forall i, (i < k)%nat -> completeAt env ids i = false) ->
        (pollForLabels env ids iv max).1 = inr EarlyExit
        /\ polls (log (pollForLabels env ids iv max).2) = S k).
Proof.
  destruct (pollForLabels_start env ids iv max) as (r0 & -> & _).
  destruct (pollLoop_first_complete env ids iv max 0
              {| result := r0; proto := protoAfter ids; log := [] |})
    as (o & st' & tr & -> & Hlog & He & Hx).
  simpl in *. subst tr. split.
  - split.
    + intros [= ->]. destruct (He eq_refl) as (j & Hj & Hc & _).
      exists j. split; [lia|done].
    + intros (k & Hk & Hc). destruct o; [done|].
      rewrite (Hx eq_refl k) in Hc; [discriminate|lia].
  - intros k Hk Hc Hfirst. destruct o.
    + split; [done|]. destruct (He eq_refl) as (j & Hj & Hcj & Hfj & ->).
      f_equal. destruct (Nat.lt_trichotomy j k) as [Hlt|[->|Hgt]].
      * rewrite (Hfirst j Hlt) in Hcj. discriminate.
      * lia.
      * rewrite (Hfj k) in Hc; [discriminate|lia].
    + rewrite (Hx eq_refl k) in Hc; [discriminate|lia].
Qed.

Lemma pollForLabels_early_iff_witness :
  (pollForLabels envStaggered ["A100"; "A101"] 2000 3).1 = inr EarlyExit
  /\ polls (log (pollForLabels envStaggered ["A100"; "A101"] 2000 3).2)
     = 3%nat.
Proof.
  apply (proj2 (pollForLabels_early_iff envStaggered ["A100"; "A101"]
                  2000 3) 2%nat).
  - lia.
  - vm_compute. reflexivity.
  - intros [|[|i]] Hi; [vm_compute; reflexivity..|lia].
Defined.

Lemma pollLoop_labels env ids iv n k st :
  exists o st',
    pollLoop env ids iv n k st = (inr o, st')
    /\ forall id l,
         result st' !! id = Some (Some l) ->
         result st !! id = Some (Some l)
         \/ (id ∈ ids /\ truthy l = true
             /\ exists j m, (k <= j < k + n)%nat
                            /\ listingLookup (env j) = Some m
                            /\ mapGet m id = Some l).
Proof.
  revert k st. induction n as [|n IH]; intros k st.
  - exists Exhausted, st. split; [done|]. auto.
  - rewrite pollLoop_step.
    destruct (listingLookup (env k)) as [m|] eqn:Hm.
    + assert (Hmark : forall id l,
                markedResult m ids (proto st) (result st) !! id
                  = Some (Some l) ->
                result st !! id = Some (Some l)
                \/ (id ∈ ids /\ truthy l = true /\ mapGet m id = Some l)).
      { intros id l Hl.
        destruct (markedResult_origin _ _ _ _ _ _ Hl) as [?|(Hin & Ht & Hv)];
          [by left|].
        right. rewrite <- Hv in Ht. auto. }
      destruct (allLabelled m ids).
      * eexists _, _. split; [done|]. simpl. intros id l Hl.
        destruct (Hmark id l Hl) as [?|(? & ? & ?)]; [by left|right].
        split; [done|]. split; [done|]. exists k, m. split; [lia|done].
      * match goal with
        | |- context [pollLoop env ids iv n (S k) ?s] =>
            destruct (IH (S k) s) as (o & st' & -> & Hl)
        end.
        exists o, st'. split; [done|]. simpl in Hl. intros id l Hid.
        destruct (Hl id l Hid) as [Hold|(? & ? & j & m' & ? & ? & ?)].
        -- destruct (Hmark id l Hold) as [?|(? & ? & ?)]; [by left|right].
           split; [done|]. split; [done|]. exists k, m. split; [lia|done].
        -- right. split; [done|]. split; [done|]. exists j, m'.
           split; [lia|done].
    + match goal with
      | |- context [pollLoop env ids iv n (S k) ?s] =>
          destruct (IH (S k) s) as (o & st' & -> & Hl)
      end.
      exists o, st'. split; [done|]. simpl in Hl. intros id l Hid.
      destruct (Hl id l Hid) as [?|(? & ? & j & m' & ? & ? & ?)];
        [by left|right].
      split; [done|]. split; [done|]. exists j, m'. split; [lia|done].
Qed.

(** X12: the result invents nothing: every label in the map a run returns
    is non-empty, belongs to a target, and is the label some attempt within
    the budget found for that very identifier in its listing. *)
Theorem pollForLabels_labels_reported env ids iv max id l :
  result (pollForLabels env ids iv max).2 !! id = Some (Some l) ->
  id ∈ ids
  /\ truthy l = true
  /\ exists k m, (k < max)%nat
                 /\ listingLookup (env k) = Some m
                 /\ mapGet m id = Some l.
Proof.
  destruct (pollForLabels_start env ids iv max)
    as (r0 & -> & _ & _ & Hnull & _).
  destruct (pollLoop_labels env ids iv max 0
              {| result := r0; proto := protoAfter ids; log := [] |})
    as (o & st' & -> & Hl).
  simpl in *. intros Hid.
  destruct (Hl id l Hid) as [Hold|(? & ? & k & m & ? & ? & ?)].
  - by apply Hnull in Hold.
  - split; [done|]. split; [done|]. exists k, m. split; [lia|done].
Qed.

Lemma pollForLabels_labels_reported_witness :
  "A100" ∈ ["A100"; "A101"]
  /\ truthy url1 = true
  /\ exists k m, (k < 3)%nat
                 /\ listingLookup (envPartial k) = Some m
                 /\ mapGet m "A100" = Some url1.
Proof.
  apply (pollForLabels_labels_reported envPartial ["A100"; "A101"] 2000 3).
  vm_compute. reflexivity.
Defined.

(** *** A run, attempt by attempt *)

(** A loop with budget left starts by sending the request of its
    attempt. *)
Lemma pollLoop_head env ids iv n k st :
  exists rest,
    log (pollLoop env ids iv (S n) k st).2 = log st ++ EvFetch k :: rest.
Proof.
  rewrite pollLoop_step_complete.
  destruct (completeAt env ids k).
  - exists []. done.
  - match goal with
    | |- context [pollLoop env ids iv n (S k) ?s] =>
        destruct (pollLoop_paced env ids iv n (S k) s)
          as (o & st' & tr & -> & Hlog & _)
    end.
    simpl in *. rewrite Hlog.
    destruct (listingLookup (env k)); eexists; by rewrite <- app_assoc.
Qed.

(** As long as no attempt is complete the loop goes on: its first [k]
    attempts are the run with budget [k], and the rest of the budget is
    spent from where that run stops. *)
Lemma pollLoop_resume env ids iv k n a st :
  (forall i, (a <= i < a + k)%nat -> completeAt env ids i = false) ->
  (pollLoop env ids iv k a st).1 = inr Exhausted
  /\ polls (log (pollLoop env ids iv k a st).2) = (polls (log st) + k)%nat
  /\ pollLoop env ids iv (k + n) a st
     = pollLoop env ids iv n (a + k) (pollLoop env ids iv k a st).2.
Proof.
  revert a st. induction k as [|k IH]; intros a st Hno.
  - simpl. unfold ret. simpl. rewrite !Nat.add_0_r. done.
  - change (S k + n)%nat with (S (k + n)).
    rewrite !pollLoop_step_complete, (Hno a) by lia.
    match goal with
    | |- context [pollLoop env ids iv k (S a) ?s] =>
        destruct (IH (S a) s) as (Hx & Hp & Hrun)
    end.
    { intros i Hi. apply Hno. lia. }
    split; [done|]. split.
    + rewrite Hp. simpl. rewrite polls_app.
      destruct (listingLookup (env a)).
      * unfold polls. simpl. lia.
      * rewrite !polls_cons.
        destruct (failureEvent_quiet (env a)) as (-> & _ & _).
        unfold polls. simpl. lia.
    + rewrite Hrun. f_equal. lia.
Qed.

Lemma pollForLabels_resume env ids iv max k :
  (k <= max)%nat ->
  (forall i, (i < k)%nat -> completeAt env ids i = false) ->
  (pollForLabels env ids iv k).1 = inr Exhausted
  /\ polls (log (pollForLabels env ids iv k).2) = k
  /\ pollForLabels env ids iv max
     = pollLoop env ids iv (max - k) k (pollForLabels env ids iv k).2.
Proof.
  intros Hk Hno.
  destruct (pollForLabels_start_state env ids iv max k)
    as (s0 & -> & -> & Hlog).
  destruct (pollLoop_resume env ids iv k (max - k) 0 s0) as (Hx & Hp & Hrun).
  { intros i Hi. apply Hno. lia. }
  split; [done|]. split.
  - rewrite Hp, Hlog. done.
  - replace max with (k + (max - k))%nat at 1 by lia. by rewrite Hrun.
Qed.

(** An attempt that is not complete, seen from the run: what the run with
    one attempt more adds to the run up to it, and how the whole run goes
    on from there. *)
Lemma pollForLabels_incomplete_attempt env ids iv max k :
  (k < max)%nat ->
  (forall i, (i < k)%nat -> completeAt env ids i = false) ->
  completeAt env ids k = false ->
  (pollForLabels env ids iv (S k)).1 = inr Exhausted
  /\ (pollForLabels env ids iv (S k)).2
     = {| result :=
            match listingLookup (env k) with
            | Some m =>
                markedResult m ids (proto (pollForLabels env ids iv k).2)
                  (result (pollForLabels env ids iv k).2)
            | None => result (pollForLabels env ids iv k).2
            end;
          proto := proto (pollForLabels env ids iv k).2;
          log := log (pollForLabels env ids iv k).2
                 ++ match listingLookup (env k) with
                    | Some _ => [EvFetch k; EvSleep iv]
                    | None => [EvFetch k; failureEvent (env k); EvSleep iv]
                    end |}
  /\ pollForLabels env ids iv max
     = pollLoop env ids iv (max - S k) (S k) (pollForLabels env ids iv (S k)).2
  /\ (exists o, (pollForLabels env ids iv max).1 = inr o)
  /\ ((S k < max)%nat ->
      exists rest,
        log (pollForLabels env ids iv max).2
        = log (pollForLabels env ids iv (S k)).2 ++ EvFetch (S k) :: rest)
  /\ (S k = max -> (pollForLabels env ids iv max).1 = inr Exhausted)
  /\ (forall id l,
        result (pollForLabels env ids iv (S k)).2 !! id = Some (Some l) ->
        exists l', result (pollForLabels env ids iv max).2 !! id
                   = Some (Some l')).
Proof.
  intros Hk Hno Hck.
  assert (HnoS : forall i, (i < S k)%nat -> completeAt env ids i = false).
  { intros i Hi. destruct (decide (i = k)) as [->|]; [done|].
    apply Hno. lia. }
  destruct (pollForLabels_resume env ids iv (S k) k ltac:(lia) Hno)
    as (_ & _ & HrunS).
  destruct (pollForLabels_resume env ids iv max (S k) ltac:(lia) HnoS)
    as (Hx & _ & Hrun).
  replace (S k - k)%nat with 1%nat in HrunS by lia.
  rewrite pollLoop_step_complete, Hck in HrunS. simpl in HrunS.
  unfold ret in HrunS.
  split; [done|]. split; [by rewrite HrunS|]. split; [done|].
  destruct (pollLoop_returns env ids iv (max - S k) (S k)
              (pollForLabels env ids iv (S k)).2)
    as (o & st' & Hret & Hkeep & _).
  split; [exists o; by rewrite Hrun, Hret|]. split; [|split].
  - intros Hlt. rewrite Hrun.
    replace (max - S k)%nat with (S (max - S (S k))) by lia.
    apply pollLoop_head.
  - intros <-. done.
  - intros id l Hl. rewrite Hrun, Hret. simpl. by apply (Hkeep id l).
Qed.

(** C5: a request that rejects, is answered non-OK or does not decode
    neither ends the run nor touches the result.  When the run reaches
    attempt [k] and that attempt fails so, the attempt adds its request,
    its console message and the usual delay to the log and nothing to the
    result; the run goes on from attempt [k + 1] with the rest of the
    budget, so the next request is sent whenever the budget allows one;
    the run returns; and every label found before is still in the map it
    returns. *)
Theorem pollForLabels_survives_failure env ids iv max k :
  (k < max)%nat ->
  (forall i, (i < k)%nat -> completeAt env ids i = false) ->
  transportFailure (env k) = true ->
  polls (log (pollForLabels env ids iv k).2) = k
  /\ (pollForLabels env ids iv (S k)).2
     = {| result := result (pollForLabels env ids iv k).2;
          proto := proto (pollForLabels env ids iv k).2;
          log := log (pollForLabels env ids iv k).2
                 ++ [EvFetch k; failureEvent (env k); EvSleep iv] |}
  /\ pollForLabels env ids iv max
     = pollLoop env ids iv (max - S k) (S k) (pollForLabels env ids iv (S k)).2
  /\ ((S k < max)%nat ->
      exists rest,
        log (pollForLabels env ids iv max).2
        = log (pollForLabels env ids iv k).2
          ++ [EvFetch k; failureEvent (env k); EvSleep iv; EvFetch (S k)]
          ++ rest)
  /\ (S k = max ->
      pollForLabels env ids iv max
      = (inr Exhausted, (pollForLabels env ids iv (S k)).2))
  /\ (exists o, (pollForLabels env ids iv max).1 = inr o)
  /\ (forall id l,
        result (pollForLabels env ids iv k).2 !! id = Some (Some l) ->
        exists l', result (pollForLabels env ids iv max).2 !! id
                   = Some (Some l')).
Proof.
  intros Hk Hno Hfail.
  pose proof (transportFailure_no_lookup _ Hfail) as Hlook.
  assert (Hck : completeAt env ids k = false)
    by (unfold completeAt; by rewrite Hlook).
  destruct (pollForLabels_resume env ids iv max k ltac:(lia) Hno)
    as (_ & Hpolls & _).
  destruct (pollForLabels_incomplete_attempt env ids iv max k Hk Hno Hck)
    as (_ & Hafter & Hrun & Hret & Hnext & Hlast & Hkeep).
  rewrite Hlook in Hafter.
  split; [done|]. split; [done|]. split; [done|]. split; [|split; [|split]].
  - intros Hlt. destruct (Hnext Hlt) as (rest & Hlog).
    exists rest. rewrite Hlog, Hafter. simpl. by rewrite <- app_assoc.
  - intros Hmax. rewrite Hrun. subst max.
    by rewrite Nat.sub_diag.
  - done.
  - intros id l Hl. apply (Hkeep id l). by rewrite Hafter.
Qed.

Lemma pollForLabels_survives_failure_witness :
  exists rest,
    log (pollForLabels envFlaky ["A100"; "A101"] 2000 3).2
    = log (pollForLabels envFlaky ["A100"; "A101"] 2000 1).2
      ++ [EvFetch 1; failureEvent (envFlaky 1); EvSleep 2000; EvFetch 2]
      ++ rest.
Proof.
  destruct (pollForLabels_survives_failure envFlaky ["A100"; "A101"]
              2000 3 1) as (_ & _ & _ & Hnext & _).
  - lia.
  - intros i Hi. assert (i = 0%nat) as -> by lia. vm_compute. reflexivity.
  - reflexivity.
  - apply Hnext. lia.
Defined.

Lemma markedResult_untouched m ids p r id :
  truthyOpt (mapGet m id) = false ->
  markedResult m ids p r !! id = r !! id.
Proof.
  intros Ht. revert r. induction ids as [|i ids IH]; intros r; simpl; [done|].
  rewrite IH.
  destruct (truthyOpt (mapGet m i) && negb (viaSetter r p i)) eqn:Hc;
    [|done].
  apply andb_true_iff in Hc as [Hi _].
  rewrite lookup_insert_ne; [done|]. intros ->. congruence.
Qed.

(** C10: an empty label counts as no label.  Turning every empty label of
    a listing into an absent one changes neither what a refresh stores nor
    how a polling run goes; a refresh stores the empty string for either,
    every stored record being the trimmed form of a listed one.  When a
    run reaches an attempt whose listing has nothing usable for a target,
    that attempt does not end the run and leaves the target's entry as it
    was: after the request and the delay the run sends the next request
    if the budget allows one, and is otherwise over with the budget used
    up.  The patch treats an empty entry of the poll result like [null]
    and, when it does change a record, the label it writes is not
    empty. *)
Theorem blank_label_is_no_label :
  (forall engine pk token out st,
     fetchGenesisOrders engine pk token (withoutBlankLabels out) st
       = fetchGenesisOrders engine pk token out st
     /\ GenesisOnly.fetchGenesisOrders engine (withoutBlankLabels out) st
        = GenesisOnly.fetchGenesisOrders engine out st)
  /\ (forall o, truthyOpt (label_url o) = false ->
                label_url (trimOrder o) = Some "")
  /\ (forall engine filtered o',
        o' ∈ sortedRecords engine filtered ->
        exists o, o ∈ filtered /\ o' = trimOrder o
                  /\ label_url o' = Some (orEmpty (label_url o)))
  /\ (forall env ids iv max,
        pollForLabels (fun k => withoutBlankLabels (env k)) ids iv max
          = pollForLabels env ids iv max)
  /\ (forall env ids iv max k m id,
        (k < max)%nat ->
        (forall i, (i < k)%nat -> completeAt env ids i = false) ->
        listingLookup (env k) = Some m ->
        id ∈ ids ->
        truthyOpt (mapGet m id) = false ->
        (pollForLabels env ids iv (S k)).1 = inr Exhausted
        /\ log (pollForLabels env ids iv (S k)).2
           = log (pollForLabels env ids iv k).2 ++ [EvFetch k; EvSleep iv]
        /\ result (pollForLabels env ids iv (S k)).2 !! id
           = result (pollForLabels env ids iv k).2 !! id
        /\ pollForLabels env ids iv max
           = pollLoop env ids iv (max - S k) (S k)
               (pollForLabels env ids iv (S k)).2
        /\ ((S k < max)%nat ->
            exists rest,
              log (pollForLabels env ids iv max).2
              = log (pollForLabels env ids iv k).2
                ++ [EvFetch k; EvSleep iv; EvFetch (S k)] ++ rest)
        /\ (S k = max -> (pollForLabels env ids iv max).1 = inr Exhausted))
  /\ (forall pollResult p st,
        shipNowPatch (blankToAbsent <$> pollResult) p st
          = shipNowPatch pollResult p st)
  /\ (forall pollResult p st i s s',
        orders st !! i = Some s ->
        orders (shipNowPatch pollResult p st) !! i = Some s' ->
        s' = s
        \/ (exists member, s' = Overwritten (fieldsOf s) member)
        \/ (exists o', s' = Plain o' /\ truthyOpt (label_url o') = true)).
Proof.
  split; [|split; [|split; [|split; [|split; [|split]]]]].
  - intros engine pk token out st.
    unfold GenesisOnly.fetchGenesisOrders, fetchGenesisOrders, refreshGuarded.
    by rewrite !refreshTry_withoutBlankLabels.
  - intros o Ht. simpl. by destruct (label_url o) as [[|c s]|].
  - intros engine filtered o' Ho'. unfold sortedRecords in Ho'.
    change (comparePrintSentAt engine) with (descendingBy (sortKey engine))
      in Ho'.
    rewrite sortBy_perm in Ho'. apply list_elem_of_In, in_map_iff in Ho'
      as (o & <- & Ho). exists o. split; [by apply list_elem_of_In|done].
  - intros env ids iv max. unfold pollForLabels, bind.
    destruct (initResult ids _) as [[e|[]] st0]; [done|].
    apply pollLoop_withoutBlankLabels.
  - intros env ids iv max k m id Hk Hno Hm Hid Ht.
    assert (Hck : completeAt env ids k = false).
    { unfold completeAt. rewrite Hm.
      destruct (allLabelled m ids) eqn:Ha; [|done].
      rewrite allLabelled_true in Ha. rewrite (Ha id Hid) in Ht.
      discriminate. }
    destruct (pollForLabels_incomplete_attempt env ids iv max k Hk Hno Hck)
      as (Hx & Hafter & Hrun & _ & Hnext & Hlast & _).
    rewrite Hm in Hafter.
    split; [done|]. split; [by rewrite Hafter|]. split.
    { rewrite Hafter. simpl. by apply markedResult_untouched. }
    split; [done|]. split; [|done].
    intros Hlt. destruct (Hnext Hlt) as (rest & Hlog).
    exists rest. rewrite Hlog, Hafter. simpl. by rewrite <- app_assoc.
  - intros pollResult p st. unfold shipNowPatch. f_equal.
    apply List.map_ext. apply patchOrder_blankToAbsent.
  - intros pollResult p st i s s' Hi Hi'. unfold shipNowPatch in Hi'.
    simpl in Hi'. rewrite lookup_map, Hi in Hi'. injection Hi' as <-.
    rewrite patchOrder_cases.
    destruct (readsInherited pollResult p (shownId s)); [right; left; eauto|].
    unfold reportedLabel.
    destruct (truthyOpt (mapGet pollResult (shownId s))) eqn:Ht; [|by left].
    destruct (mapGet pollResult (shownId s)) as [l|]; [|done].
    right. right. eexists. split; [done|]. done.
Qed.

Lemma blank_label_is_no_label_witness :
  exists rest,
    log (pollForLabels envNever ["A100"; "A101"] 3000 2).2
    = log (pollForLabels envNever ["A100"; "A101"] 3000 0).2
      ++ [EvFetch 0; EvSleep 3000; EvFetch 1] ++ rest.
Proof.
  destruct (proj1 (proj2 (proj2 (proj2 (proj2 blank_label_is_no_label))))
              envNever ["A100"; "A101"] 3000%nat 2%nat 0%nat
              (buildMap [Some (sampleOrder "A100" None None);
                         Some (sampleOrder "A101" (Some "") None)] ∅)
              "A101") as (_ & _ & _ & _ & Hnext & _).
  - lia.
  - intros i Hi. lia.
  - reflexivity.
  - apply elem_of_cons. right. apply elem_of_cons. by left.
  - vm_compute. reflexivity.
  - apply Hnext. lia.
Defined.

(** X25: the keys of the object a run returns are targets, and every
    target other than [__proto__] is a key, whatever the listing answers
    and however the run ends; so the keys are exactly the targets when
    [__proto__] is not one of them.  The object keeps the prototype of
    every object unless [__proto__] is a target, and has none at all if
    it is. *)
Theorem pollForLabels_own_keys env ids iv max :
  exists o st,
    pollForLabels env ids iv max = (inr o, st)
    /\ dom (result st) ⊆ list_to_set ids
    /\ (forall id, id ∈ ids -> id <> "__proto__" -> id ∈ dom (result st))
    /\ ("__proto__" ∉ ids ->
        dom (result st) = list_to_set ids /\ proto st = ObjectPrototype)
    /\ ("__proto__" ∈ ids -> proto st = NullPrototype).
Proof.
  destruct (pollForLabels_start env ids iv max)
    as (r0 & -> & Hdom & Hnull & _ & _).
  destruct (pollLoop_returns env ids iv max 0
              {| result := r0; proto := protoAfter ids; log := [] |})
    as (o & st & Hrun & _ & Hmono & Hsub & Hp); simpl in *.
  exists o, st. split; [done|].
  assert (Hin : forall id, id ∈ ids -> id <> "__proto__" ->
                           id ∈ dom (result st)).
  { intros id Hid Hne. apply Hmono, elem_of_dom.
    rewrite (Hnull id Hid Hne). eauto. }
  split; [set_solver|]. split; [done|]. split.
  - intros Hnot. split.
    + apply set_eq. intros id. split; [set_solver|].
      intros Hid. apply elem_of_list_to_set in Hid. apply Hin; [done|].
      intros ->. done.
    + rewrite Hp. unfold protoAfter.
      destruct (includes ids "__proto__") eqn:Hi; [|done].
      by apply includes_spec in Hi.
  - intros Hmem. rewrite Hp. by apply settled_protoAfter.
Qed.

(** X26: if no attempt ever yields a usable label for a target, the run
    issues exactly [maxAttempts] requests, returns no label at all, and
    returns every target other than [__proto__] as [null]. *)
Theorem pollForLabels_never_found env ids iv max :
  ids <> [] ->
  (forall k, (k < max)%nat -> reportsNoLabel ids (env k)) ->
  exists st,
    pollForLabels env ids iv max = (inr Exhausted, st)
    /\ polls (log st) = max
    /\ (forall id, id ∈ ids -> id <> "__proto__" ->
                   result st !! id = Some None)
    /\ (forall id v, result st !! id = Some v -> v = None)
    /\ ("__proto__" ∉ ids -> dom (result st) = list_to_set ids).
Proof.
  intros Hne Hno.
  destruct (pollForLabels_start env ids iv max)
    as (r0 & -> & Hdom & Hnull & Hval & _).
  destruct (pollLoop_exhausts env ids iv max 0
              {| result := r0; proto := protoAfter ids; log := [] |} Hne)
    as (tr & -> & Hp).
  { intros j Hj. apply Hno. lia. }
  eexists. split; [done|]. simpl. split; [done|]. split; [done|].
  split; [done|]. intros Hnot. apply set_eq. intros id. split; [set_solver|].
  intros Hid. apply elem_of_list_to_set in Hid. apply elem_of_dom.
  rewrite (Hnull id Hid); [eauto|]. intros ->. done.
Qed.

Lemma pollForLabels_never_found_witness :
  exists st,
    pollForLabels envNever ["A100"; "A101"] 3000 2 = (inr Exhausted, st)
    /\ polls (log st) = 2%nat
    /\ (forall id, id ∈ ["A100"; "A101"] -> id <> "__proto__" ->
                   result st !! id = Some None)
    /\ (forall id v, result st !! id = Some v -> v = None)
    /\ ("__proto__" ∉ ["A100"; "A101"] ->
        dom (result st) = list_to_set ["A100"; "A101"]).
Proof.
  apply (pollForLabels_never_found envNever ["A100"; "A101"] 3000 2).
  - discriminate.
  - intros k _ m Hm id Hid. injection Hm as <-.
    apply elem_of_cons in Hid as [->|Hid]; [vm_compute; reflexivity|].
    apply elem_of_cons in Hid as [->|Hid]; [vm_compute; reflexivity|].
    inversion Hid.
Defined.

(** ** The two backend actions *)

Lemma shipTry_flags refresh iv n create pollEnv refreshOut d d' evs :
  shipTry refresh iv n create pollEnv refreshOut d = inr (d', evs) ->
  isShipping d' = isShipping d /\ isSyncing d' = isSyncing d.
Proof.
  unfold shipTry. destruct create as [|res]; [discriminate|].
  destruct (negb (apiOk res)); [discriminate|].
  destruct (apiBody res) as [j|]; [|discriminate].
  destruct (createdIds (createdArray j)) as [e|ids]; [discriminate|].
  destruct (pollForLabels _ _ _ _).1; [discriminate|].
  by intros [= <- _].
Qed.

(** X13: the two actions exclude each other and clean up after
    themselves: while either flag is up, [shipNow] (with a selection) and
    [syncOrders] change nothing and send nothing; and however they end,
    both flags are afterwards what they were before, so neither action
    leaves its own flag up or takes the other's down. *)
Theorem actions_single_flight refresh iv n create out confirmed pollEnv
    refreshOut d :
  (isShipping d || isSyncing d = true ->
   selected d <> [] ->
   shipNowWith refresh iv n create pollEnv refreshOut d = (d, []))
  /\ (isShipping d || isSyncing d = true ->
      syncOrdersWith refresh confirmed out refreshOut d = (d, []))
  /\ isShipping (shipNowWith refresh iv n create pollEnv refreshOut d).1
     = isShipping d
  /\ isSyncing (shipNowWith refresh iv n create pollEnv refreshOut d).1
     = isSyncing d
  /\ isShipping (syncOrdersWith refresh confirmed out refreshOut d).1
     = isShipping d
  /\ isSyncing (syncOrdersWith refresh confirmed out refreshOut d).1
     = isSyncing d.
Proof.
  assert (Hship : isShipping
            (shipNowWith refresh iv n create pollEnv refreshOut d).1
            = isShipping d
          /\ isSyncing
               (shipNowWith refresh iv n create pollEnv refreshOut d).1
             = isSyncing d).
  { unfold shipNowWith. destruct (selected d) as [|x sel]; [done|].
    destruct (isShipping d) eqn:Hs, (isSyncing d) eqn:Hy; simpl; try done.
    destruct (shipTry _ _ _ _ _ _ _) as [msg|[d' evs]] eqn:Ht; simpl;
      [by rewrite Hy|].
    apply shipTry_flags in Ht as [_ Hy']. simpl in Hy'. by rewrite Hy', Hy. }
  assert (Hsync : isShipping
            (syncOrdersWith refresh confirmed out refreshOut d).1
            = isShipping d
          /\ isSyncing
               (syncOrdersWith refresh confirmed out refreshOut d).1
             = isSyncing d).
  { unfold syncOrdersWith.
    destruct (isShipping d) eqn:Hs, (isSyncing d) eqn:Hy; simpl; try done.
    destruct confirmed; simpl; [|done].
    destruct out as [|res]; simpl; [by rewrite Hs|].
    destruct (negb (apiOk res)); simpl; [by rewrite Hs|].
    destruct (apiBody res) as [[|o]|]; simpl; by rewrite Hs. }
  split; [|split; [|split; [apply Hship|split; [apply Hship|]]]].
  - intros Hm Hsel. unfold shipNowWith.
    destruct (selected d); [done|]. by rewrite Hm.
  - intros Hm. unfold syncOrdersWith. by rewrite Hm.
  - apply Hsync.
Qed.

Lemma actions_single_flight_witness :
  let d := {| store := {| orders := []; totalOrders := 0; loading := false |};
              selected := ["A100"]; isShipping := false;
              isSyncing := true |} in
  shipNowWith (fetchGenesisOrders engineNone "genesis" "tok") 3000 2
    ApiRejects envNever serverError d = (d, []).
Proof.
  intros d.
  apply (proj1 (actions_single_flight
                  (fetchGenesisOrders engineNone "genesis" "tok") 3000 2
                  ApiRejects ApiRejects true envNever serverError d)).
  - reflexivity.
  - discriminate.
Defined.

(** X14: when creating the shipments fails (the request rejects, the
    answer is not OK or it does not decode), [shipNow] polls nothing and
    changes neither store nor selection: it sends the one request and
    shows one alert.  On a non-OK answer the alert carries the backend's
    [detail] as it came; without a usable [detail], the body as JSON; and
    the status line when the body is null or does not decode. *)
Theorem shipNow_create_failed refresh iv n create pollEnv refreshOut d :
  selected d <> [] ->
  isShipping d || isSyncing d = false ->
  (create = ApiRejects -> 
   shipNowWith refresh iv n create pollEnv refreshOut d
   = (d, [UiCreate (selected d);
          UiAlert (AlertShipFailed (MsgOf NetworkError))]))
  /\ (forall res,
        create = ApiResolves res -> apiOk res = false ->
        shipNowWith refresh iv n create pollEnv refreshOut d
        = (d, [UiCreate (selected d);
               UiAlert (AlertShipFailed (shipError res))])
        /\ (forall o text,
              apiBody res = Some (ApiObj o) ->
              detail o = Some text -> truthy text = true ->
              shipError res = MsgText text)
        /\ (forall o,
              apiBody res = Some (ApiObj o) ->
              truthyOpt (detail o) = false ->
              shipError res = MsgText (stringified o))
        /\ (apiBody res = None \/ apiBody res = Some ApiNull ->
            shipError res = MsgHttp (apiStatus res)))
  /\ (forall res,
        create = ApiResolves res -> apiOk res = true ->
        apiBody res = None ->
        shipNowWith refresh iv n create pollEnv refreshOut d
        = (d, [UiCreate (selected d);
               UiAlert (AlertShipFailed (MsgOf SyntaxError))])).
Proof.
  intros Hsel Hm.
  assert (Hd : setIsShipping false (setIsShipping true d) = d).
  { apply orb_false_iff in Hm as [Hs _]. destruct d; simpl in *. by subst. }
  assert (Hrun : forall msg,
            shipTry refresh iv n create pollEnv refreshOut
              (setIsShipping true d) = inl msg ->
            shipNowWith refresh iv n create pollEnv refreshOut d
            = (d, [UiCreate (selected d); UiAlert (AlertShipFailed msg)])).
  { intros msg Ht. unfold shipNowWith.
    destruct (selected d) as [|x sel] eqn:Hs; [done|].
    rewrite Hm, Ht. by rewrite Hd. }
  split; [|split].
  - intros ->. by apply Hrun.
  - intros res -> Hok. split; [|split; [|split]].
    + apply Hrun. simpl. by rewrite Hok.
    + intros o text Hb Hdt Htr. unfold shipError. rewrite Hb, Hdt. simpl.
      by rewrite Htr.
    + intros o Hb Hdt. unfold shipError. by rewrite Hb, Hdt.
    + intros [Hb|Hb]; unfold shipError; by rewrite Hb.
  - intros res -> Hok Hb. apply Hrun. simpl. by rewrite Hok, Hb.
Qed.

Lemma shipNow_create_failed_witness :
  let d := {| store := {| orders := [Plain (sampleOrder "A100" None None)];
                          totalOrders := 1; loading := false |};
              selected := ["A100"]; isShipping := false;
              isSyncing := false |} in
  let res := {| apiOk := false; apiStatus := 422;
                apiBody := Some (ApiObj
                  {| detail := Some "Pickup location missing";
                     message := None; stringified := "{..}"; created := None;
                     matched_docs := None; eligible_count := None;
                     eligible_shipments := None;
                     succeeded_shipments := None |}) |} in
  shipNowWith (fetchGenesisOrders engineNone "genesis" "tok") 3000 2
    (ApiResolves res) envNever serverError d
  = (d, [UiCreate (selected d); UiAlert (AlertShipFailed (shipError res))]).
Proof.
  intros d res.
  apply (proj1 (proj2 (shipNow_create_failed
           (fetchGenesisOrders engineNone "genesis" "tok") 3000 2
           (ApiResolves res) envNever serverError d
           ltac:(discriminate) eq_refl)) res eq_refl eq_refl).
Defined.

Lemma pollForLabels_fulfils env ids iv max :
  exists o, (pollForLabels env ids iv max).1 = inr o.
Proof.
  destruct (pollForLabels_start env ids iv max) as (r0 & -> & _).
  destruct (pollLoop_returns env ids iv max 0
              {| result := r0; proto := protoAfter ids; log := [] |})
    as (o & st & -> & _). by exists o.
Qed.

Lemma createdIds_truthy entries ids :
  createdIds entries = inr ids -> forall id, id ∈ ids -> truthy id = true.
Proof.
  revert ids. induction entries as [|[oid|] entries IH]; intros ids; simpl.
  - intros [= <-] id H. inversion H.
  - destruct (createdIds entries) as [e|ids']; [discriminate|].
    destruct (truthyOpt oid) eqn:Ht; intros [= <-]; [|by apply IH].
    intros id [->|Hid]%elem_of_cons; [|by apply (IH ids')].
    by destruct oid.
  - discriminate.
Qed.

Lemma shipNowWith_success refresh iv n create pollEnv refreshOut d res j ids :
  selected d <> [] ->
  isShipping d || isSyncing d = false ->
  create = ApiResolves res -> apiOk res = true -> apiBody res = Some j ->
  createdIds (createdArray j) = inr ids ->
  shipNowWith refresh iv n create pollEnv refreshOut d
  = ({| store :=
          refresh refreshOut
            (shipNowPatch
               (result (pollForLabels pollEnv (targetIds ids (selected d))
                          iv n).2)
               (proto (pollForLabels pollEnv (targetIds ids (selected d))
                         iv n).2)
               (store d));
        selected := []; isShipping := false; isSyncing := false |},
     [UiCreate (selected d);
      UiPolled (targetIds ids (selected d))
        (log (pollForLabels pollEnv (targetIds ids (selected d)) iv n).2);
      UiAlert AlertShipDone]).
Proof.
  intros Hsel Hm -> Hok Hb Hc. unfold shipNowWith.
  destruct (selected d) as [|x sel] eqn:Hs; [done|]. rewrite Hm.
  unfold shipTry. rewrite Hok, Hb. simpl. rewrite Hc, Hs.
  destruct (pollForLabels_fulfils pollEnv (targetIds ids (x :: sel)) iv n)
    as [o ->].
  apply orb_false_iff in Hm as [_ Hy].
  unfold setIsShipping, setStore, setSelected. simpl. by rewrite Hy.
Qed.

Lemma refresh_after_patch engine pk token out pollResult p st :
  fetchGenesisOrders engine pk token out (shipNowPatch pollResult p st)
  = fetchGenesisOrders engine pk token out st.
Proof.
  unfold fetchGenesisOrders. destruct (negb (truthy token)); [done|].
  apply refreshGuarded_replaces.
Qed.

(** X15: when the shipments are created, [shipNow] polls for the created
    identifiers, or for the whole selection when the answer names none,
    and so never for an empty list; it ends with the selection cleared
    and the store exactly as a plain refresh leaves it: whatever polling
    found and patched in is replaced by the listing fetched last. *)
Theorem shipNow_success engine pk token create pollEnv refreshOut d res j
    ids :
  selected d <> [] ->
  isShipping d || isSyncing d = false ->
  create = ApiResolves res -> apiOk res = true -> apiBody res = Some j ->
  createdIds (createdArray j) = inr ids ->
  targetIds ids (selected d) <> []
  /\ (ids <> [] -> targetIds ids (selected d) = ids)
  /\ (ids = [] -> targetIds ids (selected d) = selected d)
  /\ (forall id, id ∈ ids -> truthy id = true)
  /\ shipNow engine pk token create pollEnv refreshOut d
     = ({| store := fetchGenesisOrders engine pk token refreshOut (store d);
           selected := []; isShipping := false; isSyncing := false |},
        [UiCreate (selected d);
         UiPolled (targetIds ids (selected d))
           (log (pollForLabels pollEnv (targetIds ids (selected d))
                   3000 2).2);
         UiAlert AlertShipDone])
  /\ (GenesisOnlyActions.shipNow engine create pollEnv refreshOut d).1
     = {| store := GenesisOnly.fetchGenesisOrders engine refreshOut (store d);
          selected := []; isShipping := false; isSyncing := false |}.
Proof.
  intros Hsel Hm Hc Hok Hb Hids.
  split; [by destruct ids|]. split; [by destruct ids|].
  split; [by intros ->|]. split; [by apply (createdIds_truthy _ _ Hids)|].
  split.
  - unfold shipNow.
    rewrite (shipNowWith_success _ _ _ _ _ _ _ _ _ _ Hsel Hm Hc Hok Hb Hids).
    by rewrite refresh_after_patch.
  - unfold GenesisOnlyActions.shipNow.
    rewrite (shipNowWith_success _ _ _ _ _ _ _ _ _ _ Hsel Hm Hc Hok Hb Hids).
    simpl. unfold GenesisOnly.fetchGenesisOrders.
    by rewrite (refreshGuarded_replaces _ _ _ _ (store d)).
Qed.

Lemma shipNow_success_witness :
  let d := {| store := {| orders := [Plain (sampleOrder "A100" None None)];
                          totalOrders := 1; loading := false |};
              selected := ["A100"; "A101"]; isShipping := false;
              isSyncing := false |} in
  let j := ApiObj {| detail := None; message := None; stringified := "{..}";
                     created := Some [Some (Some "A100"); Some None];
                     matched_docs := None; eligible_count := None;
                     eligible_shipments := None;
                     succeeded_shipments := None |} in
  let res := {| apiOk := true; apiStatus := 200; apiBody := Some j |} in
  targetIds ["A100"] (selected d) = ["A100"].
Proof.
  intros d j res.
  apply (proj1 (proj2 (shipNow_success engineNone "genesis" "tok"
           (ApiResolves res) envReady (listingAt (Some url1) None) d res j
           ["A100"] ltac:(discriminate) eq_refl eq_refl eq_refl eq_refl
           eq_refl))).
  discriminate.
Defined.

(** X16: an OK answer to the sync request is always followed by a refresh,
    whatever it counts: the store ends as the refresh leaves it, selection
    and flags untouched.  The alert shows [matched_docs] (zero when
    missing), [eligible_count] or else the length of [eligible_shipments]
    or else zero, and the length of [succeeded_shipments] when it is an
    array; a body that does not decode counts as three zeros. *)
Theorem syncOrders_refreshes refresh out refreshOut d res :
  isShipping d || isSyncing d = false ->
  out = ApiResolves res -> apiOk res = true ->
  (forall o,
     apiBody res = Some (ApiObj o) ->
     syncOrdersWith refresh true out refreshOut d
     = (setStore (refresh refreshOut (store d)) d,
        [UiConfirm; UiSync;
         UiAlert (AlertSyncDone
                    (match matched_docs o with Some c => c | None => 0 end)
                    (eligibleOf o)
                    (match succeeded_shipments o with
                     | Some len => len
                     | None => O
                     end))])
     /\ (forall c, eligible_count o = Some c -> eligibleOf o = c)
     /\ (forall len, eligible_count o = None ->
                     eligible_shipments o = Some len ->
                     eligibleOf o = Z.of_nat len))
  /\ (apiBody res = None ->
      syncOrdersWith refresh true out refreshOut d
      = (setStore (refresh refreshOut (store d)) d,
         [UiConfirm; UiSync; UiAlert (AlertSyncDone 0 0 0)])).
Proof.
  intros Hm -> Hok.
  assert (Hd : forall s,
            setIsSyncing false (setStore s (setIsSyncing true d))
            = setStore s d).
  { intros s. apply orb_false_iff in Hm as [_ Hy].
    destruct d; simpl in *. by subst. }
  split.
  - intros o Hb. split; [|split].
    + unfold syncOrdersWith. rewrite Hm. simpl. rewrite Hok, Hb. simpl.
      by rewrite Hd.
    + intros c Hc. unfold eligibleOf. by rewrite Hc.
    + intros len Hc Hl. unfold eligibleOf. by rewrite Hc, Hl.
  - intros Hb. unfold syncOrdersWith. rewrite Hm. simpl. rewrite Hok, Hb.
    simpl. by rewrite Hd.
Qed.

Lemma syncOrders_refreshes_witness :
  let d := {| store := {| orders := []; totalOrders := 0; loading := false |};
              selected := ["A100"]; isShipping := false;
              isSyncing := false |} in
  let res := {| apiOk := true; apiStatus := 200; apiBody := None |} in
  syncOrdersWith (fetchGenesisOrders engineNone "genesis" "tok") true
    (ApiResolves res) (listingAt (Some url1) None) d
  = (setStore (fetchGenesisOrders engineNone "genesis" "tok"
                 (listingAt (Some url1) None) (store d)) d,
     [UiConfirm; UiSync; UiAlert (AlertSyncDone 0 0 0)]).
Proof.
  intros d res.
  apply (proj2 (syncOrders_refreshes
                  (fetchGenesisOrders engineNone "genesis" "tok")
                  (ApiResolves res) (listingAt (Some url1) None) d res
                  eq_refl eq_refl eq_refl)).
  reflexivity.
Defined.

(** X17: a sync that is declined or fails refreshes nothing and leaves the
    dashboard as it was.  On a non-OK answer the alert gives the backend's
    [detail], else its [message], else the status line: for a body that
    has neither, and for one that is null or does not decode.  An OK
    answer whose body is null fails as well. *)
Theorem syncOrders_failed refresh out refreshOut d :
  isShipping d || isSyncing d = false ->
  syncOrdersWith refresh false out refreshOut d = (d, [UiConfirm])
  /\ (out = ApiRejects ->
      syncOrdersWith refresh true out refreshOut d
      = (d, [UiConfirm; UiSync;
             UiAlert (AlertSyncFailed (MsgOf NetworkError))]))
  /\ (forall res,
        out = ApiResolves res -> apiOk res = false ->
        exists msg,
          syncOrdersWith refresh true out refreshOut d
          = (d, [UiConfirm; UiSync; UiAlert (AlertSyncFailed msg)])
          /\ (forall o text,
                apiBody res = Some (ApiObj o) ->
                detail o = Some text -> truthy text = true ->
                msg = MsgText text)
          /\ (forall o text,
                apiBody res = Some (ApiObj o) ->
                truthyOpt (detail o) = false ->
                message o = Some text -> truthy text = true ->
                msg = MsgText text)
          /\ (forall o,
                apiBody res = Some (ApiObj o) ->
                truthyOpt (detail o) = false ->
                truthyOpt (message o) = false ->
                msg = MsgHttp (apiStatus res))
          /\ (apiBody res = None \/ apiBody res = Some ApiNull ->
              msg = MsgHttp (apiStatus res)))
  /\ (forall res,
        out = ApiResolves res -> apiOk res = true ->
        apiBody res = Some ApiNull ->
        syncOrdersWith refresh true out refreshOut d
        = (d, [UiConfirm; UiSync;
               UiAlert (AlertSyncFailed (MsgOf TypeError))])).
Proof.
  intros Hm.
  assert (Hd : setIsSyncing false (setIsSyncing true d) = d).
  { apply orb_false_iff in Hm as [_ Hy]. destruct d; simpl in *. by subst. }
  unfold syncOrdersWith. rewrite Hm. simpl.
  split; [done|]. split; [|split].
  - intros ->. by rewrite Hd.
  - intros res -> Hok. rewrite Hok. simpl. rewrite Hd.
    eexists. split; [done|]. split; [|split; [|split]].
    + intros o text Hb Hdt Ht. rewrite Hb. simpl. rewrite Hdt. simpl.
      by rewrite Ht.
    + intros o text Hb Hdt Hmsg Ht. rewrite Hb. simpl. rewrite Hdt, Hmsg.
      simpl. by rewrite Ht.
    + intros o Hb Hdt Hmsg. rewrite Hb. simpl. by rewrite Hdt, Hmsg.
    + intros [Hb|Hb]; by rewrite Hb.
  - intros res -> Hok Hb. rewrite Hok, Hb. simpl. by rewrite Hd.
Qed.

Lemma syncOrders_failed_witness :
  let d := {| store := {| orders := [Plain (sampleOrder "A100" None None)];
                          totalOrders := 1; loading := false |};
              selected := []; isShipping := false; isSyncing := false |} in
  syncOrdersWith (fetchGenesisOrders engineNone "genesis" "tok") false
    ApiRejects serverError d = (d, [UiConfirm]).
Proof.
  intros d.
  apply (proj1 (syncOrders_failed
                  (fetchGenesisOrders engineNone "genesis" "tok")
                  ApiRejects serverError d eq_refl)).
Defined.

(** ** The displayed timestamp *)

Lemma digit_differs c x :
  isDigit c = true -> isDigit x = false -> Ascii.eqb c x = false.
Proof.
  intros Hc Hx. destruct (Ascii.eqb_spec c x); [|done]. subst. congruence.
Qed.

Lemma isDigit_cases c :
  isDigit c = true ->
  In c ["0"; "1"; "2"; "3"; "4"; "5"; "6"; "7"; "8"; "9"]%char.
Proof.
  destruct c as [[] [] [] [] [] [] [] []]; vm_compute; intros H;
    try discriminate; tauto.
Qed.

Lemma dropFraction_cons c r :
  Ascii.eqb c "." = false ->
  dropFraction (String c r) = String c (dropFraction r).
Proof. intros Hc. simpl. rewrite Hc. by destruct r. Qed.

Lemma splitOn_cons_ne sep c r :
  Ascii.eqb c sep = false ->
  splitOn sep (String c r)
  = match splitOn sep r with
    | h :: t => String c h :: t
    | [] => [String c EmptyString]
    end.
Proof. intros Hc. simpl. by rewrite Hc. Qed.

Lemma splitOn_nonempty sep s : exists h t, splitOn sep s = h :: t.
Proof.
  induction s as [|c s (h & t & IH)]; simpl; [eauto|].
  destruct (Ascii.eqb c sep); [eauto|]. rewrite IH. eauto.
Qed.

Lemma splitOn_absent sep s :
  existsChar (fun c => Ascii.eqb c sep) s = false -> splitOn sep s = [s].
Proof.
  induction s as [|c s IH]; simpl; [done|].
  intros [-> Hs]%orb_false_iff. by rewrite (IH Hs).
Qed.

Lemma dropFraction_keeps_absent sep s :
  existsChar (fun c => Ascii.eqb c sep) s = false ->
  existsChar (fun c => Ascii.eqb c sep) (dropFraction s) = false.
Proof.
  assert (Hdrop : forall r,
            existsChar (fun c => Ascii.eqb c sep) r = false ->
            existsChar (fun c => Ascii.eqb c sep) (dropDigits r) = false).
  { induction r as [|c r IH]; [done|]. simpl.
    intros [Hc Hr]%orb_false_iff. destruct (isDigit c); [auto|].
    simpl. by rewrite Hc, Hr. }
  induction s as [|c s IH]; [done|].
  intros Hs. pose proof Hs as Hs'. simpl in Hs'.
  apply orb_false_iff in Hs' as [Hc Hr].
  cbn [dropFraction]. destruct s as [|d s'].
  - simpl. by rewrite Hc.
  - destruct (Ascii.eqb c "." && isDigit d).
    + by apply Hdrop.
    + cbn [existsChar]. by rewrite Hc, (IH Hr).
Qed.

(** Reading two digits as a number and printing the number on two places
    gives the two digits back. *)
Lemma two_digits_roundtrip a b :
  isDigit a = true -> isDigit b = true ->
  padStart2 (numToString (NInt (digitsValue 0 (str2 a b)))) = str2 a b.
Proof.
  intros Ha%isDigit_cases Hb%isDigit_cases. simpl in Ha, Hb.
  repeat (destruct Ha as [<-|Ha]; [|]);
    try (repeat (destruct Hb as [<-|Hb]; [|]); try done;
         vm_compute; reflexivity);
    done.
Qed.

Lemma Number_two_digits engine a b :
  isDigit a = true -> isDigit b = true ->
  Number engine (str2 a b) = NInt (digitsValue 0 (str2 a b)).
Proof. intros Ha Hb. unfold Number, str2. simpl. by rewrite Ha, Hb. Qed.

Lemma Number_four_digits engine a b c d :
  isDigit a = true -> isDigit b = true -> isDigit c = true ->
  isDigit d = true ->
  Number engine (str4 a b c d) = NInt (digitsValue 0 (str4 a b c d)).
Proof.
  intros Ha Hb Hc Hd. unfold Number, str4. simpl. by rewrite Ha, Hb, Hc, Hd.
Qed.

Lemma splitOn_cons_eq sep r :
  splitOn sep (String sep r) = EmptyString :: splitOn sep r.
Proof. simpl. by rewrite Ascii.eqb_refl. Qed.

Ltac digit_side :=
  first [ reflexivity
        | assumption
        | apply digit_differs; [assumption|reflexivity] ].

Lemma formatPrintSentAt_wellformed engine y1 y2 y3 y4 m1 m2 d1 d2 h1 h2 n1
    n2 tail :
  Forall (fun c => isDigit c = true)
    [y1; y2; y3; y4; m1; m2; d1; d2; h1; h2; n1; n2] ->
  (tail = EmptyString \/ exists rest, tail = String ":" rest) ->
  formatPrintSentAt engine
    (Some (stampText y1 y2 y3 y4 m1 m2 d1 d2 h1 h2 n1 n2 tail))
  = if (digitsValue 0 (str4 y1 y2 y3 y4) =? 0)
       || (digitsValue 0 (str2 m1 m2) =? 0)
       || (digitsValue 0 (str2 d1 d2) =? 0)
    then stampText y1 y2 y3 y4 m1 m2 d1 d2 h1 h2 n1 n2 tail
    else str2 d1 d2 +:+ " "
         +:+ monthName (NInt (digitsValue 0 (str2 m1 m2)))
         +:+ " " +:+ str2 h1 h2 +:+ ":" +:+ str2 n1 n2.
Proof.
  intros HF Htail. unfold stampText.
  repeat match goal with
         | H : Forall _ (_ :: _) |- _ => apply Forall_cons in H as [? H]
         end.
  match goal with
  | |- formatPrintSentAt _ (Some ?v) = _ =>
      let v' := eval cbv [str4 str2 String.append] in v in
      change v with v'
  end.
  match goal with
  | |- _ = (if _ then ?v else _) =>
      let v' := eval cbv [str4 str2 String.append] in v in
      change v with v'
  end.
  unfold formatPrintSentAt. cbn [truthy negb].
  assert (Hparts : exists more extra,
            splitOn "T"
              (dropFraction
                 (String y1 (String y2 (String y3 (String y4 (String "-"
                   (String m1 (String m2 (String "-" (String d1 (String d2
                     (String "T" (String h1 (String h2 (String ":"
                       (String n1 (String n2 tail)))))))))))))))))
            = (str4 y1 y2 y3 y4 +:+ "-" +:+ str2 m1 m2 +:+ "-"
               +:+ str2 d1 d2)
              :: more :: extra
            /\ truthy more = true
            /\ exists others,
                 splitOn ":" more = str2 h1 h2 :: str2 n1 n2 :: others).
  { rewrite !dropFraction_cons by digit_side.
    repeat (rewrite splitOn_cons_eq
            || rewrite !splitOn_cons_ne by digit_side).
    destruct Htail as [->|[rest ->]].
    - change (dropFraction "") with "". change (splitOn "T" "") with [""].
      eexists _, _. split; [reflexivity|]. split; [done|].
      repeat (rewrite splitOn_cons_eq
              || rewrite !splitOn_cons_ne by digit_side).
      change (splitOn ":" "") with [""]. eexists. reflexivity.
    - rewrite dropFraction_cons by reflexivity.
      rewrite splitOn_cons_ne by reflexivity.
      destruct (splitOn_nonempty "T" (dropFraction rest)) as (h & t & ->).
      eexists _, _. split; [reflexivity|]. split; [done|].
      repeat (rewrite splitOn_cons_eq
              || rewrite !splitOn_cons_ne by digit_side).
      destruct (splitOn_nonempty ":" h) as (h' & t' & ->).
      eexists. reflexivity. }
  destruct Hparts as (more & extra & -> & Hmore & others & Hhm).
  cbn [lookup list_lookup]. rewrite Hmore, Hhm.
  match goal with
  | |- context [splitOn "-" ?v] =>
      let v' := eval cbv [str4 str2 String.append] in v in
      change v with v'
  end.
  cbn [truthy negb orb].
  repeat (rewrite splitOn_cons_eq
          || rewrite !splitOn_cons_ne by digit_side).
  change (splitOn "-" "") with [""].
  cbn [List.map lookup list_lookup].
  change (String y1 (String y2 (String y3 (String y4 ""))))
    with (str4 y1 y2 y3 y4).
  change (String m1 (String m2 "")) with (str2 m1 m2).
  change (String d1 (String d2 "")) with (str2 d1 d2).
  rewrite Number_four_digits, !Number_two_digits by assumption.
  cbn [numFalsy].
  destruct ((digitsValue 0 (str4 y1 y2 y3 y4) =? 0)
            || (digitsValue 0 (str2 m1 m2) =? 0)
            || (digitsValue 0 (str2 d1 d2) =? 0)); [done|].
  by rewrite !two_digits_roundtrip.
Qed.

(** X18: a timestamp written [YYYY-MM-DDTHH:mm], alone or followed by a
    colon and anything (seconds, fraction, zone), with year, month and
    day not zero, is displayed as its own day, month name, hour and minute
    digits: [DD MON HH:mm], with no shift of zone and nothing read from
    what follows the minutes.  A month above twelve prints as
    [undefined]. *)
Theorem formatPrintSentAt_stamp engine y1 y2 y3 y4 m1 m2 d1 d2 h1 h2 n1 n2
    tail :
  Forall (fun c => isDigit c = true)
    [y1; y2; y3; y4; m1; m2; d1; d2; h1; h2; n1; n2] ->
  (tail = EmptyString \/ exists rest, tail = String ":" rest) ->
  digitsValue 0 (str4 y1 y2 y3 y4) <> 0 ->
  digitsValue 0 (str2 m1 m2) <> 0 ->
  digitsValue 0 (str2 d1 d2) <> 0 ->
  formatPrintSentAt engine
    (Some (stampText y1 y2 y3 y4 m1 m2 d1 d2 h1 h2 n1 n2 tail))
  = str2 d1 d2 +:+ " " +:+ monthName (NInt (digitsValue 0 (str2 m1 m2)))
    +:+ " " +:+ str2 h1 h2 +:+ ":" +:+ str2 n1 n2
  /\ (1 <= digitsValue 0 (str2 m1 m2) <= 12 ->
      monthName (NInt (digitsValue 0 (str2 m1 m2)))
      = nth (Z.to_nat (digitsValue 0 (str2 m1 m2) - 1)) months "undefined")
  /\ (12 < digitsValue 0 (str2 m1 m2) ->
      monthName (NInt (digitsValue 0 (str2 m1 m2))) = "undefined").
Proof.
  intros HF Htail Hy Hm Hd.
  rewrite (formatPrintSentAt_wellformed engine _ _ _ _ _ _ _ _ _ _ _ _ _
             HF Htail).
  rewrite (proj2 (Z.eqb_neq _ _) Hy), (proj2 (Z.eqb_neq _ _) Hm),
    (proj2 (Z.eqb_neq _ _) Hd).
  split; [done|]. unfold monthName. split.
  - intros [H1 H2]. apply Z.leb_le in H1, H2. by rewrite H1, H2.
  - intros H12. apply Z.leb_gt in H12. rewrite H12. by rewrite andb_false_r.
Qed.

Lemma formatPrintSentAt_stamp_witness :
  formatPrintSentAt engineNaN
    (Some (stampText "2" "0" "2" "4" "0" "1" "0" "5" "1" "0" "0" "0"
             ":00.123456"))
  = "05 JAN 10:00".
Proof.
  apply (formatPrintSentAt_stamp engineNaN
           "2" "0" "2" "4" "0" "1" "0" "5" "1" "0" "0" "0" ":00.123456").
  - repeat constructor.
  - right. eexists. reflexivity.
  - vm_compute. discriminate.
  - vm_compute. discriminate.
  - vm_compute. discriminate.
Defined.

(** X19: what cannot be read as a timestamp is shown as it is or as a
    dash: a missing or empty value gives a dash; a text without a [T]
    comes back unchanged; and so does a well-formed timestamp whose year,
    month or day is zero. *)
Theorem formatPrintSentAt_fallback engine :
  formatPrintSentAt engine None = "-"
  /\ formatPrintSentAt engine (Some EmptyString) = "-"
  /\ (forall v,
        truthy v = true ->
        existsChar (fun c => Ascii.eqb c "T") v = false ->
        formatPrintSentAt engine (Some v) = v)
  /\ (forall y1 y2 y3 y4 m1 m2 d1 d2 h1 h2 n1 n2 tail,
        Forall (fun c => isDigit c = true)
          [y1; y2; y3; y4; m1; m2; d1; d2; h1; h2; n1; n2] ->
        (tail = EmptyString \/ exists rest, tail = String ":" rest) ->
        digitsValue 0 (str4 y1 y2 y3 y4) = 0
        \/ digitsValue 0 (str2 m1 m2) = 0
        \/ digitsValue 0 (str2 d1 d2) = 0 ->
        formatPrintSentAt engine
          (Some (stampText y1 y2 y3 y4 m1 m2 d1 d2 h1 h2 n1 n2 tail))
        = stampText y1 y2 y3 y4 m1 m2 d1 d2 h1 h2 n1 n2 tail).
Proof.
  split; [done|]. split; [done|]. split.
  - intros v Ht Hv. unfold formatPrintSentAt. rewrite Ht. simpl.
    rewrite splitOn_absent by (by apply dropFraction_keeps_absent).
    done.
  - intros y1 y2 y3 y4 m1 m2 d1 d2 h1 h2 n1 n2 tail HF Htail Hz.
    rewrite (formatPrintSentAt_wellformed engine _ _ _ _ _ _ _ _ _ _ _ _ _
               HF Htail).
    assert ((digitsValue 0 (str4 y1 y2 y3 y4) =? 0)
            || (digitsValue 0 (str2 m1 m2) =? 0)
            || (digitsValue 0 (str2 d1 d2) =? 0) = true) as ->; [|done].
    rewrite !orb_true_iff, !Z.eqb_eq. tauto.
Qed.

Lemma formatPrintSentAt_fallback_witness :
  formatPrintSentAt engineNaN (Some "2024-01-05 10:00:00")
  = "2024-01-05 10:00:00".
Proof.
  apply (proj1 (proj2 (proj2 (formatPrintSentAt_fallback engineNaN)))).
  - reflexivity.
  - vm_compute. reflexivity.
Defined.

(** ** The route guard *)

Lemma find_first {A} (f : A -> bool) (l : list A) (x : A) :
  List.find f l = Some x <->
  exists i : nat,
    l !! i = Some x /\ f x = true
    /\ forall (j : nat) y, (j < i)%nat -> l !! j = Some y -> f y = false.
Proof.
  induction l as [|a l IH]; simpl.
  - split; [done|]. by intros (i & Hi & _).
  - destruct (f a) eqn:Hfa.
    + split.
      * intros [= <-]. exists 0%nat. split; [done|]. split; [done|].
        intros j y Hj. lia.
      * intros (i & Hi & Hfx & Hbefore). destruct i as [|i].
        -- simpl in Hi. by inversion Hi.
        -- specialize (Hbefore 0%nat a). simpl in Hbefore.
           rewrite Hbefore in Hfa; [done|lia|done].
    + rewrite IH. split.
      * intros (i & Hi & Hfx & Hbefore). exists (S i).
        split; [done|]. split; [done|].
        intros [|j] y Hj Hy.
        -- simpl in Hy. by inversion Hy; subst.
        -- simpl in Hy. apply (Hbefore j); [lia|done].
      * intros (i & Hi & Hfx & Hbefore). destruct i as [|i].
        -- simpl in Hi. inversion Hi; subst. by rewrite Hfx in Hfa.
        -- exists i. split; [done|]. split; [done|].
           intros j y Hj Hy. apply (Hbefore (S j)); [lia|done].
Qed.

Lemma primaryEmail_spec (user : User) (e : string) :
  primaryEmail user = Some e <->
  exists (i : nat) entry,
    emailAddresses user !! i = Some entry
    /\ primaryEmailAddressId user = Some (emailId entry)
    /\ (forall (j : nat) other,
          (j < i)%nat -> emailAddresses user !! j = Some other ->
          emailId other <> emailId entry)
    /\ emailAddress entry = e.
Proof.
  unfold primaryEmail. destruct user as [prim addrs]. simpl.
  destruct prim as [p|].
  - split.
    + destruct (List.find _ addrs) as [entry|] eqn:Hfind; [|done].
      simpl. intros [= <-]. apply find_first in Hfind.
      destruct Hfind as (i & Hi & Hp & Hbefore).
      apply String.eqb_eq in Hp. subst p.
      exists i, entry. split; [done|]. split; [done|]. split; [|done].
      intros j other Hj Hother Heq.
      specialize (Hbefore j other Hj Hother).
      rewrite Heq, String.eqb_refl in Hbefore. done.
    + intros (i & entry & Hi & [= ->] & Hbefore & <-).
      assert (List.find (fun e0 => String.eqb (emailId e0) (emailId entry))
                addrs = Some entry) as ->; [|done].
      apply find_first. exists i. split; [done|].
      split; [apply String.eqb_refl|].
      intros j y Hj Hy. apply String.eqb_neq. by apply (Hbefore j).
  - split.
    + assert (List.find (fun _ : EmailAddress => false) addrs = None) as ->.
      { clear. induction addrs; simpl; done. }
      done.
    + by intros (i & entry & _ & ? & _).
Qed.

(** X20: the route guard lets a public route through without looking at
    the user.  On any other route it lets the request through exactly when
    a user is signed in, the secret key is configured, the user's record
    can be fetched, and the address of the first entry whose id is the
    user's primary address id is on the allow list; an allowed address
    that is not the primary one does not count.  A request without a
    user goes to the landing page, every other refusal to the
    unauthorized page. *)
Theorem middleware_admits (Request : Type) (pathname : Request -> string)
    (isPublicRoute : Request -> bool) (auth : Request -> option string)
    (secretKey : option string) (getUser : string -> Exn + User)
    (req : Request) :
  let response :=
    snd (middleware Request pathname isPublicRoute auth secretKey getUser
           req) in
  (isPublicRoute req = true -> response = Next)
  /\ (isPublicRoute req = false ->
      (response = Next <->
       exists userId user (i : nat) entry,
         auth req = Some userId /\ truthy userId = true
         /\ truthyOpt secretKey = true
         /\ getUser userId = inr user
         /\ emailAddresses user !! i = Some entry
         /\ primaryEmailAddressId user = Some (emailId entry)
         /\ (forall (j : nat) other,
               (j < i)%nat -> emailAddresses user !! j = Some other ->
               emailId other <> emailId entry)
         /\ emailAddress entry ∈ allowedEmails)
      /\ (response = Redirect "/" <-> truthyOpt (auth req) = false)
      /\ (response = Next \/ response = Redirect "/"
          \/ response = Redirect "/unauthorized")).
Proof.
  intros response. subst response. unfold middleware.
  set (allowed := includes allowedEmails). split.
  - by intros ->.
  - intros ->.
    destruct (auth req) as [userId|] eqn:Hauth; simpl.
    2:{ split; [|split; [done|by right; left]].
        split; [done|]. by intros (? & ? & ? & ? & ? & _). }
    destruct (truthy userId) eqn:Hid; simpl.
    2:{ split; [|split; [done|by right; left]].
        split; [done|]. intros (u' & ? & ? & ? & [= <-] & Ht & _).
        by rewrite Ht in Hid. }
    destruct (truthyOpt secretKey) eqn:Hkey; simpl.
    2:{ split; [|split; [done|by right; right]].
        split; [done|]. by intros (? & ? & ? & ? & _ & _ & ? & _). }
    destruct (getUser userId) as [e|user] eqn:Huser; simpl.
    { split; [|split; [done|by right; right]].
      split; [done|].
      intros (u' & ? & ? & ? & [= <-] & _ & _ & Hg & _).
      by rewrite Hg in Huser. }
    destruct (primaryEmail user) as [email|] eqn:Hemail;
      cbn [truthyOpt orEmpty negb orb snd].
    2:{ split; [|split; [done|by right; right]].
        split; [done|].
        intros (u' & user' & i & entry & [= <-] & _ & _ & Hg & Hi & Hp
                & Hbefore & _).
        rewrite Hg in Huser. inversion Huser; subst user'.
        assert (primaryEmail user = Some (emailAddress entry)) as Hsome.
        { apply primaryEmail_spec. by exists i, entry. }
        by rewrite Hsome in Hemail. }
    subst allowed. destruct (includes allowedEmails email) eqn:Hinc.
    + assert (truthy email = true) as ->.
      { apply includes_spec in Hinc. unfold allowedEmails in Hinc.
        rewrite !elem_of_cons, elem_of_nil in Hinc.
        destruct Hinc as [->|[->|[->|[->|[->|[->|[->|[]]]]]]]]; done. }
      simpl. split; [|split; [done|by left]].
      split; [|done]. intros _.
      apply primaryEmail_spec in Hemail.
      destruct Hemail as (i & entry & Hi & Hp & Hbefore & <-).
      exists userId, user, i, entry.
      apply includes_spec in Hinc. done.
    + rewrite orb_true_r.
      split; [|split; [done|by right; right]].
      split; [done|].
      intros (u' & user' & i & entry & [= <-] & _ & _ & Hg & Hi & Hp
              & Hbefore & Hallowed).
      rewrite Hg in Huser. inversion Huser; subst user'.
      assert (primaryEmail user = Some (emailAddress entry)) as Hsome.
      { apply primaryEmail_spec. by exists i, entry. }
      rewrite Hsome in Hemail. inversion Hemail; subst email.
      apply includes_spec in Hallowed. by rewrite Hallowed in Hinc.
Qed.

Lemma middleware_admits_witness :
  snd (middleware string (fun p => p) publicPath (fun _ => Some "user_1")
         (Some "sk_live") (fun _ => inr secondaryAllowed)
         "/generate_labels")
  = Redirect "/unauthorized".
Proof.
  pose proof (middleware_admits string (fun p => p) publicPath
                (fun _ => Some "user_1") (Some "sk_live")
                (fun _ => inr secondaryAllowed) "/generate_labels")
    as [_ Hguard].
  destruct (Hguard eq_refl) as (_ & _ & [Hn|[Hl|Hu]]).
  - vm_compute in Hn. discriminate.
  - vm_compute in Hl. discriminate.
  - exact Hu.
Defined.

(** ** The scan page *)

(** X21: a run of [generateLabel] on a non-empty id always ends with the
    page idle and the input cleared.  A label address is kept exactly
    when the reply carries a non-empty [label_url], whatever the previous
    state and with no look at the status code; then the order is marked
    as processed, the address is opened once, and the download button
    opens the same address.  In every other case (no label, a [null]
    reply, a failed request) nothing is opened, no earlier label is kept
    and the download button does nothing. *)
Theorem generateLabel_outcome (scan : string -> ScanOutcome) (id : string)
    (s : Scan) :
  truthy id = true ->
  let s' := fst (generateLabel scan id s) in
  let opened := snd (generateLabel scan id s) in
  scanLoading s' = false
  /\ orderId s' = EmptyString
  /\ (forall url,
        labelUrl s' = Some url <->
        truthy url = true /\ scan id = ScanJson (ScanValue (Some url)))
  /\ (forall url,
        labelUrl s' = Some url ->
        processedOrderId s' = Some id
        /\ scanStatus s' = StatusGenerated id
        /\ opened = [url]
        /\ handleDownload s' = [url])
  /\ (labelUrl s' = None ->
      processedOrderId s' = None
      /\ (scanStatus s' = StatusUnable id \/ scanStatus s' = StatusWentWrong)
      /\ opened = []
      /\ handleDownload s' = []).
Proof.
  intros Hid s' opened. subst s' opened. unfold generateLabel.
  rewrite Hid. cbn [negb].
  destruct (scan id) as [e|[|[url|]]] eqn:Hscan;
    [| | destruct (truthy url) eqn:Hurl |]; cbn.
  all: split; [done|]; split; [done|].
  all: unfold handleDownload; cbn.
  all: try (split; [split; [done|by intros [_ ?]]|];
            split; [done|]; intros _;
            split; [done|]; split; [by auto|done]).
  - split.
    { intros u. split.
      - intros [= <-]. done.
      - intros [_ [= <-]]. done. }
    split; [|done].
    intros u [= <-]. rewrite Hurl. done.
  - split.
    { intros u. split; [done|]. intros [Hu [= <-]]. by rewrite Hu in Hurl. }
    split; [done|]. intros _. split; [done|]. split; [by left|done].
Qed.

Lemma generateLabel_outcome_witness :
  labelUrl (fst (generateLabel scanLabelled "7" scanBefore))
  = Some "https://labels.example/7.pdf"
  /\ snd (generateLabel scanLabelled "7" scanBefore)
     = ["https://labels.example/7.pdf"].
Proof.
  destruct (generateLabel_outcome scanLabelled "7" scanBefore eq_refl)
    as (_ & _ & Hkept & Hthen & _).
  assert (labelUrl (fst (generateLabel scanLabelled "7" scanBefore))
          = Some "https://labels.example/7.pdf") as Hlbl.
  { apply Hkept. split; reflexivity. }
  split; [exact Hlbl|].
  exact (proj1 (proj2 (proj2 (Hthen _ Hlbl)))).
Defined.

(** ** Sign-in, the shared link and sign-out *)

Lemma paramsGet_delete_same (k : string) (ps : Params) :
  paramsGet k (paramsDelete k ps) = None.
Proof.
  induction ps as [|[k' v] ps IH]; [done|].
  unfold paramsDelete in *. simpl.
  destruct (String.eqb k' k) eqn:Hk; simpl; [done|].
  by rewrite Hk.
Qed.

Lemma paramsGet_delete_other (k k' : string) (ps : Params) :
  k' <> k -> paramsGet k' (paramsDelete k ps) = paramsGet k' ps.
Proof.
  intros Hne. induction ps as [|[k0 v] ps IH]; [done|].
  unfold paramsDelete in *. simpl.
  destruct (String.eqb k0 k) eqn:Hk; simpl.
  - apply String.eqb_eq in Hk. subst k0.
    assert (String.eqb k k' = false) as ->; [|done].
    apply String.eqb_neq. congruence.
  - by rewrite IH.
Qed.

Lemma paramsGet_set_same (k v : string) (ps : Params) :
  paramsGet k (paramsSet k v ps) = Some v.
Proof.
  induction ps as [|[k' v'] ps IH]; simpl.
  - by rewrite String.eqb_refl.
  - destruct (String.eqb k' k) eqn:Hk; simpl.
    + by rewrite String.eqb_refl.
    + by rewrite Hk.
Qed.

Lemma paramsGet_set_other (k k' v : string) (ps : Params) :
  k' <> k -> paramsGet k' (paramsSet k v ps) = paramsGet k' ps.
Proof.
  intros Hne. induction ps as [|[k0 v0] ps IH]; simpl.
  - assert (String.eqb k k' = false) as ->; [|done].
    apply String.eqb_neq. congruence.
  - destruct (String.eqb k0 k) eqn:Hk; simpl.
    + apply String.eqb_eq in Hk. subst k0.
      assert (String.eqb k k' = false) as ->.
      { apply String.eqb_neq. congruence. }
      by apply paramsGet_delete_other.
    + by rewrite IH.
Qed.

Lemma find_none_iff {A} (f : A -> bool) (l : list A) :
  List.find f l = None <-> forall x, x ∈ l -> f x = false.
Proof.
  induction l as [|a l IH]; simpl.
  - split; [|done]. intros _ x Hx. by apply elem_of_nil in Hx.
  - destruct (f a) eqn:Hfa.
    + split; [done|]. intros Hall.
      rewrite Hall in Hfa; [done|]. apply elem_of_cons. by left.
    + rewrite IH. split.
      * intros Hall x [->|Hx]%elem_of_cons; [done|by apply Hall].
      * intros Hall x Hx. apply Hall, elem_of_cons. by right.
Qed.

(** X22: signing in with the name and password of an entry of [USERS]
    gives that entry's token, its printer (the admin entry starts on
    genesis), the role admin for the admin entry and printer for the
    others, page one and an empty error text; and the link written to
    the address bar, opened afresh, restores the token and the printer
    but always the role printer, so the admin role does not survive a
    reload.  With any other name or password the session and the address
    are left as they were and the error text is set. *)
Theorem handleLogin_link (engine : Engine) (pg fresh : Page) :
  isLoggingIn pg = false ->
  let pg' := handleLogin false pg in
  let reloaded := initFromUrl engine false (replaceQuery (query pg') fresh) in
  (forall u,
     u ∈ USERS ->
     loginUsername pg = username u -> loginPassword pg = password u ->
     token pg' = userToken u
     /\ truthy (token pg') = true
     /\ printerKey pg' = defaultPrinterOf u
     /\ (role pg' = Some Admin <-> userPrinter u = "admin")
     /\ (role pg' = Some Printer <-> userPrinter u <> "admin")
     /\ currentPage pg' = 1
     /\ loginError pg' = EmptyString
     /\ isLoggingIn pg' = false
     /\ initialized reloaded = true
     /\ token reloaded = token pg'
     /\ printerKey reloaded = printerKey pg'
     /\ role reloaded = Some Printer)
  /\ ((forall u,
         u ∈ USERS ->
         ~ (loginUsername pg = username u /\ loginPassword pg = password u))
      ->
      token pg' = token pg /\ role pg' = role pg
      /\ printerKey pg' = printerKey pg /\ query pg' = query pg
      /\ dashboard pg' = dashboard pg
      /\ loginError pg' = "Invalid username or password."
      /\ isLoggingIn pg' = false).
Proof.
  intros Hidle pg' reloaded. subst pg' reloaded. split.
  - intros u Hu Hname Hpass. unfold handleLogin. rewrite Hidle.
    unfold credentialsOf. rewrite Hname, Hpass.
    unfold USERS in Hu. rewrite !elem_of_cons, elem_of_nil in Hu.
    destruct Hu as [->|[->|[->|[]]]]; cbn.
    all: unfold initFromUrl, getOr; cbn.
    all: rewrite paramsGet_set_same.
    all: rewrite paramsGet_set_other by done.
    all: rewrite paramsGet_set_same.
    all: cbn.
    all: repeat (split; try done).
  - intros Hnone. unfold handleLogin. rewrite Hidle.
    assert (List.find (credentialsOf pg) USERS = None) as ->.
    { apply find_none_iff. intros u Hu. unfold credentialsOf.
      apply andb_false_iff.
      destruct (String.eqb (username u) (loginUsername pg)) eqn:Hn;
        [|by left].
      destruct (String.eqb (password u) (loginPassword pg)) eqn:Hp;
        [|by right].
      apply String.eqb_eq in Hn, Hp. exfalso. by apply (Hnone u Hu). }
    done.
Qed.

Lemma handleLogin_link_witness :
  role (handleLogin false adminAttempt) = Some Admin
  /\ role (initFromUrl engineNone false
             (replaceQuery (query (handleLogin false adminAttempt))
                adminAttempt))
     = Some Printer.
Proof.
  destruct (handleLogin_link engineNone adminAttempt adminAttempt eq_refl) as [Hin _].
  destruct (Hin adminEntry)
    as (_ & _ & _ & Hadmin & _ & _ & _ & _ & _ & _ & _ & Hrole).
  - unfold USERS, adminEntry. rewrite !elem_of_cons. right. right. by left.
  - reflexivity.
  - reflexivity.
  - split; [by apply Hadmin|exact Hrole].
Defined.

(** X23: signing out empties the token, the role, the selection and the
    order list, and removes every [token] pair from the address while
    keeping the other parameters; the address opened afresh then shows
    the sign-in form again (no token, no role).  The printer stays as it
    was. *)
Theorem handleLogout_signs_out (engine : Engine) (pg fresh : Page) :
  let pg' := handleLogout false pg in
  let reloaded := initFromUrl engine false (replaceQuery (query pg') fresh) in
  token pg' = EmptyString
  /\ role pg' = None
  /\ selected (dashboard pg') = []
  /\ orders (store (dashboard pg')) = []
  /\ totalOrders (store (dashboard pg')) = 0
  /\ printerKey pg' = printerKey pg
  /\ paramsGet "token" (query pg') = None
  /\ (forall k, k <> "token" ->
        paramsGet k (query pg') = paramsGet k (query pg))
  /\ initialized reloaded = true
  /\ token reloaded = EmptyString
  /\ role reloaded = None.
Proof.
  intros pg' reloaded. subst pg' reloaded.
  unfold handleLogout. cbn.
  repeat (split; [done|]).
  split; [apply paramsGet_delete_same|].
  split; [by intros k Hk; apply paramsGet_delete_other|].
  unfold initFromUrl, getOr. cbn.
  fold (paramsDelete "token" (query pg)).
  rewrite paramsGet_delete_same.
  by destruct (String.eqb _ "yara").
Qed.

(** ** The print progress panel *)

Lemma countStatus_cons (s : string) (r : PrintResult)
    (results : list PrintResult) :
  countStatus s (r :: results)
  = ((if String.eqb (resultStatus r) s then 1 else 0)
     + countStatus s results)%nat.
Proof. unfold countStatus. simpl. by destruct (String.eqb _ s). Qed.

(** X24: the three counts in the header of the progress panel never add
    up to more than the number of results listed, and add up to exactly
    that number if and only if every result has one of the statuses
    processing, success and error; the header shows only the counts that
    are not zero, and the hidden panel shows nothing. *)
Theorem headerCounts_total (results : list PrintResult) :
  let total :=
    (processingCount results + completedCount results
     + failedCount results)%nat in
  (total <= length results)%nat
  /\ (total = length results <->
      Forall (fun r => resultStatus r ∈ ["processing"; "success"; "error"])
        results)
  /\ headerCounts false results = None
  /\ exists shown,
       headerCounts true results = Some shown
       /\ sum_list (fst <$> shown) = total
       /\ Forall (fun p => (0 < fst p)%nat) shown.
Proof.
  intros total. subst total.
  unfold processingCount, completedCount, failedCount.
  assert ((countStatus "processing" results + countStatus "success" results
           + countStatus "error" results <= length results)%nat
          /\ ((countStatus "processing" results
               + countStatus "success" results
               + countStatus "error" results)%nat = length results <->
              Forall (fun r =>
                        resultStatus r ∈ ["processing"; "success"; "error"])
                results)) as [Hle Hiff].
  { induction results as [|r results [IHle IHiff]].
    - split; [done|]. split; [by constructor|done].
    - rewrite !countStatus_cons. cbn [length].
      rewrite Forall_cons, <- IHiff, !elem_of_cons, elem_of_nil.
      destruct (String.eqb (resultStatus r) "processing") eqn:H1;
        [apply String.eqb_eq in H1; rewrite H1; cbn; split; [lia|];
         split; [intros; split; [by left|lia] | intros [_ ?]; lia]|].
      destruct (String.eqb (resultStatus r) "success") eqn:H2;
        [apply String.eqb_eq in H2; rewrite H2; cbn; split; [lia|];
         split; [intros; split; [by right; left|lia] | intros [_ ?]; lia]|].
      destruct (String.eqb (resultStatus r) "error") eqn:H3;
        [apply String.eqb_eq in H3; rewrite H3; cbn; split; [lia|];
         split; [intros; split; [by right; right; left|lia]
                | intros [_ ?]; lia]|].
      apply String.eqb_neq in H1, H2, H3.
      split; [lia|]. split; [lia|]. intros [[?|[?|[?|[]]]] _]; done. }
  split; [done|]. split; [done|]. split; [done|].
  unfold headerCounts, processingCount, completedCount, failedCount.
  eexists. split; [done|]. cbn [List.filter fst].
  destruct (countStatus "processing" results) as [|a];
    destruct (countStatus "success" results) as [|b];
    destruct (countStatus "error" results) as [|c]; cbn.
  all: split; [lia|].
  all: repeat first [apply Forall_nil_2 | apply Forall_cons_2; [cbn; lia|]].
Qed.
